(** * Text model resolution: providers, savers, references and state events

    A shallow embedding of [TextModelResolverService] and the two classes it
    is built from, [ResourceModelCollection] and [ModelChangeEventEmitter]
    (the workbench's text model resolver service), together with the
    properties its design document states about them.

    Objects that the service only compares by identity (content providers,
    savers, text models) are numbered; JavaScript maps and null-prototype
    objects used as maps are finite maps; promises are represented by the
    value they settle to, so that one call of the embedding runs a call of
    the service up to the point where its promise has settled. *)

From Stdlib Require Import Ascii QArith Qcanon.
From stdpp Require Import gmap strings list pretty.

Open Scope string_scope.
Open Scope list_scope.

(** ** Data *)

(** [URI]: the service reads the scheme of a resource and nothing else. *)
Record URI := mkURI { scheme : string; path : string }.

#[global] Instance URI_eq_dec : EqDecision URI.
Proof. solve_decision. Defined.

#[global] Instance URI_countable : Countable URI.
Proof.
  refine (inj_countable' (fun u => (scheme u, path u))
                         (fun p => mkURI p.1 p.2) _).
  by intros [].
Defined.

(** [IModel]: a text model of the model service, an object with an identity
    and the resource it belongs to ([model.uri]). *)
Record IModel := mkModel { model_id : nat; uri : URI }.

#[global] Instance IModel_eq_dec : EqDecision IModel.
Proof. solve_decision. Defined.

#[global] Instance IModel_countable : Countable IModel.
Proof.
  refine (inj_countable' (fun m => (model_id m, uri m))
                         (fun p => mkModel p.1 p.2) _).
  by intros [].
Defined.

(** The editor models a reference can hold. [instanceof TextFileEditorModel]
    in [destroyReferencedObject] is the test on the constructor. *)
Inductive ITextEditorModel :=
| TextFileEditorModel (resource : URI)
| ResourceEditorModel (resource : URI)
| UntitledEditorModel (resource : URI).

(** Providers and savers are objects; [indexOf] and [Map] compare them by
    identity. *)
Inductive ITextModelContentProvider := ContentProvider (id : nat).
Inductive ITextModelSaver := ModelSaver (id : nat).

#[global] Instance ITextModelContentProvider_eq_dec :
  EqDecision ITextModelContentProvider.
Proof. solve_decision. Defined.

#[global] Instance ITextModelSaver_eq_dec : EqDecision ITextModelSaver.
Proof. solve_decision. Defined.

Record ITextModelSaveOptions := { encoding : option string }.

(** [ITextModelStateChangeEvent]: [type] and [resource]. *)
Inductive StateChangeType := dirty | reverted | saving | saved.

Record ITextModelStateChangeEvent :=
  { type : StateChangeType; resource : URI }.

(** A settled [TPromise]: fulfilled with a value ([TPromise.as]) or rejected
    with an error ([TPromise.wrapError]). *)
Inductive TPromise (A : Type) : Type :=
| TPromise_as (value : A)
| TPromise_wrapError (error : string).

Arguments TPromise_as {A} value.
Arguments TPromise_wrapError {A} error.

(** What a call does that an observer of the service can see, in the order
    it happens; the call of a provider is logged with what its promise
    settled to. *)
Inductive Action :=
| ProvideTextContent (provider : ITextModelContentProvider) (resource : URI)
    (content : TPromise (option IModel))
| SaveTextContent (saver : ITextModelSaver) (resource : URI) (model : IModel)
    (options : option ITextModelSaveOptions)
| LoadOrCreateFile (resource : URI)
| LoadOrCreateUntitled (resource : URI)
| DisposeFileModel (model : ITextEditorModel)
| DisposeModel (model : ITextEditorModel)
| ConsoleError (message : string)
| FireState (e : ITextModelStateChangeEvent).

(** The state events among the actions of a log. *)
Definition stateEvents (l : list Action) : list ITextModelStateChangeEvent :=
  omap (fun a => match a with FireState e => Some e | _ => None end) l.

(** ** Arrays *)

(** [array.indexOf(x)]: the first index holding [x], or [-1]. *)
Fixpoint indexOf {A} `{EqDecision A} (x : A) (array : list A) : Z :=
  match array with
  | [] => -1
  | y :: rest =>
      if decide (y = x) then 0
      else let i := indexOf x rest in
           if decide (i = -1) then -1 else (i + 1)
  end%Z.

(** [array.splice(index, count)] for an index within the array: the array
    without the [count] elements from [index] on. *)
Definition splice {A} (index count : nat) (array : list A) : list A :=
  take index array ++ drop (index + count) array.

(** ** The provider registry of [ResourceModelCollection] *)

Module Registry.

(** [providers: { [scheme: string]: ITextModelContentProvider[] }], an
    object without prototype. *)
Abbreviation t := (gmap string (list ITextModelContentProvider)).

(** The disposable of a registration: its closure holds the registry, the
    scheme and the provider. *)
Record Registration :=
  { reg_scheme : string; reg_provider : ITextModelContentProvider }.

(** [this.providers[scheme] || []]. *)
Definition lookup (registry : t) (scheme : string) :
    list ITextModelContentProvider :=
  default [] (registry !! scheme).

(** [registerTextModelContentProvider]: [unshift] on the scheme's array,
    which is created when the scheme has none. *)
Definition registerTextModelContentProvider (scheme : string)
    (provider : ITextModelContentProvider) (registry : t) : t * Registration :=
  let providers := default [] (registry !! scheme) in
  (<[scheme := provider :: providers]> registry,
   {| reg_scheme := scheme; reg_provider := provider |}).

(** The function given to [toDisposable] (imported from
    [vs/base/common/lifecycle], which is not among the sources): it is the
    disposer of the registration, and every disposal runs it. *)
Definition dispose (h : Registration) (registry : t) : t :=
  match registry !! reg_scheme h with
  | None => registry
  | Some array =>
      let index := indexOf (reg_provider h) array in
      if decide (index = -1)%Z then registry
      else
        let array' := splice (Z.to_nat index) 1 array in
        if decide (length array' = 0)
        then delete (reg_scheme h) registry
        else <[reg_scheme h := array']> registry
  end.

End Registry.

(** ** Running factories one after the other *)

(** Modelled from the spec: [first] (imported from [vs/base/common/async],
    which is not among the sources) runs the factories in the order of the
    array, one after the other, and stops at the first whose promise is
    fulfilled with a result that is not empty; when every factory comes back
    empty, so does [first]. A factory whose promise is rejected ends the
    sequence, and [first] is rejected with its error: the design document
    lets a content provider answer with content, with nothing or with a
    failure, and has every failure surfaced to the caller. [W] is whatever
    the factories act upon. *)
Fixpoint first {W T} (promiseFactories : list (W -> TPromise (option T) * W))
    (s : W) : TPromise (option T) * W :=
  match promiseFactories with
  | [] => (TPromise_as None, s)
  | factory :: rest =>
      match factory s with
      | (TPromise_as (Some result), s') => (TPromise_as (Some result), s')
      | (TPromise_as None, s') => first rest s'
      | (TPromise_wrapError err, s') => (TPromise_wrapError err, s')
      end
  end.

(** ** [ModelChangeEventEmitter] *)

Module ModelChangeEventEmitter.

(** The events and disposables of [vs/base/common], which are not among the
    sources, are taken as plain publish and subscribe: subscribing returns a
    disposable, a listener is called for each event fired until its
    disposable is disposed, and a disposed emitter calls no listener.
    - [_toDispose]: the subscriptions to the model service's [onModelAdded]
      and [onModelRemoved], [true] until they are disposed;
    - [_modelListener]: [Map<IModel, IDisposable>], a subscription being
      known by its number;
    - [_onDidChangeContent]: the emitter of the unified event, [true] until
      it is disposed;
    - [attached]: the content-change listeners this object has attached to
      models and that have not been disposed, by subscription number: what
      the models themselves hold;
    - [next]: the number of the next subscription. *)
Record t := mk {
  _toDispose : bool;
  _modelListener : gmap IModel nat;
  _onDidChangeContent : bool;
  attached : gmap nat IModel;
  next : nat }.

(** The constructor: subscribed to the model service, no listener yet. *)
Definition create : t :=
  {| _toDispose := true; _modelListener := ∅; _onDidChangeContent := true;
     attached := ∅; next := 0 |}.

(** [_onModelAdded]: [m.onDidChangeContent(...)] attaches a listener, and
    [_modelListener.set(m, subscription)] records its disposable. *)
Definition _onModelAdded (m : IModel) (e : t) : t :=
  let subscription := next e in
  {| _toDispose := _toDispose e;
     _modelListener := <[m := subscription]> (_modelListener e);
     _onDidChangeContent := _onDidChangeContent e;
     attached := <[subscription := m]> (attached e);
     next := S (next e) |}.

(** [_onModelRemoved]: [dispose(this._modelListener.get(m))], which does
    nothing for [undefined], then [_modelListener.delete(m)]. *)
Definition _onModelRemoved (m : IModel) (e : t) : t :=
  {| _toDispose := _toDispose e;
     _modelListener := delete m (_modelListener e);
     _onDidChangeContent := _onDidChangeContent e;
     attached :=
       match _modelListener e !! m with
       | Some subscription => delete subscription (attached e)
       | None => attached e
       end;
     next := next e |}.

(** [dispose]: the model service subscriptions, then every recorded
    listener, then the unified emitter. The map itself is not cleared. *)
Definition dispose (e : t) : t :=
  {| _toDispose := false;
     _modelListener := _modelListener e;
     _onDidChangeContent := false;
     attached :=
       foldr delete (attached e) (map_to_list (_modelListener e)).*2;
     next := next e |}.

(** The model service announcing a model: heard while subscribed. *)
Definition onModelAdded (m : IModel) (e : t) : t :=
  if _toDispose e then _onModelAdded m e else e.

Definition onModelRemoved (m : IModel) (e : t) : t :=
  if _toDispose e then _onModelRemoved m e else e.

(** The listeners attached to [m]. *)
Definition listenersOf (m : IModel) (e : t) : list nat :=
  (filter (fun p => p.2 = m) (map_to_list (attached e))).*1.

(** A content change of [m]: every listener attached to [m] runs
    [_onDidChangeContent.fire(m)]; the result is what the unified event
    delivers, nothing once its emitter is disposed. *)
Definition contentChanged (m : IModel) (e : t) : list IModel :=
  if _onDidChangeContent e then (fun _ => m) <$> listenersOf m e else [].

(** [m] is listened to: the unified emitter is live and one listener is
    attached to [m]. *)
Definition listening (m : IModel) (e : t) : Prop :=
  _onDidChangeContent e = true ∧ length (listenersOf m e) = 1.

(** The model service and the emitter built on it. [registry] holds the
    models of the model service; [unheard] those among them that were there
    when the emitter was constructed and have stayed since. *)
Record System := mkSystem {
  registry : gset IModel;
  unheard : gset IModel;
  emitter : t }.

(** [new ModelChangeEventEmitter(modelService)] on a model service that
    holds the models [R0]. *)
Definition initial (R0 : gset IModel) : System :=
  {| registry := R0; unheard := R0; emitter := create |}.

(** The model service adds a model and notifies the emitter. *)
Definition added (m : IModel) (s : System) : System :=
  {| registry := {[m]} ∪ registry s;
     unheard := unheard s;
     emitter := onModelAdded m (emitter s) |}.

(** The model service removes a model and notifies the emitter. *)
Definition removed (m : IModel) (s : System) : System :=
  {| registry := registry s ∖ {[m]};
     unheard := unheard s ∖ {[m]};
     emitter := onModelRemoved m (emitter s) |}.

(** The model service adds a model it does not hold, or removes one it
    holds. *)
Inductive step : System -> System -> Prop :=
| step_added m s : m ∉ registry s -> step s (added m s)
| step_removed m s : m ∈ registry s -> step s (removed m s).

(** The states reached from the construction over [R0] by notifications. *)
Definition reachable (R0 : gset IModel) (s : System) : Prop :=
  rtc step (initial R0) s.

(** What holds of a system between notifications: the emitter is subscribed
    and live; it records a listener for the models added since its
    construction and still there; the listeners attached to models are the
    recorded ones. *)
Definition invariant (s : System) : Prop :=
  _toDispose (emitter s) = true ∧
  _onDidChangeContent (emitter s) = true ∧
  unheard s ⊆ registry s ∧
  (∀ m, is_Some (_modelListener (emitter s) !! m)
        ↔ m ∈ registry s ∧ m ∉ unheard s) ∧
  (∀ subscription m,
     attached (emitter s) !! subscription = Some m
     ↔ _modelListener (emitter s) !! m = Some subscription) ∧
  (∀ subscription,
     is_Some (attached (emitter s) !! subscription) ->
     subscription < next (emitter s)).

End ModelChangeEventEmitter.

(** ** The service *)

(** Modelled from the spec: the constants [network.Schemas.file] and
    [UNTITLED_SCHEMA] are imported from files that are not among the
    sources; they are the file scheme and the scheme of untitled buffers. *)
Definition Schemas_file : string := "file".
Definition UNTITLED_SCHEMA : string := "untitled".

(** An entry of the reference collection: the shared object and the number
    of handles on it. *)
Record ReferenceEntry :=
  { object : TPromise ITextEditorModel; counter : Z }.

(** What [acquire] returns: the shared object and a release closure, known
    here by the key it releases and a number of its own. *)
Record Handle :=
  { ref_object : TPromise ITextEditorModel; ref_key : string; ref_id : nat }.

(** What [createModelReference] resolves to: an [ImmortalReference], or the
    object literal whose [dispose] calls the acquired handle's. *)
Inductive IReference :=
| ImmortalReference (object : ITextEditorModel)
| CollectionReference (object : ITextEditorModel) (ref : Handle).

(** The disposable of a saver registration: its closure holds the scheme. *)
Record SaverRegistration := { saver_scheme : string }.

(** A call that returns or throws. *)
Inductive Completion (A : Type) : Type :=
| Return (value : A)
| Throw (message : string).

Arguments Return {A} value.
Arguments Throw {A} message.

(** The collaborators of the service, which act on a world of their own:
    - [URI.parse] and [resource.toString()];
    - [provider.provideTextContent(resource)], a promise that is fulfilled
      with a model or with nothing, or rejected;
    - [saver.saveTextContent(resource, model, options)], which returns a
      promise, fulfilled or rejected, or throws instead of returning one:
      [save] calls it directly, so that what it throws is thrown by [save];
    - [textFileService.models.loadOrCreate(resource)] and
      [untitledEditorService.loadOrCreate({ resource })];
    - [modelService.getModel(resource)], the model registry being part of
      the world. *)
Class Collaborators (World : Type) := {
  URI_parse : string -> URI;
  URI_toString : URI -> string;
  provideTextContent :
    ITextModelContentProvider -> URI -> World ->
    TPromise (option IModel) * World;
  saveTextContent :
    ITextModelSaver -> URI -> IModel -> option ITextModelSaveOptions ->
    World -> Completion (TPromise unit) * World;
  textFile_loadOrCreate : URI -> World -> TPromise ITextEditorModel * World;
  untitled_loadOrCreate : URI -> World -> TPromise ITextEditorModel * World;
  getModel : URI -> World -> option IModel }.

Section Service.

Context {World : Type} `{!Collaborators World}.

(** The fields of [ResourceModelCollection] ([providers], and [references],
    [live], [nextReference] for the [ReferenceCollection] it extends), the
    fields of [TextModelResolverService], the world and the log of what
    happened. [live] holds the handles that were acquired and not released
    yet. *)
Record State := mkState {
  providers : Registry.t;
  references : gmap string ReferenceEntry;
  live : gset nat;
  nextReference : nat;
  _onDidChangeModelContent : ModelChangeEventEmitter.t;
  _modelSaver : gmap string ITextModelSaver;
  world : World;
  log : list Action }.

Definition set_providers (v : Registry.t) (st : State) : State :=
  mkState v (references st) (live st) (nextReference st)
          (_onDidChangeModelContent st) (_modelSaver st) (world st) (log st).

Definition set_references (v : gmap string ReferenceEntry) (st : State) : State :=
  mkState (providers st) v (live st) (nextReference st)
          (_onDidChangeModelContent st) (_modelSaver st) (world st) (log st).

Definition set_live (v : gset nat) (st : State) : State :=
  mkState (providers st) (references st) v (nextReference st)
          (_onDidChangeModelContent st) (_modelSaver st) (world st) (log st).

Definition set_nextReference (v : nat) (st : State) : State :=
  mkState (providers st) (references st) (live st) v
          (_onDidChangeModelContent st) (_modelSaver st) (world st) (log st).

Definition set_onDidChangeModelContent (v : ModelChangeEventEmitter.t)
    (st : State) : State :=
  mkState (providers st) (references st) (live st) (nextReference st)
          v (_modelSaver st) (world st) (log st).

Definition set_modelSaver (v : gmap string ITextModelSaver) (st : State) : State :=
  mkState (providers st) (references st) (live st) (nextReference st)
          (_onDidChangeModelContent st) v (world st) (log st).

Definition set_world (v : World) (st : State) : State :=
  mkState (providers st) (references st) (live st) (nextReference st)
          (_onDidChangeModelContent st) (_modelSaver st) v (log st).

Definition set_log (v : list Action) (st : State) : State :=
  mkState (providers st) (references st) (live st) (nextReference st)
          (_onDidChangeModelContent st) (_modelSaver st) (world st) v.

(** One more action at the end of the log. *)
Definition record (a : Action) (st : State) : State :=
  set_log (log st ++ [a]) st.

(** The constructor of [TextModelResolverService]: empty registries, and a
    [ModelChangeEventEmitter] subscribed to the model service. *)
Definition create (w : World) : State :=
  mkState ∅ ∅ ∅ 0 ModelChangeEventEmitter.create ∅ w [].

(** *** [ResourceModelCollection] *)

(** [() => p.provideTextContent(resource)]: the promise of the provider,
    fulfilled or rejected. *)
Definition factory (p : ITextModelContentProvider) (resource : URI)
    (st : State) : TPromise (option IModel) * State :=
  let '(content, w) := provideTextContent p resource (world st) in
  (content, record (ProvideTextContent p resource content) (set_world w st)).

(** [resolveTextModelContent(key)]: [then] has no callback for a rejected
    [first], whose error is the error of the result. *)
Definition resolveTextModelContent (key : string) (st : State) :
    TPromise IModel * State :=
  let resource := URI_parse key in
  let providers := default [] (providers st !! scheme resource) in
  let factories := (fun p => factory p resource) <$> providers in
  let '(model, st1) := first factories st in
  match model with
  | TPromise_as None =>
      (TPromise_wrapError "resource is not available",
       record (ConsoleError ("Unable to open '" +:+ URI_toString resource
                             +:+ "' resource is not available.")) st1)
  | TPromise_as (Some model) => (TPromise_as model, st1)
  | TPromise_wrapError err => (TPromise_wrapError err, st1)
  end.

(** [createReferencedObject(key)]. *)
Definition createReferencedObject (key : string) (st : State) :
    TPromise ITextEditorModel * State :=
  let resource := URI_parse key in
  if decide (scheme resource = Schemas_file) then
    let st1 := record (LoadOrCreateFile resource) st in
    let '(model, w) := textFile_loadOrCreate resource (world st1) in
    (model, set_world w st1)
  else
    match resolveTextModelContent key st with
    | (TPromise_as _, st1) => (TPromise_as (ResourceEditorModel resource), st1)
    | (TPromise_wrapError err, st1) => (TPromise_wrapError err, st1)
    end.

(** [destroyReferencedObject(modelPromise)]: the callback of [done] runs
    for a fulfilled promise. *)
Definition destroyReferencedObject (modelPromise : TPromise ITextEditorModel)
    (st : State) : State :=
  match modelPromise with
  | TPromise_as model =>
      match model with
      | TextFileEditorModel _ => record (DisposeFileModel model) st
      | _ => record (DisposeModel model) st
      end
  | TPromise_wrapError _ => st
  end.

(** [registerTextModelContentProvider] and the disposal of what it
    returns, on the collection's registry. *)
Definition registerTextModelContentProvider (scheme : string)
    (provider : ITextModelContentProvider) (st : State) :
    Registry.Registration * State :=
  let '(registry, h) :=
    Registry.registerTextModelContentProvider scheme provider (providers st) in
  (h, set_providers registry st).

Definition disposeRegistration (h : Registry.Registration) (st : State) : State :=
  set_providers (Registry.dispose h (providers st)) st.

(** Modelled from the spec: [ReferenceCollection] (imported from
    [vs/base/common/lifecycle], which is not among the sources). [acquire]:
    with no live entry for the key, one is created with count 1 and its
    object is built by [createReferencedObject]; with a live entry, its count
    goes up by one and the new handle shares its object. *)
Definition acquire (key : string) (st : State) : Handle * State :=
  let '(reference, st1) :=
    match references st !! key with
    | Some reference => (reference, st)
    | None =>
        let '(obj, st1) := createReferencedObject key st in
        ({| object := obj; counter := 0 |}, st1)
    end in
  let id := nextReference st1 in
  ({| ref_object := object reference; ref_key := key; ref_id := id |},
   set_nextReference (S id)
     (set_live ({[id]} ∪ live st1)
        (set_references
           (<[key := {| object := object reference;
                        counter := counter reference + 1 |}]> (references st1))
           st1))).

(** Modelled from the spec: the release of a handle takes the count of its
    entry down by one; at zero the entry leaves the map and
    [destroyReferencedObject] runs on its object. A handle releases once:
    releasing it again does nothing. *)
Definition release (h : Handle) (st : State) : State :=
  if decide (ref_id h ∈ live st) then
    let st1 := set_live (live st ∖ {[ref_id h]}) st in
    match references st1 !! ref_key h with
    | None => st1
    | Some reference =>
        let count := (counter reference - 1)%Z in
        if decide (count = 0)%Z then
          destroyReferencedObject (object reference)
            (set_references (delete (ref_key h) (references st1)) st1)
        else
          set_references
            (<[ref_key h := {| object := object reference; counter := count |}]>
               (references st1)) st1
    end
  else st.

(** The number of handles held on a key. *)
Definition refcount (key : string) (st : State) : Z :=
  match references st !! key with
  | Some reference => counter reference
  | None => 0
  end.

(** *** [TextModelResolverService] *)

(** [createModelReference(resource)]. *)
Definition createModelReference (resource : URI) (st : State) :
    TPromise IReference * State :=
  if decide (scheme resource = UNTITLED_SCHEMA) then
    let st1 := record (LoadOrCreateUntitled resource) st in
    let '(model, w) := untitled_loadOrCreate resource (world st1) in
    match model with
    | TPromise_as model => (TPromise_as (ImmortalReference model), set_world w st1)
    | TPromise_wrapError err => (TPromise_wrapError err, set_world w st1)
    end
  else if decide (scheme resource = "inmemory") then
    match getModel resource (world st) with
    | None => (TPromise_wrapError "Cant resolve inmemory resource", st)
    | Some cachedModel =>
        (TPromise_as (ImmortalReference (ResourceEditorModel resource)), st)
    end
  else
    let '(ref, st1) := acquire (URI_toString resource) st in
    match ref_object ref with
    | TPromise_as model => (TPromise_as (CollectionReference model ref), st1)
    | TPromise_wrapError err => (TPromise_wrapError err, release ref st1)
    end.

(** Modelled from the spec: [ImmortalReference] (imported from
    [vs/base/common/lifecycle], which is not among the sources) wraps an
    object in a handle whose release does nothing. *)
Definition ImmortalReference_dispose (st : State) : State := st.

(** [reference.dispose()]: for the object literal of [createModelReference],
    [() => ref.dispose()]. *)
Definition disposeReference (reference : IReference) (st : State) : State :=
  match reference with
  | ImmortalReference _ => ImmortalReference_dispose st
  | CollectionReference _ ref => release ref st
  end.

(** [registerTextModelSaver(scheme, saver)]. *)
Definition registerTextModelSaver (scheme : string) (saver : ITextModelSaver)
    (st : State) : Completion SaverRegistration * State :=
  if decide (is_Some (_modelSaver st !! scheme)) then
    (Throw ("there can only be one saver for the scheme '" +:+ scheme +:+ "'"),
     st)
  else
    (Return {| saver_scheme := scheme |},
     set_modelSaver (<[scheme := saver]> (_modelSaver st)) st).

(** The [dispose] of the object [registerTextModelSaver] returns. *)
Definition disposeSaverRegistration (h : SaverRegistration) (st : State) : State :=
  set_modelSaver (delete (saver_scheme h) (_modelSaver st)) st.

(** [save(resource, options)]: it returns a promise, or throws what the
    saver throws. *)
Definition save (resource : URI) (options : option ITextModelSaveOptions)
    (st : State) : Completion (TPromise unit) * State :=
  match getModel resource (world st) with
  | None => (Return (TPromise_wrapError "MISSING_MODEL"), st)
  | Some model =>
      match _modelSaver st !! scheme resource with
      | None => (Return (TPromise_wrapError "MISSING_SAVER"), st)
      | Some saver =>
          let st1 := record (FireState {| type := saving; resource := resource |}) st in
          let st2 := record (SaveTextContent saver resource model options) st1 in
          let '(called, w) :=
            saveTextContent saver resource model options (world st2) in
          let st3 := set_world w st2 in
          match called with
          | Return (TPromise_as _) =>
              (Return (TPromise_as tt),
               record (FireState {| type := saved; resource := resource |}) st3)
          | Return (TPromise_wrapError err) =>
              (Return (TPromise_wrapError err), st3)
          | Throw message => (Throw message, st3)
          end
      end
  end.

(** [supportsSave(resource)]. *)
Definition supportsSave (resource : URI) (st : State) : bool :=
  bool_decide (is_Some (_modelSaver st !! scheme resource)).

(** [dispose()]. *)
Definition dispose (st : State) : State :=
  set_onDidChangeModelContent
    (ModelChangeEventEmitter.dispose (_onDidChangeModelContent st)) st.

(** The listener the constructor puts on the unified content-change event. *)
Definition onDidChangeContent (model : IModel) (st : State) : State :=
  if decide (is_Some (_modelSaver st !! scheme (uri model))) then
    record (FireState {| type := dirty; resource := uri model |}) st
  else st.

(** What the model service tells the service: a model was added, a model
    was removed, the content of a model changed. *)
Inductive ModelEvent :=
| ModelAdded (m : IModel)
| ModelRemoved (m : IModel)
| ContentChanged (m : IModel).

Definition modelEvent (ev : ModelEvent) (st : State) : State :=
  match ev with
  | ModelAdded m =>
      set_onDidChangeModelContent
        (ModelChangeEventEmitter.onModelAdded m (_onDidChangeModelContent st)) st
  | ModelRemoved m =>
      set_onDidChangeModelContent
        (ModelChangeEventEmitter.onModelRemoved m (_onDidChangeModelContent st)) st
  | ContentChanged m =>
      foldl (fun st model => onDidChangeContent model st) st
        (ModelChangeEventEmitter.contentChanged m (_onDidChangeModelContent st))
  end.


(** Two states with the same registries, references and savers: what a
    collaborator's call leaves alone. *)
Definition same_service (st st1 : State) : Prop :=
  providers st1 = providers st ∧ references st1 = references st ∧
  live st1 = live st ∧ nextReference st1 = nextReference st ∧
  _onDidChangeModelContent st1 = _onDidChangeModelContent st ∧
  _modelSaver st1 = _modelSaver st.

(** The calls of providers that answered nothing. *)
Definition unanswered (resource : URI) (ps : list ITextModelContentProvider) :
    list Action :=
  (fun p => ProvideTextContent p resource (TPromise_as None)) <$> ps.

(** The providers of a list called one after the other on a resource, each
    on the world the one before it left, and each fulfilled with nothing:
    from the first world to the second. *)
Inductive answeredNothing (resource : URI) :
    list ITextModelContentProvider -> World -> World -> Prop :=
| answeredNothing_nil w : answeredNothing resource [] w w
| answeredNothing_cons p ps w w1 w2 :
    provideTextContent p resource w = (TPromise_as None, w1) ->
    answeredNothing resource ps w1 w2 ->
    answeredNothing resource (p :: ps) w w2.

End Service.

Arguments State World : clear implicits.

(** ** A small world to run the service in *)

Module Demo.

(** The models of the model service, and the resources written by savers. *)
Record World := mkWorld { models : list IModel; written : list URI }.

(** Keys of the form [scheme:path]. *)
Fixpoint scheme_of (key : string) : string :=
  match key with
  | EmptyString => EmptyString
  | String c rest =>
      if Ascii.eqb c ":"%char then EmptyString else String c (scheme_of rest)
  end.

Fixpoint path_of (key : string) : string :=
  match key with
  | EmptyString => EmptyString
  | String c rest => if Ascii.eqb c ":"%char then rest else path_of rest
  end.

Definition lookupModel (resource : URI) (w : World) : option IModel :=
  snd <$> list_find (fun m => uri m = resource) (models w).

(** Provider 0 answers nothing and provider 3 fails. Any other provider
    answers with the model the model service holds for the resource,
    creating one when there is none. *)
Definition provide (p : ITextModelContentProvider) (resource : URI)
    (w : World) : TPromise (option IModel) * World :=
  match p with
  | ContentProvider 0 => (TPromise_as None, w)
  | ContentProvider 3 => (TPromise_wrapError "EIO", w)
  | ContentProvider _ =>
      match lookupModel resource w with
      | Some m => (TPromise_as (Some m), w)
      | None =>
          let m := mkModel (length (models w)) resource in
          (TPromise_as (Some m), mkWorld (models w ++ [m]) (written w))
      end
  end.

(** The promise of saver 0 is rejected and saver 1 writes the resource. Any
    other saver throws: it takes its first argument for the model. *)
Definition store (s : ITextModelSaver) (resource : URI) (m : IModel)
    (options : option ITextModelSaveOptions) (w : World) :
    Completion (TPromise unit) * World :=
  match s with
  | ModelSaver 0 => (Return (TPromise_wrapError "EACCES"), w)
  | ModelSaver 1 =>
      (Return (TPromise_as tt), mkWorld (models w) (written w ++ [resource]))
  | ModelSaver _ => (Throw "model.getValue is not a function", w)
  end.

(** Files with an empty path do not load. *)
Definition loadFile (resource : URI) (w : World) :
    TPromise ITextEditorModel * World :=
  if decide (path resource = "") then (TPromise_wrapError "ENOENT", w)
  else (TPromise_as (TextFileEditorModel resource), w).

Definition loadUntitled (resource : URI) (w : World) :
    TPromise ITextEditorModel * World :=
  (TPromise_as (UntitledEditorModel resource), w).

#[global] Instance collaborators : Collaborators World := {|
  URI_parse key := mkURI (scheme_of key) (path_of key);
  URI_toString u := scheme u +:+ ":" +:+ path u;
  provideTextContent := provide;
  saveTextContent := store;
  textFile_loadOrCreate := loadFile;
  untitled_loadOrCreate := loadUntitled;
  getModel := lookupModel |}.

(** A world without models, and one holding a model of [demo:x]. *)
Definition empty : World := mkWorld [] [].
Definition x : URI := mkURI "demo" "x".
Definition model_x : IModel := mkModel 0 x.
Definition with_x : World := mkWorld [model_x] [].

End Demo.

(** ** The rest of the resolver service: what its callers do with it *)

(** No scheme of the registry holds an empty array. *)
Definition noEmptyArray (registry : Registry.t) : Prop :=
  ∀ scheme array, registry !! scheme = Some array -> array ≠ [].

(** What a caller can do to the provider registry: register a provider, or
    dispose a registration (any registration, any number of times). *)
Inductive RegistryOp :=
| Register (scheme : string) (provider : ITextModelContentProvider)
| Dispose (h : Registry.Registration).

Definition runRegistryOp (registry : Registry.t) (op : RegistryOp) : Registry.t :=
  match op with
  | Register scheme provider =>
      (Registry.registerTextModelContentProvider scheme provider registry).1
  | Dispose h => Registry.dispose h registry
  end.

Definition runRegistryOps (ops : list RegistryOp) (registry : Registry.t) :
    Registry.t :=
  foldl runRegistryOp registry ops.

(** The providers called, among the actions of a log. *)
Definition providerCalls (l : list Action) :
    list (ITextModelContentProvider * URI) :=
  omap (fun a => match a with
                 | ProvideTextContent p r _ => Some (p, r)
                 | _ => None
                 end) l.

(** [reference.object]. *)
Definition reference_object (reference : IReference) : ITextEditorModel :=
  match reference with
  | ImmortalReference model => model
  | CollectionReference model _ => model
  end.

(** The action by which [destroyReferencedObject] destroys a model. *)
Definition destroyed (model : ITextEditorModel) : Action :=
  match model with
  | TextFileEditorModel _ => DisposeFileModel model
  | _ => DisposeModel model
  end.

(** Two states with the same registered providers and savers. *)
Definition same_registrations {World : Type} (st st1 : State World) : Prop :=
  providers st1 = providers st ∧ _modelSaver st1 = _modelSaver st.

(** ** [ResourceEditorInput] *)

Module ResourceEditorInput.

(** [e.type === 'dirty'] and [e.resource], under names that the fields of
    the input do not take. *)
Definition isDirtyType (ty : StateChangeType) : bool :=
  match ty with
  | dirty => true
  | _ => false
  end.

Definition eventResource (e : ITextModelStateChangeEvent) : URI := resource e.

(** What the input fires: [_onDidChangeDirty] and [_onDidChangeLabel], which
    it inherits from [EditorInput]. *)
Inductive Fired := DidChangeDirty | DidChangeLabel.

(** The fields of the input. [modelReference] is [None] while it is
    [undefined] or [null]; [dirty] is [None] until it is first assigned,
    the constructor leaving it [undefined]; [toUnbind] is [true] while the
    listener on [onDidChangeState] is in place; [fired] is what was fired so
    far. *)
Record t := mk {
  modelReference : option (TPromise IReference);
  resource : URI;
  name : string;
  description : string;
  toUnbind : bool;
  dirty : option bool;
  fired : list Fired }.

(** The constructor, with [registerListeners]. *)
Definition create (name description : string) (resource : URI) : t :=
  {| modelReference := None; resource := resource; name := name;
     description := description; toUnbind := true; dirty := None;
     fired := [] |}.

Definition set_modelReference (v : option (TPromise IReference)) (i : t) : t :=
  mk v (resource i) (name i) (description i) (toUnbind i) (dirty i) (fired i).

Definition set_name (v : string) (i : t) : t :=
  mk (modelReference i) (resource i) v (description i) (toUnbind i) (dirty i)
     (fired i).

Definition set_description (v : string) (i : t) : t :=
  mk (modelReference i) (resource i) (name i) v (toUnbind i) (dirty i)
     (fired i).

Definition set_toUnbind (v : bool) (i : t) : t :=
  mk (modelReference i) (resource i) (name i) (description i) v (dirty i)
     (fired i).

Definition set_dirty (v : option bool) (i : t) : t :=
  mk (modelReference i) (resource i) (name i) (description i) (toUnbind i) v
     (fired i).

Definition fire (f : Fired) (i : t) : t :=
  mk (modelReference i) (resource i) (name i) (description i) (toUnbind i)
     (dirty i) (fired i ++ [f]).

(** [isDirty()], [getResource()], [getName()], [getDescription()]. *)
Definition isDirty (i : t) : option bool := dirty i.
Definition getResource (i : t) : URI := resource i.
Definition getName (i : t) : string := name i.
Definition getDescription (i : t) : string := description i.

(** [setName(name)] and [setDescription(description)]. *)
Definition setName (v : string) (i : t) : t :=
  if decide (name i ≠ v) then fire DidChangeLabel (set_name v i) else i.

Definition setDescription (v : string) (i : t) : t :=
  if decide (description i ≠ v) then fire DidChangeLabel (set_description v i)
  else i.

Section WithCollaborators.

Context {World : Type} `{!Collaborators World}.

(** [onDirtyStateChange(e)]. *)
Definition onDirtyStateChange (e : ITextModelStateChangeEvent) (i : t) : t :=
  if decide (URI_toString (eventResource e) = URI_toString (resource i)) then
    let isDirty := isDirtyType (type e) in
    let i1 := if decide (Some isDirty ≠ dirty i) then fire DidChangeDirty i
              else i in
    set_dirty (Some isDirty) i1
  else i.

(** A state event of the service reaching the input: its listener runs
    until [toUnbind] is disposed. *)
Definition onDidChangeState (e : ITextModelStateChangeEvent) (i : t) : t :=
  if toUnbind i then onDirtyStateChange e i else i.

(** The state events the service fired since its log was [before], reaching
    the input in the order they were fired. *)
Definition listen (before : list Action) (st : State World) (i : t) : t :=
  foldl (fun i e => onDidChangeState e i) i
        (stateEvents (drop (length before) (log st))).

(** [save()]: [true] when the promise of the service's [save] is
    fulfilled, [false] when it is rejected; what the service's [save] throws
    is thrown before [then] is reached. *)
Definition save (i : t) (st : State World) :
    Completion (TPromise bool) * State World :=
  match save (resource i) None st with
  | (Return (TPromise_as _), st1) => (Return (TPromise_as true), st1)
  | (Return (TPromise_wrapError _), st1) => (Return (TPromise_as false), st1)
  | (Throw message, st1) => (Throw message, st1)
  end.

(** [resolve(refresh)]. *)
Definition resolve (i : t) (st : State World) :
    TPromise ITextEditorModel * t * State World :=
  let '(modelReference, i1, st1) :=
    match modelReference i with
    | Some reference => (reference, i, st)
    | None =>
        let '(reference, st1) := createModelReference (resource i) st in
        (reference, set_modelReference (Some reference) i, st1)
    end in
  match modelReference with
  | TPromise_as ref =>
      let model := reference_object ref in
      match model with
      | ResourceEditorModel _ => (TPromise_as model, i1, st1)
      | _ =>
          (TPromise_wrapError
             ("Unexpected model for ResourceInput: "
              +:+ URI_toString (resource i)),
           set_modelReference None i1, disposeReference ref st1)
      end
  | TPromise_wrapError err => (TPromise_wrapError err, i1, st1)
  end.

(** [dispose()], up to the [dispose] it inherits: the reference is disposed
    once its promise is fulfilled, then the listener. *)
Definition dispose (i : t) (st : State World) : t * State World :=
  let st1 :=
    match modelReference i with
    | Some (TPromise_as ref) => disposeReference ref st
    | _ => st
    end in
  (set_toUnbind false (set_modelReference None i), st1).

End WithCollaborators.

(** [\w]: a letter, a digit or an underscore. *)
Definition isWordChar (c : ascii) : bool :=
  let n := nat_of_ascii c in
  ((48 <=? n) && (n <=? 57) || (65 <=? n) && (n <=? 90)
   || (97 <=? n) && (n <=? 122) || (n =? 95))%nat.

(** Whether [\(&&\w\)] matches at the start of a string, and whether [&&]
    does. *)
Definition mnemonicAt (s : string) : bool :=
  match s with
  | String c0 (String c1 (String c2 (String c3 (String c4 _)))) =>
      Ascii.eqb c0 "(" && Ascii.eqb c1 "&" && Ascii.eqb c2 "&"
      && isWordChar c3 && Ascii.eqb c4 ")"
  | _ => false
  end.

Definition ampersandsAt (s : string) : bool :=
  match s with
  | String c0 (String c1 _) => Ascii.eqb c0 "&" && Ascii.eqb c1 "&"
  | _ => false
  end.

(** [label.replace(/&&/g, '&')] on Windows and
    [label.replace(/\(&&\w\)|&&/g, '')] elsewhere: the matches are found
    from left to right, the first alternative first, and do not overlap;
    [skip] characters of the match found last are still to be passed. *)
Fixpoint replaceFrom (isWindows : bool) (skip : nat) (s : string) : string :=
  match s with
  | EmptyString => EmptyString
  | String c rest =>
      match skip with
      | S skip => replaceFrom isWindows skip rest
      | O =>
          if isWindows then
            if ampersandsAt s then String "&" (replaceFrom isWindows 1 rest)
            else String c (replaceFrom isWindows 0 rest)
          else if mnemonicAt s then replaceFrom isWindows 4 rest
          else if ampersandsAt s then replaceFrom isWindows 1 rest
          else String c (replaceFrom isWindows 0 rest)
      end
  end.

(** [mnemonicLabel(label)]; [isWindows] is what the platform says. *)
Definition mnemonicLabel (isWindows : bool) (label : string) : string :=
  replaceFrom isWindows 0 label.

End ResourceEditorInput.

(** * The files configuration service

    [FilesConfigurationService] keeps what the [files] section of the
    configuration says about auto save, file associations and hot exit.
    The constants of [AutoSaveConfiguration] and [HotExitConfiguration]
    and [equals] (vs/platform/files/common/files, vs/base/common/objects)
    are not part of the sources at hand: they are the fields of [Platform].
    A number of the configuration is a rational ([Qc]): it is read from
    JSON and so is finite. *)
Module FilesConfigurationService.

Inductive AutoSaveMode :=
  | OFF | AFTER_SHORT_DELAY | AFTER_LONG_DELAY | ON_FOCUS_CHANGE
  | ON_WINDOW_CHANGE.

Record IAutoSaveConfiguration := mkAutoSave {
  autoSaveDelay : option Qc;
  autoSaveFocusChange : bool;
  autoSaveApplicationChange : bool }.

Class Platform (Associations : Type) := {
  AutoSaveConfiguration_OFF : string;
  AutoSaveConfiguration_AFTER_DELAY : string;
  AutoSaveConfiguration_ON_FOCUS_CHANGE : string;
  AutoSaveConfiguration_ON_WINDOW_CHANGE : string;
  HotExitConfiguration_OFF : string;
  HotExitConfiguration_ON_EXIT : string;
  HotExitConfiguration_ON_EXIT_AND_WINDOW_CLOSE : string;
  equals : option Associations -> option Associations -> bool }.

(** The events the service fires, in order. *)
Inductive Fired :=
  | AutoSaveConfigurationChange (e : IAutoSaveConfiguration)
  | FilesAssociationChange.

(** The result of [configurationService.inspect]: a value that is
    [undefined] or [null] is [None]. *)
Record Inspect := mkInspect {
  user : option string;
  default_ : option string }.

(** [a || b] on strings: the empty string is falsy. *)
Definition or_string (a : option string) (b : string) : string :=
  match a with
  | Some s => if decide (s = EmptyString) then b else s
  | None => b
  end.

(** [d && d > 0] as a condition: [undefined] and [0] are falsy. *)
Definition positive_delay (d : option Qc) : bool :=
  match d with
  | Some d => bool_decide (d ≠ 0%Qc) && bool_decide (0 < d)%Qc
  | None => false
  end.

Section WithPlatform.

Context {Associations : Type} `{!Platform Associations}.

(** The [files] section of [IFilesConfiguration]; every field may be
    missing, as may the section and the configuration themselves. *)
Record Files := mkFiles {
  files_associations : option Associations;
  files_autoSave : option string;
  files_autoSaveDelay : option Qc;
  files_hotExit : option string }.

Record IFilesConfiguration := mkConfiguration { files : option Files }.

(** [configuration?.files?.field]. *)
Definition read {A : Type} (field : Files -> option A)
    (configuration : option IFilesConfiguration) : option A :=
  match configuration with
  | Some c => match files c with Some f => field f | None => None end
  | None => None
  end.

Record t := mk {
  configuredAutoSaveDelay : option Qc;
  configuredAutoSaveOnFocusChange : option bool;
  configuredAutoSaveOnWindowChange : option bool;
  autoSaveContext : option string;
  currentFilesAssociationConfig : option Associations;
  currentHotExitConfig : string;
  isExtensionDevelopment : bool;
  fired : list Fired }.

Definition set_autoSave (delay : option Qc) (focus window : bool) (s : t) : t :=
  mk delay (Some focus) (Some window) (autoSaveContext s)
     (currentFilesAssociationConfig s) (currentHotExitConfig s)
     (isExtensionDevelopment s) (fired s).

Definition set_autoSaveContext (v : string) (s : t) : t :=
  mk (configuredAutoSaveDelay s) (configuredAutoSaveOnFocusChange s)
     (configuredAutoSaveOnWindowChange s) (Some v)
     (currentFilesAssociationConfig s) (currentHotExitConfig s)
     (isExtensionDevelopment s) (fired s).

Definition set_currentFilesAssociationConfig (v : option Associations)
    (s : t) : t :=
  mk (configuredAutoSaveDelay s) (configuredAutoSaveOnFocusChange s)
     (configuredAutoSaveOnWindowChange s) (autoSaveContext s) v
     (currentHotExitConfig s) (isExtensionDevelopment s) (fired s).

Definition set_currentHotExitConfig (v : string) (s : t) : t :=
  mk (configuredAutoSaveDelay s) (configuredAutoSaveOnFocusChange s)
     (configuredAutoSaveOnWindowChange s) (autoSaveContext s)
     (currentFilesAssociationConfig s) v (isExtensionDevelopment s) (fired s).

Definition fire (e : Fired) (s : t) : t :=
  mk (configuredAutoSaveDelay s) (configuredAutoSaveOnFocusChange s)
     (configuredAutoSaveOnWindowChange s) (autoSaveContext s)
     (currentFilesAssociationConfig s) (currentHotExitConfig s)
     (isExtensionDevelopment s) (fired s ++ [e]).

(** [getAutoSaveMode()]. *)
Definition getAutoSaveMode (s : t) : AutoSaveMode :=
  if default false (configuredAutoSaveOnFocusChange s) then ON_FOCUS_CHANGE
  else if default false (configuredAutoSaveOnWindowChange s) then
    ON_WINDOW_CHANGE
  else if positive_delay (configuredAutoSaveDelay s) then
    match configuredAutoSaveDelay s with
    | Some d =>
        if bool_decide (d ≤ Qc_of_Z 1000)%Qc then AFTER_SHORT_DELAY
        else AFTER_LONG_DELAY
    | None => OFF
    end
  else OFF.

(** [getAutoSaveConfiguration()]. *)
Definition getAutoSaveConfiguration (s : t) : IAutoSaveConfiguration :=
  {| autoSaveDelay :=
       if positive_delay (configuredAutoSaveDelay s)
       then configuredAutoSaveDelay s else None;
     autoSaveFocusChange := default false (configuredAutoSaveOnFocusChange s);
     autoSaveApplicationChange :=
       default false (configuredAutoSaveOnWindowChange s) |}.

(** [onFilesConfigurationChange(configuration)]. *)
Definition onFilesConfigurationChange (configuration : option IFilesConfiguration)
    (s : t) : t :=
  let autoSaveMode :=
    or_string (read files_autoSave configuration)
      AutoSaveConfiguration_OFF in
  let s1 := set_autoSaveContext autoSaveMode s in
  let s2 :=
    if decide (autoSaveMode = AutoSaveConfiguration_AFTER_DELAY) then
      set_autoSave (read files_autoSaveDelay configuration)
        false false s1
    else if decide (autoSaveMode = AutoSaveConfiguration_ON_FOCUS_CHANGE) then
      set_autoSave None true false s1
    else if decide (autoSaveMode = AutoSaveConfiguration_ON_WINDOW_CHANGE) then
      set_autoSave None false true s1
    else set_autoSave None false false s1 in
  let s3 := fire (AutoSaveConfigurationChange (getAutoSaveConfiguration s2)) s2 in
  let filesAssociation := read files_associations configuration in
  let s4 :=
    if negb (equals (currentFilesAssociationConfig s3) filesAssociation) then
      fire FilesAssociationChange
        (set_currentFilesAssociationConfig filesAssociation s3)
    else s3 in
  let hotExitMode := read files_hotExit configuration in
  match hotExitMode with
  | Some mode =>
      if decide (mode = HotExitConfiguration_OFF
                 ∨ mode = HotExitConfiguration_ON_EXIT_AND_WINDOW_CLOSE)
      then set_currentHotExitConfig mode s4
      else set_currentHotExitConfig HotExitConfiguration_ON_EXIT s4
  | None => set_currentHotExitConfig HotExitConfiguration_ON_EXIT s4
  end.

(** The constructor: the fields of auto save start [undefined]; the
    configuration is read once and applied. *)
Definition create (extensionDevelopment : bool)
    (configuration : option IFilesConfiguration) : t :=
  onFilesConfigurationChange configuration
    {| configuredAutoSaveDelay := None;
       configuredAutoSaveOnFocusChange := None;
       configuredAutoSaveOnWindowChange := None;
       autoSaveContext := None;
       currentFilesAssociationConfig :=
         read files_associations configuration;
       currentHotExitConfig :=
         or_string (read files_hotExit configuration)
           HotExitConfiguration_ON_EXIT;
       isExtensionDevelopment := extensionDevelopment;
       fired := [] |}.

(** The listener of [registerListeners]: a configuration change that
    affects [files] applies the current configuration. *)
Definition onDidChangeConfiguration (affectsFiles : bool)
    (configuration : option IFilesConfiguration) (s : t) : t :=
  if affectsFiles then onFilesConfigurationChange configuration s else s.

(** [toggleAutoSave()]: the value written to [files.autoSave] of the user
    settings. *)
Definition toggleAutoSave (setting : Inspect) : string :=
  let userAutoSaveConfig :=
    match user setting with
    | None => default_ setting
    | Some v => Some v
    end in
  if existsb (fun s => bool_decide (Some s = userAutoSaveConfig))
       [AutoSaveConfiguration_AFTER_DELAY;
        AutoSaveConfiguration_ON_FOCUS_CHANGE;
        AutoSaveConfiguration_ON_WINDOW_CHANGE]
  then AutoSaveConfiguration_OFF
  else AutoSaveConfiguration_AFTER_DELAY.

(** [isHotExitEnabled] and [hotExitConfiguration]. *)
Definition isHotExitEnabled (s : t) : bool :=
  negb (isExtensionDevelopment s)
  && bool_decide (currentHotExitConfig s ≠ HotExitConfiguration_OFF).

Definition hotExitConfiguration (s : t) : string := currentHotExitConfig s.

(** The delay and the two flags [onFilesConfigurationChange] leaves for a
    configuration, whatever the state before. *)
Definition configured (c : option IFilesConfiguration) : option Qc * bool * bool :=
  let autoSaveMode := or_string (read files_autoSave c) AutoSaveConfiguration_OFF in
  if decide (autoSaveMode = AutoSaveConfiguration_AFTER_DELAY) then
    (read files_autoSaveDelay c, false, false)
  else if decide (autoSaveMode = AutoSaveConfiguration_ON_FOCUS_CHANGE) then
    (None, true, false)
  else if decide (autoSaveMode = AutoSaveConfiguration_ON_WINDOW_CHANGE) then
    (None, false, true)
  else (None, false, false).

(** The auto save events among the fired ones. *)
Definition autoSaveEvents (l : list Fired) : list IAutoSaveConfiguration :=
  omap (fun e => match e with
                 | AutoSaveConfigurationChange c => Some c
                 | FilesAssociationChange => None
                 end) l.

End WithPlatform.

Arguments Files Associations : clear implicits.
Arguments IFilesConfiguration Associations : clear implicits.
Arguments t Associations : clear implicits.

End FilesConfigurationService.

(** A platform with the values the constants have in VS Code, and
    associations as a map compared with [=]. *)
Module FilesDemo.

#[global] Instance platform :
    FilesConfigurationService.Platform (gmap string string) := {|
  FilesConfigurationService.AutoSaveConfiguration_OFF := "off";
  FilesConfigurationService.AutoSaveConfiguration_AFTER_DELAY := "afterDelay";
  FilesConfigurationService.AutoSaveConfiguration_ON_FOCUS_CHANGE :=
    "onFocusChange";
  FilesConfigurationService.AutoSaveConfiguration_ON_WINDOW_CHANGE :=
    "onWindowChange";
  FilesConfigurationService.HotExitConfiguration_OFF := "off";
  FilesConfigurationService.HotExitConfiguration_ON_EXIT := "onExit";
  FilesConfigurationService.HotExitConfiguration_ON_EXIT_AND_WINDOW_CLOSE :=
    "onExitAndWindowClose";
  FilesConfigurationService.equals a b := bool_decide (a = b) |}.

Definition configuration (autoSave : option string) (delay : option Qc)
    (hotExit : option string) :
    option (FilesConfigurationService.IFilesConfiguration (gmap string string)) :=
  Some (FilesConfigurationService.mkConfiguration
          (Some (FilesConfigurationService.mkFiles None autoSave delay hotExit))).

End FilesDemo.

(** * The global mouse move monitor

    [GlobalMouseMoveMonitor] hooks mouse listeners into the documents of a
    chain of windows while it monitors. The store of the hooks is the list
    of the listeners it holds; [clear] empties it. What the browser and
    [IframeUtils] answer is the [Environment] of a call. The monitor after
    [dispose()] is not modelled: [dispose] is its last operation. *)
Module GlobalMouseMoveMonitor.

(** The functions given to the listeners, by the event they are for. *)
Inductive Handler := MouseMove | MouseUp | MouseOut | MouseOver | MouseLeave.

#[global] Instance Handler_eq_dec : EqDecision Handler.
Proof. solve_decision. Defined.

Section Monitor.

Context {Window R Merger Callback OnStop : Type} `{!EqDecision Window}.

(** [element.window.document] and [element.window.document.body]. *)
Inductive Target := Document (w : Window) | Body (w : Window).

#[global] Instance Target_eq_dec : EqDecision Target.
Proof. solve_decision. Defined.

Record Listener := mkListener {
  target : Target;
  type : string;
  handler : Handler }.

#[global] Instance Listener_eq_dec : EqDecision Listener.
Proof. solve_decision. Defined.

Record Environment := mkEnvironment {
  windowChain : list Window;
  hasDifferentOriginAncestor : bool;
  isIOS : bool;
  pointerEvents : bool }.

(** What a listener is called with: the merged data of a throttled mouse
    move, and whether the tag name of the target, in lower case, is
    ['html']. *)
Record Call := mkCall { data : R; targetIsHtml : bool }.

Record t := mk {
  hooks : list Listener;
  mouseMoveEventMerger : option Merger;
  mouseMoveCallback : option Callback;
  onStopCallback : option OnStop;
  stopped : list OnStop;
  moved : list (Callback * R) }.

Definition create : t := mk [] None None None [] [].

Definition add (l : Listener) (s : t) : t :=
  mk (hooks s ++ [l]) (mouseMoveEventMerger s) (mouseMoveCallback s)
     (onStopCallback s) (stopped s) (moved s).

(** [isMonitoring()]. *)
Definition isMonitoring (s : t) : bool :=
  match mouseMoveEventMerger s with Some _ => true | None => false end.

(** [stopMonitoring(invokeStopCallback)]. *)
Definition stopMonitoring (invokeStopCallback : bool) (s : t) : t :=
  if negb (isMonitoring s) then s
  else
    let onStopCallback := onStopCallback s in
    let s1 := mk [] None None None (stopped s) (moved s) in
    match onStopCallback with
    | Some f =>
        if invokeStopCallback
        then mk (hooks s1) None None None (stopped s1 ++ [f]) (moved s1)
        else s1
    | None => s1
    end.

(** [dispose()]: the store, empty by then, is disposed with it. *)
Definition dispose (s : t) : t := stopMonitoring false s.

(** [startMonitoring(mouseMoveEventMerger, mouseMoveCallback,
    onStopCallback)]. With an empty window chain
    [windowChain[windowChain.length - 1]] is [undefined], and reading its
    [window] throws. *)
Definition startMonitoring (mouseMoveEventMerger : Merger)
    (mouseMoveCallback : Callback) (onStopCallback : OnStop)
    (env : Environment) (s : t) : Completion unit * t :=
  if isMonitoring s then (Return tt, s)
  else
    let s1 :=
      mk (hooks s) (Some mouseMoveEventMerger) (Some mouseMoveCallback)
         (Some onStopCallback) (stopped s) (moved s) in
    let mouseMove :=
      if isIOS env && pointerEvents env then "pointermove" else "mousemove" in
    let mouseUp :=
      if isIOS env && pointerEvents env then "pointerup" else "mouseup" in
    let s2 :=
      foldl (fun s element =>
               add (mkListener (Document element) mouseUp MouseUp)
                 (add (mkListener (Document element) mouseMove MouseMove) s))
        s1 (windowChain env) in
    if hasDifferentOriginAncestor env then
      match last (windowChain env) with
      | None => (Throw "TypeError", s2)
      | Some lastSameOriginAncestor =>
          (Return tt,
           add (mkListener (Body lastSameOriginAncestor) "mouseleave" MouseLeave)
             (add (mkListener (Document lastSameOriginAncestor) "mouseover"
                     MouseOver)
                (add (mkListener (Document lastSameOriginAncestor) "mouseout"
                        MouseOut) s2)))
      end
    else (Return tt, s2).

(** What the function given to a listener does when it is called. A mouse
    move without a callback would throw: no listener is hooked then. *)
Definition handle (h : Handler) (e : Call) (s : t) : t :=
  match h with
  | MouseMove =>
      match mouseMoveCallback s with
      | Some f =>
          mk (hooks s) (mouseMoveEventMerger s) (mouseMoveCallback s)
             (onStopCallback s) (stopped s) (moved s ++ [(f, data e)])
      | None => s
      end
  | MouseUp | MouseLeave => stopMonitoring true s
  | MouseOut | MouseOver =>
      if targetIsHtml e then stopMonitoring true s else s
  end.

(** The steps of a monitor in use. A listener is called only while the
    store holds it. *)
Inductive Op :=
  | Start (mouseMoveEventMerger : Merger) (mouseMoveCallback : Callback)
      (onStopCallback : OnStop) (env : Environment)
  | Stop (invokeStopCallback : bool)
  | Listen (l : Listener) (e : Call).

Definition step (s : t) (op : Op) : t :=
  match op with
  | Start merger callback onStop env =>
      (startMonitoring merger callback onStop env s).2
  | Stop invoke => stopMonitoring invoke s
  | Listen l e =>
      if bool_decide (l ∈ hooks s) then handle (handler l) e s else s
  end.

Definition run (ops : list Op) (s : t) : t :=
  foldl step s ops.

Definition isStart (op : Op) : bool :=
  match op with Start _ _ _ _ => true | _ => false end.

(** A monitor at rest holds nothing. *)
Definition idle (s : t) : Prop :=
  hooks s = [] ∧ mouseMoveEventMerger s = None ∧ mouseMoveCallback s = None
  ∧ onStopCallback s = None.

(** The three functions are set together. *)
Definition consistent (s : t) : Prop :=
  match mouseMoveEventMerger s with
  | Some _ => is_Some (mouseMoveCallback s) ∧ is_Some (onStopCallback s)
  | None => idle s
  end.

(** The listeners [startMonitoring] hooks for an environment. *)
Definition hooked (env : Environment) : list Listener :=
  let mouseMove :=
    if isIOS env && pointerEvents env then "pointermove" else "mousemove" in
  let mouseUp :=
    if isIOS env && pointerEvents env then "pointerup" else "mouseup" in
  flat_map (fun w => [mkListener (Document w) mouseMove MouseMove;
                      mkListener (Document w) mouseUp MouseUp])
    (windowChain env)
  ++ match last (windowChain env) with
     | Some w =>
         if hasDifferentOriginAncestor env then
           [mkListener (Document w) "mouseout" MouseOut;
            mkListener (Document w) "mouseover" MouseOver;
            mkListener (Body w) "mouseleave" MouseLeave]
         else []
     | None => []
     end.

(** The sessions begun so far: a stop callback called, or monitoring. *)
Definition sessions (s : t) : nat :=
  length (stopped s) + (if isMonitoring s then 1 else 0).

(** The states of one session: monitoring as started, or at rest after
    the stop callback was called at most once. *)
Definition session (f : OnStop) (callback : Callback) (s0 s : t) : Prop :=
  (∃ datas, moved s = moved s0 ++ map (fun d => (callback, d)) datas)
  ∧ (isMonitoring s = true ∧ mouseMoveCallback s = Some callback
     ∧ onStopCallback s = Some f ∧ stopped s = stopped s0
     ∨ idle s ∧ ∃ invoked : bool,
         stopped s = stopped s0 ++ (if invoked then [f] else [])).

End Monitor.

Arguments Target Window : clear implicits.
Arguments Listener Window : clear implicits.
Arguments Environment Window : clear implicits.
Arguments Call R : clear implicits.
Arguments t Window R Merger Callback OnStop : clear implicits.
Arguments Op Window R Merger Callback OnStop : clear implicits.

End GlobalMouseMoveMonitor.

(** * The code lens widget

    The view zone and the content widget of a line of code lenses
    (codelensWidget.ts). A height is a finite number. *)
Module CodeLensViewZone.

(** The zone with the number of calls of [_onHeight] so far. *)
Record t := mk {
  afterLineNumber : Z;
  _lastHeight : option Qc;
  _onHeight : nat }.

Definition create (afterLineNumber : Z) : t := mk afterLineNumber None 0.

(** [onComputedHeight(height)]. *)
Definition onComputedHeight (height : Qc) (z : t) : t :=
  match _lastHeight z with
  | None => mk (afterLineNumber z) (Some height) (_onHeight z)
  | Some lastHeight =>
      if decide (lastHeight ≠ height)
      then mk (afterLineNumber z) (Some height) (S (_onHeight z))
      else z
  end.

End CodeLensViewZone.

Module CodeLensContentWidget.

(** What [withCommands] reads of a command and of a lens. *)
Record Command := mkCommand { id : string; title : string }.

Record CodeLens := mkCodeLens { command : option Command }.

#[global] Instance Command_eq_dec : EqDecision Command.
Proof. solve_decision. Defined.

(** A link of the document: whether its parent is the node of the widget,
    and its id. *)
Record HTMLLinkElement := mkLink { parentIsDomNode : bool; link_id : string }.

Section Widget.

(** [renderCodicons] (vs/base/browser/ui/codiconLabel) is not part of the
    sources at hand. *)
Variable renderCodicons : string -> string.

Record t := mk {
  _commands : gmap string Command;
  innerHTML : string;
  _isEmpty : bool;
  fadein : bool;
  layoutContentWidget : nat }.

(** The variables of the loop of [withCommands]. *)
Record Loop := mkLoop {
  commands : gmap string Command;
  innerHtml : string;
  hasSymbol : bool }.

(** One turn of the loop, for the lens at index [i] of [length] lenses. *)
Definition turn (length i : nat) (lens : option CodeLens) (l : Loop) : Loop :=
  match lens with
  | None => l
  | Some lens =>
      match command lens with
      | Some c =>
          let title := renderCodicons (title c) in
          let l1 :=
            if decide (id c ≠ EmptyString) then
              mkLoop (<[pretty i := c]> (commands l))
                (innerHtml l +:+ "<a id=" +:+ pretty i +:+ ">" +:+ title
                 +:+ "</a>")
                true
            else
              mkLoop (commands l)
                (innerHtml l +:+ "<span>" +:+ title +:+ "</span>") true in
          if decide (i + 1 < length)%nat then
            mkLoop (commands l1)
              (innerHtml l1 +:+ "<span>&nbsp;|&nbsp;</span>") true
          else l1
      | None => mkLoop (commands l) (innerHtml l) true
      end
  end.

Fixpoint loop (length i : nat) (lenses : list (option CodeLens)) (l : Loop) :
    Loop :=
  match lenses with
  | [] => l
  | lens :: lenses => loop length (S i) lenses (turn length i lens l)
  end.

(** [withCommands(lenses, animate)]. *)
Definition withCommands (lenses : list (option CodeLens)) (animate : bool)
    (w : t) : t :=
  let l := loop (length lenses) 0 lenses (mkLoop ∅ EmptyString false) in
  if negb (hasSymbol l) then
    mk (commands l) "<span>no commands</span>" (_isEmpty w) (fadein w)
       (layoutContentWidget w)
  else
    let innerHtml :=
      if decide (innerHtml l = EmptyString) then "&nbsp;" else innerHtml l in
    mk (commands l) innerHtml false
       (if _isEmpty w && animate then true else fadein w)
       (S (layoutContentWidget w)).

(** The constructor, up to the position and the id of the widget. *)
Definition create (lenses : list (option CodeLens)) : t :=
  withCommands lenses false (mk ∅ EmptyString true false 0).

(** [getCommand(link)]. *)
Definition getCommand (link : HTMLLinkElement) (w : t) : option Command :=
  if parentIsDomNode link then _commands w !! link_id link else None.

End Widget.

(** The command [withCommands] keeps for a lens. *)
Definition linked (lens : option (option CodeLens)) : option Command :=
  match lens with
  | Some (Some lens) =>
      match command lens with
      | Some c => if decide (id c = EmptyString) then None else Some c
      | None => None
      end
  | _ => None
  end.

End CodeLensContentWidget.

(** The decorations of the code lens widgets. A widget gives the helper,
    with every decoration it adds, a function that stores the id of the
    decoration in the widget's own array: the widgets are objects of a
    store (a map from their names), and such a function is the widget and the index it writes to.
    An array is a list whose holes are [None]. *)
Module CodeLensWidget.

(** [id => this._decorationIds[i] = id], for the widget [this]. *)
Inductive IDecorationIdCallback := SetDecorationId (this : nat) (i : nat).

(** The widget a callback writes to. *)
Definition this_of (callback : IDecorationIdCallback) : nat :=
  match callback with SetDecorationId this _ => this end.

Section Widgets.

Context {Range CodeLensItem : Type}.

(** [codeLensData.symbol.range]. *)
Variable symbol_range : CodeLensItem -> Range.

Record CodeLensHelper := mkHelper {
  _removeDecorations : list (option string);
  _addDecorations : list Range;
  _addDecorationsCallbacks : list IDecorationIdCallback }.

(** [new CodeLensHelper()]. *)
Definition newHelper : CodeLensHelper := mkHelper [] [] [].

(** [addDecoration(decoration, callback)]; the options of a decoration are
    always [ModelDecorationOptions.EMPTY]. *)
Definition addDecoration (decoration : Range)
    (callback : IDecorationIdCallback) (h : CodeLensHelper) : CodeLensHelper :=
  mkHelper (_removeDecorations h) (_addDecorations h ++ [decoration])
    (_addDecorationsCallbacks h ++ [callback]).

(** [removeDecoration(decorationId)]. *)
Definition removeDecoration (decorationId : option string)
    (h : CodeLensHelper) : CodeLensHelper :=
  mkHelper (_removeDecorations h ++ [decorationId]) (_addDecorations h)
    (_addDecorationsCallbacks h).

Record t := mk {
  _data : list CodeLensItem;
  _decorationIds : list (option string) }.

(** [array[i] = id]: an index past the end makes the array longer. *)
Definition assign (i : nat) (id : string) (array : list (option string)) :
    list (option string) :=
  if decide (i < length array)%nat then <[i := Some id]> array
  else array ++ replicate (i - length array) None ++ [Some id].

(** A call of a callback. *)
Definition call (callback : IDecorationIdCallback) (id : string)
    (store : gmap nat t) : gmap nat t :=
  match callback with
  | SetDecorationId this i =>
      match store !! this with
      | Some w => <[this := mk (_data w) (assign i id (_decorationIds w))]> store
      | None => store
      end
  end.

(** [commit(changeAccessor)], given the ids [deltaDecorations] answers:
    the loop runs over these, and calling a callback that is not there
    throws. *)
Fixpoint commitLoop (callbacks : list IDecorationIdCallback)
    (resultingDecorations : list string) (store : gmap nat t) :
    Completion unit * gmap nat t :=
  match resultingDecorations with
  | [] => (Return tt, store)
  | id :: resultingDecorations =>
      match callbacks with
      | [] => (Throw "TypeError", store)
      | callback :: callbacks =>
          commitLoop callbacks resultingDecorations (call callback id store)
      end
  end.

Definition commit (resultingDecorations : list string) (h : CodeLensHelper)
    (store : gmap nat t) : Completion unit * gmap nat t :=
  commitLoop (_addDecorationsCallbacks h) resultingDecorations store.

(** [while (this._decorationIds.length)
    helper.removeDecoration(this._decorationIds.pop())]. *)
Definition popAll (ids : list (option string)) (h : CodeLensHelper) :
    CodeLensHelper :=
  foldl (fun h id => removeDecoration id h) h (reverse ids).

(** [this._data.forEach((codeLensData, i) => helper.addDecoration(...))]. *)
Definition addAll (this : nat) (data : list CodeLensItem)
    (h : CodeLensHelper) : CodeLensHelper :=
  foldl (fun h '(i, codeLensData) =>
           addDecoration (symbol_range codeLensData) (SetDecorationId this i) h)
    h (imap pair data).

(** The constructor, up to the content widget and the view zone: the new
    widget is a new object of the store. *)
Definition create (data : list CodeLensItem) (helper : CodeLensHelper)
    (store : gmap nat t) : nat * CodeLensHelper * gmap nat t :=
  let this := fresh (dom store) in
  (this, addAll this data helper,
   <[this := mk data (replicate (length data) None)]> store).

(** [updateCodeLensSymbols(data, helper)] of the widget [this]. *)
Definition updateCodeLensSymbols (this : nat) (data : list CodeLensItem)
    (helper : CodeLensHelper) (store : gmap nat t) : CodeLensHelper * gmap nat t :=
  match store !! this with
  | Some w =>
      (addAll this data (popAll (_decorationIds w) helper),
       <[this := mk data (replicate (length data) None)]> store)
  | None => (helper, store)
  end.

(** [dispose(helper, viewZoneChangeAccessor)] of the widget [this], up to
    the view zone and the content widget. *)
Definition dispose (this : nat) (helper : CodeLensHelper) (store : gmap nat t) :
    CodeLensHelper * gmap nat t :=
  match store !! this with
  | Some w => (popAll (_decorationIds w) helper, <[this := mk (_data w) []]> store)
  | None => (helper, store)
  end.

(** The callbacks called one after the other. *)
Definition calls (callbacks : list IDecorationIdCallback)
    (ids : list string) (store : gmap nat t) : gmap nat t :=
  foldl (fun store '(callback, id) => call callback id store) store
    (zip callbacks ids).

End Widgets.

Arguments CodeLensHelper Range : clear implicits.
Arguments t CodeLensItem : clear implicits.

End CodeLensWidget.

(** ** Properties of the provider registry *)

Lemma indexOf_head {A} `{EqDecision A} (x : A) (l : list A) :
  indexOf x (x :: l) = 0%Z.
Proof. cbn. by rewrite decide_True. Qed.

Lemma indexOf_absent {A} `{EqDecision A} (x : A) (l : list A) :
  x ∉ l -> indexOf x l = (-1)%Z.
Proof.
  induction l as [|y l IH]; [done|].
  rewrite not_elem_of_cons. intros [Hne Hnotin]. cbn.
  rewrite decide_False by congruence. rewrite IH by done.
  by rewrite decide_True.
Qed.

Lemma indexOf_second {A} `{EqDecision A} (x y : A) (l : list A) :
  y ≠ x -> indexOf x (y :: x :: l) = 1%Z.
Proof.
  intros Hne. cbn [indexOf]. rewrite decide_False by done.
  rewrite !(decide_True (P := x = x)) by done. by rewrite decide_False.
Qed.

(** Disposing a registration right away: the array of the scheme, or the
    absence of one, is back. *)
Lemma dispose_register (scheme : string) (provider : ITextModelContentProvider)
    (registry : Registry.t) :
  let registered :=
    Registry.registerTextModelContentProvider scheme provider registry in
  Registry.dispose registered.2 registered.1
  = match Registry.lookup registry scheme with
    | [] => delete scheme registry
    | array => <[scheme := array]> registry
    end.
Proof.
  unfold Registry.registerTextModelContentProvider, Registry.dispose,
    Registry.lookup. cbn.
  rewrite lookup_insert_eq, indexOf_head. cbn.
  destruct (default [] (registry !! scheme)) as [|q array]; cbn.
  - by rewrite delete_insert_eq.
  - by rewrite insert_insert_eq.
Qed.

(** C6, as the code has it. Registering a provider for a scheme and
    disposing the registration leaves every scheme with the providers it
    had, in the order they had; the scheme has no entry afterwards when it
    had no provider before. A provider registered in between stays, in
    front of the earlier ones. Disposing the registration again changes
    nothing, provided the provider had no earlier registration for the
    scheme. *)
Theorem registration_dispose (scheme : string)
    (provider : ITextModelContentProvider) (registry : Registry.t) :
  let registered :=
    Registry.registerTextModelContentProvider scheme provider registry in
  let disposed := Registry.dispose registered.2 registered.1 in
  (∀ scheme', Registry.lookup disposed scheme' = Registry.lookup registry scheme')
  ∧ (Registry.lookup registry scheme = [] -> disposed !! scheme = None)
  ∧ (∀ other, other ≠ provider ->
       Registry.lookup
         (Registry.dispose registered.2
            (Registry.registerTextModelContentProvider scheme other
               registered.1).1) scheme
       = other :: Registry.lookup registry scheme)
  ∧ (provider ∉ Registry.lookup registry scheme ->
     Registry.dispose registered.2 disposed = disposed).
Proof.
  intros registered disposed.
  assert (Hdisposed : disposed
    = match Registry.lookup registry scheme with
      | [] => delete scheme registry
      | array => <[scheme := array]> registry
      end) by apply dispose_register.
  repeat split.
  - intros scheme'. rewrite Hdisposed. unfold Registry.lookup.
    destruct (decide (scheme' = scheme)) as [->|Hne].
    + destruct (default [] (registry !! scheme)) as [|q array] eqn:Hold.
      * by rewrite lookup_delete_eq.
      * by rewrite lookup_insert_eq.
    + destruct (default [] (registry !! scheme)) as [|q array].
      * by rewrite lookup_delete_ne.
      * by rewrite lookup_insert_ne.
  - intros Hempty. rewrite Hdisposed, Hempty. apply lookup_delete_eq.
  - intros other Hne. subst registered.
    unfold Registry.registerTextModelContentProvider, Registry.dispose,
      Registry.lookup.
    cbn [fst snd Registry.reg_scheme Registry.reg_provider].
    generalize (default [] (registry !! scheme)). intros old.
    rewrite !lookup_insert_eq.
    change (default [] (Some (provider :: old))) with (provider :: old).
    rewrite indexOf_second by done. rewrite decide_False by done.
    change (splice (Z.to_nat 1) 1 (other :: provider :: old))
      with (other :: old).
    rewrite decide_False by done. by rewrite lookup_insert_eq.
  - intros Hfresh. rewrite Hdisposed. subst registered. cbn [snd].
    unfold Registry.dispose, Registry.lookup in *. cbn [Registry.reg_scheme
      Registry.reg_provider].
    destruct (default [] (registry !! scheme)) as [|q array] eqn:Hold.
    + by rewrite lookup_delete_eq.
    + rewrite lookup_insert_eq. by rewrite indexOf_absent.
Qed.

(** ** Properties of the model change event emitter *)

Lemma invariant_initial (R0 : gset IModel) :
  ModelChangeEventEmitter.invariant (ModelChangeEventEmitter.initial R0).
Proof.
  unfold ModelChangeEventEmitter.invariant. cbn.
  split; [done|]. split; [done|]. split; [done|]. split; [|split].
  - intros m. rewrite lookup_empty. split.
    + by intros [? ?].
    + by intros [? ?].
  - intros subscription m. by rewrite !lookup_empty.
  - intros subscription. rewrite lookup_empty. by intros [? ?].
Qed.

Lemma invariant_added (m : IModel) (s : ModelChangeEventEmitter.System) :
  ModelChangeEventEmitter.invariant s ->
  m ∉ ModelChangeEventEmitter.registry s ->
  ModelChangeEventEmitter.invariant (ModelChangeEventEmitter.added m s).
Proof.
  destruct s as [registry unheard e].
  unfold ModelChangeEventEmitter.invariant, ModelChangeEventEmitter.added,
    ModelChangeEventEmitter.onModelAdded. cbn.
  intros (Hsub & Hlive & Hincl & Hdom & Hbij & Hfresh) Hnew.
  rewrite Hsub. cbn. split; [done|]. split; [done|].
  assert (Hunrecorded : ModelChangeEventEmitter._modelListener e !! m = None).
  { destruct (ModelChangeEventEmitter._modelListener e !! m) eqn:Hm; [|done].
    exfalso. apply Hnew. by apply Hdom. }
  assert (Hnext : ModelChangeEventEmitter.attached e
                    !! ModelChangeEventEmitter.next e = None).
  { destruct (ModelChangeEventEmitter.attached e
                !! ModelChangeEventEmitter.next e) eqn:Hn; [|done].
    assert (ModelChangeEventEmitter.next e < ModelChangeEventEmitter.next e)
      by (apply Hfresh; eauto). lia. }
  split; [intros x Hx; apply elem_of_union_r; by apply Hincl|].
  split; [|split].
  - intros m'. destruct (decide (m' = m)) as [->|Hne].
    + rewrite lookup_insert_eq. split; [|by eauto].
      intros _. split; [by apply elem_of_union_l, elem_of_singleton|].
      intros Hin. apply Hnew. by apply Hincl.
    + rewrite lookup_insert_ne by done.
      rewrite Hdom, elem_of_union, elem_of_singleton. tauto.
  - intros subscription m'.
    destruct (decide (subscription = ModelChangeEventEmitter.next e))
      as [->|Hsne].
    + rewrite lookup_insert_eq.
      destruct (decide (m' = m)) as [->|Hne].
      * by rewrite lookup_insert_eq.
      * rewrite lookup_insert_ne by done. split; [congruence|].
        intros Hrec. apply Hbij in Hrec. congruence.
    + rewrite lookup_insert_ne by done.
      destruct (decide (m' = m)) as [->|Hne].
      * rewrite lookup_insert_eq. split; [|congruence].
        intros Hatt. apply Hbij in Hatt. congruence.
      * rewrite lookup_insert_ne by done. apply Hbij.
  - intros subscription.
    destruct (decide (subscription = ModelChangeEventEmitter.next e))
      as [->|Hsne]; [lia|].
    rewrite lookup_insert_ne by done. intros Hsome.
    apply Hfresh in Hsome. lia.
Qed.

Lemma invariant_removed (m : IModel) (s : ModelChangeEventEmitter.System) :
  ModelChangeEventEmitter.invariant s ->
  m ∈ ModelChangeEventEmitter.registry s ->
  ModelChangeEventEmitter.invariant (ModelChangeEventEmitter.removed m s).
Proof.
  destruct s as [registry unheard e].
  unfold ModelChangeEventEmitter.invariant, ModelChangeEventEmitter.removed,
    ModelChangeEventEmitter.onModelRemoved. cbn.
  intros (Hsub & Hlive & Hincl & Hdom & Hbij & Hfresh) Hold.
  rewrite Hsub. cbn. split; [done|]. split; [done|].
  split.
  { intros x. rewrite !elem_of_difference. intros [Hx ?].
    split; [by apply Hincl|done]. }
  split; [|split].
  - intros m'. destruct (decide (m' = m)) as [->|Hne].
    + rewrite lookup_delete_eq, elem_of_difference, elem_of_singleton.
      split; [by intros [? ?]|tauto].
    + rewrite lookup_delete_ne by done.
      rewrite Hdom, !elem_of_difference, elem_of_singleton. tauto.
  - intros subscription m'.
    destruct (ModelChangeEventEmitter._modelListener e !! m)
      as [recorded|] eqn:Hm.
    + rewrite lookup_delete_Some, lookup_delete_Some, Hbij. split.
      * intros [Hsne Hrec]. split; [|done]. intros ->. congruence.
      * intros [Hne Hrec]. split; [|done]. intros ->.
        apply Hbij in Hrec, Hm. congruence.
    + rewrite lookup_delete_Some, Hbij. split.
      * intros Hrec. split; [|done]. intros ->. congruence.
      * by intros [_ Hrec].
  - intros subscription Hsome. apply Hfresh.
    destruct (ModelChangeEventEmitter._modelListener e !! m); [|done].
    destruct Hsome as [m' Hsome]. apply lookup_delete_Some in Hsome as [_ ?].
    by eauto.
Qed.

Lemma invariant_step (s s' : ModelChangeEventEmitter.System) :
  ModelChangeEventEmitter.invariant s ->
  ModelChangeEventEmitter.step s s' ->
  ModelChangeEventEmitter.invariant s'.
Proof.
  intros Hinv Hstep. inversion Hstep; subst.
  - by apply invariant_added.
  - by apply invariant_removed.
Qed.

Lemma invariant_reachable (R0 : gset IModel) (s : ModelChangeEventEmitter.System) :
  ModelChangeEventEmitter.reachable R0 s -> ModelChangeEventEmitter.invariant s.
Proof.
  unfold ModelChangeEventEmitter.reachable. intros Hreach.
  eapply (rtc_ind_r (fun s => ModelChangeEventEmitter.invariant s));
    [apply invariant_initial| |exact Hreach].
  intros s1 s2 _ Hstep Hinv. by eapply invariant_step.
Qed.

(** Models that were there at the construction stay unheard until they
    are removed, and no other model is unheard. *)
Lemma unheard_reachable (R0 : gset IModel) (s : ModelChangeEventEmitter.System) :
  ModelChangeEventEmitter.reachable R0 s ->
  ModelChangeEventEmitter.unheard s ⊆ R0.
Proof.
  unfold ModelChangeEventEmitter.reachable. intros Hreach.
  eapply (rtc_ind_r (fun s => ModelChangeEventEmitter.unheard s ⊆ R0)
            (ModelChangeEventEmitter.initial R0));
    [reflexivity| |exact Hreach].
  intros s1 s2 _ Hstep Hincl. inversion Hstep; subst; cbn; [done|].
  intros x Hx. apply Hincl. by apply elem_of_difference in Hx as [? _].
Qed.

Lemma list_singleton_unique {A} (a : A) (l : list A) :
  NoDup l -> (∀ x, x ∈ l ↔ x = a) -> l = [a].
Proof.
  intros Hnodup Hall. destruct l as [|x l].
  - exfalso. eapply not_elem_of_nil. by apply (Hall a).
  - assert (x = a) as -> by (apply Hall; left).
    apply NoDup_cons in Hnodup as [Hnotin _].
    destruct l as [|y l]; [done|]. exfalso. apply Hnotin.
    assert (y = a) as -> by (apply Hall; right; left). left.
Qed.

(** With the attached listeners being the recorded ones, a model has the
    listener recorded for it and no other. *)
Lemma listenersOf_recorded (e : ModelChangeEventEmitter.t) (m : IModel)
    (subscription : nat) :
  (∀ sub m', ModelChangeEventEmitter.attached e !! sub = Some m'
             ↔ ModelChangeEventEmitter._modelListener e !! m' = Some sub) ->
  ModelChangeEventEmitter._modelListener e !! m = Some subscription ->
  ModelChangeEventEmitter.listenersOf m e = [subscription].
Proof.
  intros Hbij Hrec. unfold ModelChangeEventEmitter.listenersOf.
  rewrite (list_singleton_unique (subscription, m)
             (filter (fun p => p.2 = m)
                (map_to_list (ModelChangeEventEmitter.attached e)))); [done| |].
  - apply NoDup_filter, NoDup_map_to_list.
  - intros [sub m']. rewrite list_elem_of_filter, elem_of_map_to_list. cbn.
    split.
    + intros [-> Hatt]. apply Hbij in Hatt. congruence.
    + intros [= -> ->]. split; [done|]. by apply Hbij.
Qed.

Lemma listenersOf_unrecorded (e : ModelChangeEventEmitter.t) (m : IModel) :
  (∀ sub m', ModelChangeEventEmitter.attached e !! sub = Some m'
             ↔ ModelChangeEventEmitter._modelListener e !! m' = Some sub) ->
  ModelChangeEventEmitter._modelListener e !! m = None ->
  ModelChangeEventEmitter.listenersOf m e = [].
Proof.
  intros Hbij Hnone. unfold ModelChangeEventEmitter.listenersOf.
  rewrite (elem_of_nil_inv (filter (fun p => p.2 = m)
             (map_to_list (ModelChangeEventEmitter.attached e)))); [done|].
  intros [sub m']. rewrite list_elem_of_filter, elem_of_map_to_list. cbn.
  intros [-> Hatt]. apply Hbij in Hatt. congruence.
Qed.

(** Disposing the emitter disposes every recorded listener: when the
    attached listeners are recorded ones, none stays attached. *)
Lemma dispose_detaches (e : ModelChangeEventEmitter.t) :
  (∀ sub m, ModelChangeEventEmitter.attached e !! sub = Some m ->
            ModelChangeEventEmitter._modelListener e !! m = Some sub) ->
  ModelChangeEventEmitter.attached (ModelChangeEventEmitter.dispose e) = ∅.
Proof.
  intros Hrec. apply map_empty. intros sub. cbn.
  destruct (foldr delete (ModelChangeEventEmitter.attached e)
              (map_to_list (ModelChangeEventEmitter._modelListener e)).*2
            !! sub) as [m|] eqn:Hsub; [|done].
  exfalso. apply lookup_foldr_delete_Some in Hsub as [Hnotin Hatt].
  apply Hnotin. apply list_elem_of_fmap. exists (m, sub). split; [done|].
  apply elem_of_map_to_list. by apply Hrec.
Qed.

(** C9, as the code has it. Take an emitter constructed on a model service
    that holds the models [R0], and let the model service add models it does
    not hold and remove models it holds, notifying the emitter each time.
    In every state so reached: a model has exactly one content-change
    listener when it is in the registry and was added since the
    construction, and none otherwise, so that with [R0] empty there is
    exactly one listener per model in the registry; a model that is not in
    the registry has no recorded listener; every attached listener is the
    one recorded for its model; removing a model leaves it without listener,
    attached or recorded; and disposing the emitter leaves no listener attached, makes content changes
    deliver nothing, and makes the emitter deaf to further notifications. *)
Theorem one_listener_per_announced_model (R0 : gset IModel)
    (s : ModelChangeEventEmitter.System) :
  ModelChangeEventEmitter.reachable R0 s ->
  let e := ModelChangeEventEmitter.emitter s in
  (∀ m, length (ModelChangeEventEmitter.listenersOf m e)
        = if decide (m ∈ ModelChangeEventEmitter.registry s ∧
                     m ∉ ModelChangeEventEmitter.unheard s)
          then 1 else 0)
  ∧ (R0 = ∅ ->
     ∀ m, length (ModelChangeEventEmitter.listenersOf m e)
          = if decide (m ∈ ModelChangeEventEmitter.registry s) then 1 else 0)
  ∧ (∀ m, m ∉ ModelChangeEventEmitter.registry s ->
          ModelChangeEventEmitter._modelListener e !! m = None)
  ∧ (∀ sub m, ModelChangeEventEmitter.attached e !! sub = Some m ->
              ModelChangeEventEmitter._modelListener e !! m = Some sub ∧
              m ∈ ModelChangeEventEmitter.registry s)
  ∧ (∀ m, m ∈ ModelChangeEventEmitter.registry s ->
          let e' :=
            ModelChangeEventEmitter.emitter
              (ModelChangeEventEmitter.removed m s) in
          ModelChangeEventEmitter.listenersOf m e' = [] ∧
          ModelChangeEventEmitter._modelListener e' !! m = None)
  ∧ ModelChangeEventEmitter.attached (ModelChangeEventEmitter.dispose e) = ∅
  ∧ (∀ m, ModelChangeEventEmitter.contentChanged m
            (ModelChangeEventEmitter.dispose e) = [])
  ∧ (∀ m, ModelChangeEventEmitter.onModelAdded m
            (ModelChangeEventEmitter.dispose e)
          = ModelChangeEventEmitter.dispose e).
Proof.
  intros Hreach e.
  pose proof (unheard_reachable R0 s Hreach) as Hunheard.
  destruct (invariant_reachable R0 s Hreach)
    as (Hsub & Hlive & Hincl & Hdom & Hbij & Hfresh). fold e in Hdom, Hbij.
  assert (Hcount : ∀ m,
    length (ModelChangeEventEmitter.listenersOf m e)
    = if decide (m ∈ ModelChangeEventEmitter.registry s ∧
                 m ∉ ModelChangeEventEmitter.unheard s) then 1 else 0).
  { intros m.
    destruct (ModelChangeEventEmitter._modelListener e !! m) as [sub|] eqn:Hm.
    - rewrite (listenersOf_recorded e m sub) by done.
      rewrite decide_True; [done|]. apply Hdom. by eauto.
    - rewrite listenersOf_unrecorded by done.
      rewrite decide_False; [done|]. intros Hin. apply Hdom in Hin.
      destruct Hin as [? Hin]. congruence. }
  split; [exact Hcount|]. split; [|split; [|split; [|split; [|split; [|split]]]]].
  - intros -> m. rewrite Hcount.
    assert (Hnone : m ∉ ModelChangeEventEmitter.unheard s).
    { intros Hin. apply Hunheard in Hin. by apply not_elem_of_empty in Hin. }
    destruct (decide (m ∈ ModelChangeEventEmitter.registry s)) as [Hin|Hout].
    + by rewrite decide_True.
    + rewrite decide_False; [done|]. by intros [? _].
  - intros m Hout.
    destruct (ModelChangeEventEmitter._modelListener e !! m) as [sub|] eqn:Hm;
      [|done].
    exfalso. apply Hout. apply Hdom. by eauto.
  - intros sub m Hatt. apply Hbij in Hatt. split; [done|].
    apply Hdom. by eauto.
  - intros m Hin e'.
    assert (Hinv : ModelChangeEventEmitter.invariant s)
      by done.
    destruct (invariant_removed m s Hinv Hin)
      as (_ & _ & _ & Hdom' & Hbij' & _). fold e' in Hdom', Hbij'.
    assert (Hnone : ModelChangeEventEmitter._modelListener e' !! m = None).
    { destruct (ModelChangeEventEmitter._modelListener e' !! m) as [sub|] eqn:Hm;
        [|done].
      exfalso. assert (Hsome : is_Some (ModelChangeEventEmitter._modelListener e' !! m))
        by (rewrite Hm; eauto).
      apply Hdom' in Hsome as [Hreg _]. cbn in Hreg.
      apply elem_of_difference in Hreg as [_ Hreg]. apply Hreg.
      by apply elem_of_singleton. }
    split; [|done]. by apply listenersOf_unrecorded.
  - apply dispose_detaches. intros sub m. apply Hbij.
  - done.
  - done.
Qed.

(** ** Properties of the service *)

Section Properties.

Context {World : Type} `{!Collaborators World}.

Implicit Types st : State World.

Lemma same_service_refl st : same_service st st.
Proof. by repeat split. Qed.

Lemma same_service_trans st st1 st2 :
  same_service st st1 -> same_service st1 st2 -> same_service st st2.
Proof.
  intros (?&?&?&?&?&?) (?&?&?&?&?&?). repeat split; congruence.
Qed.

Lemma same_service_record a st : same_service st (record a st).
Proof. by repeat split. Qed.

Lemma same_service_set_world w st : same_service st (set_world w st).
Proof. by repeat split. Qed.

Lemma factory_spec p resource st :
  ∃ content w,
    provideTextContent p resource (world st) = (content, w) ∧
    factory p resource st =
      (content, record (ProvideTextContent p resource content) (set_world w st)).
Proof.
  unfold factory. destruct (provideTextContent p resource (world st)) as [content w].
  by exists content, w.
Qed.

(** [first] over the factories of a list of providers: the providers are
    called in the order of the list, each on the world the one before it
    left; each call but the last is fulfilled with nothing, and the calls
    stop with the first promise that is fulfilled with content or
    rejected. *)
Lemma first_factories resource ps : ∀ st,
  let run := first ((fun p => factory p resource) <$> ps) st in
  ∃ tried w1,
    answeredNothing resource tried (world st) w1 ∧
    same_service st run.2 ∧
    match run.1 with
    | TPromise_as None =>
        ps = tried ∧ world run.2 = w1 ∧
        log run.2 = log st ++ unanswered resource tried
    | answer =>
        ∃ p rest w2,
          ps = tried ++ p :: rest ∧
          provideTextContent p resource w1 = (answer, w2) ∧
          world run.2 = w2 ∧
          log run.2 = log st ++ unanswered resource tried
                             ++ [ProvideTextContent p resource answer]
    end.
Proof.
  induction ps as [|p ps IH]; intros st run; subst run.
  - exists [], (world st). cbn. split; [constructor|].
    split; [apply same_service_refl|]. by rewrite app_nil_r.
  - destruct (factory_spec p resource st) as (content & w & Hcall & Hf).
    rewrite fmap_cons. cbn [first]. rewrite Hf.
    destruct content as [[model|]|err].
    + exists [], (world st). cbn [fst snd]. split; [constructor|].
      split; [by repeat split|]. by exists p, ps, w.
    + set (st1 := record _ _).
      destruct (IH st1) as (tried & w1 & Hnothing & Hs & Hres).
      cbn zeta in Hres.
      exists (p :: tried), w1. split.
      { econstructor; [exact Hcall|exact Hnothing]. }
      split.
      { eapply same_service_trans; [|exact Hs]. by repeat split. }
      destruct (first _ st1).1 as [[model|]|err].
      * destruct Hres as (q & rest & w2 & -> & Hq & Hw & Hlog).
        exists q, rest, w2. split; [done|]. split; [done|]. split; [done|].
        rewrite Hlog. subst st1. cbn. by rewrite <- !app_assoc.
      * destruct Hres as (-> & Hw & Hlog). split; [done|]. split; [done|].
        rewrite Hlog. subst st1. cbn. by rewrite <- !app_assoc.
      * destruct Hres as (q & rest & w2 & -> & Hq & Hw & Hlog).
        exists q, rest, w2. split; [done|]. split; [done|]. split; [done|].
        rewrite Hlog. subst st1. cbn. by rewrite <- !app_assoc.
    + exists [], (world st). cbn [fst snd]. split; [constructor|].
      split; [by repeat split|]. by exists p, ps, w.
Qed.

(** C1. Registering a provider for a scheme puts it in front of the
    providers already registered for that scheme. Resolving a key whose
    scheme is [S] calls [provideTextContent] of the providers registered for
    [S] one after the other in that order, most recently registered first,
    each on the world the call before it left: every call before the last
    was fulfilled with nothing, and either the last one called was fulfilled
    with content, which is the result, and no later provider is called; or
    every provider registered for [S] (possibly none) was called and
    fulfilled with nothing, and the resolution fails with
    ['resource is not available']. A provider whose promise is rejected
    ends the calls as well, and the resolution fails with its error. The
    world is as the last call left it, and the registries of the service
    are as they were. *)
Theorem resolveTextModelContent_first_match (key : string) (st : State World) :
  let resource := URI_parse key in
  let registered := Registry.lookup (providers st) (scheme resource) in
  let result := resolveTextModelContent key st in
  (∀ provider,
     Registry.lookup
       (providers
          (registerTextModelContentProvider (scheme resource) provider st).2)
       (scheme resource)
     = provider :: registered)
  ∧ same_service st result.2
  ∧ ∃ tried w1,
      answeredNothing resource tried (world st) w1 ∧
      ((∃ p rest model w2,
          registered = tried ++ p :: rest ∧
          provideTextContent p resource w1 = (TPromise_as (Some model), w2) ∧
          result.1 = TPromise_as model ∧
          world result.2 = w2 ∧
          log result.2
            = log st ++ unanswered resource tried
                     ++ [ProvideTextContent p resource
                           (TPromise_as (Some model))])
       ∨ (registered = tried ∧
          result.1 = TPromise_wrapError "resource is not available" ∧
          world result.2 = w1 ∧
          log result.2
            = log st ++ unanswered resource tried
                     ++ [ConsoleError ("Unable to open '" +:+ URI_toString resource
                                       +:+ "' resource is not available.")])
       ∨ (∃ p rest err w2,
            registered = tried ++ p :: rest ∧
            provideTextContent p resource w1 = (TPromise_wrapError err, w2) ∧
            result.1 = TPromise_wrapError err ∧
            world result.2 = w2 ∧
            log result.2
              = log st ++ unanswered resource tried
                       ++ [ProvideTextContent p resource
                             (TPromise_wrapError err)])).
Proof.
  intros resource registered result. split.
  { intros provider. unfold registerTextModelContentProvider,
      Registry.registerTextModelContentProvider, Registry.lookup. cbn.
    by rewrite lookup_insert_eq. }
  subst result. unfold resolveTextModelContent.
  fold resource. change (default [] (providers st !! scheme resource))
    with registered.
  destruct (first_factories resource registered st)
    as (tried & w1 & Hnothing & Hs & Hres).
  cbn zeta in Hres.
  destruct (first _ st) as [[[model|]|err] st1]; cbn [fst snd] in *.
  - split; [done|]. exists tried, w1. split; [done|].
    destruct Hres as (p & rest & w2 & Hreg & Hp & Hw & Hlog).
    left. by exists p, rest, model, w2.
  - destruct Hres as (Hreg & Hw & Hlog).
    split; [eapply same_service_trans; [exact Hs|apply same_service_record]|].
    exists tried, w1. split; [done|]. right. left.
    split; [done|]. split; [done|]. split; [done|]. cbn. rewrite Hlog.
    by rewrite <- app_assoc.
  - split; [done|]. exists tried, w1. split; [done|].
    destruct Hres as (p & rest & w2 & Hreg & Hp & Hw & Hlog).
    right. right. by exists p, rest, err, w2.
Qed.

(** *** Savers *)

(** C2. When a saver is registered for a scheme, registering a second one
    for that scheme throws, and leaves the service as it was: the saver
    registered first is still the one registered for the scheme. *)
Theorem registerTextModelSaver_duplicate (scheme : string)
    (saver1 saver2 : ITextModelSaver) st :
  _modelSaver st !! scheme = Some saver1 ->
  registerTextModelSaver scheme saver2 st
    = (Throw ("there can only be one saver for the scheme '" +:+ scheme +:+ "'"),
       st)
  ∧ _modelSaver (registerTextModelSaver scheme saver2 st).2 !! scheme
    = Some saver1.
Proof.
  intros Hreg. unfold registerTextModelSaver.
  destruct (decide (is_Some (_modelSaver st !! scheme))) as [_|Hno].
  - by split.
  - exfalso. apply Hno. by exists saver1.
Qed.

Lemma registerTextModelSaver_fresh (scheme : string) (saver : ITextModelSaver) st :
  _modelSaver st !! scheme = None ->
  registerTextModelSaver scheme saver st
    = (Return {| saver_scheme := scheme |},
       set_modelSaver (<[scheme := saver]> (_modelSaver st)) st).
Proof.
  intros Hnone. unfold registerTextModelSaver.
  destruct (decide (is_Some (_modelSaver st !! scheme))) as [[? Hsome]|_];
    [congruence|done].
Qed.

(** C10. Disposing the registration of a saver deletes whatever saver the
    scheme has at that time. In particular: register [A] for a scheme,
    dispose the registration, register [B] for the scheme; disposing the
    registration of [A] once more deletes the registration of [B]. *)
Theorem saver_registration_disposes_by_scheme (scheme : string)
    (A B : ITextModelSaver) st :
  _modelSaver st !! scheme = None ->
  (∀ h st', _modelSaver (disposeSaverRegistration h st') !! saver_scheme h = None)
  ∧ ∃ hA hB,
      let st1 := (registerTextModelSaver scheme A st).2 in
      let st2 := disposeSaverRegistration hA st1 in
      let st3 := (registerTextModelSaver scheme B st2).2 in
      (registerTextModelSaver scheme A st).1 = Return hA ∧
      (registerTextModelSaver scheme B st2).1 = Return hB ∧
      _modelSaver st3 !! scheme = Some B ∧
      _modelSaver (disposeSaverRegistration hA st3) !! scheme = None.
Proof.
  intros Hnone. split.
  { intros h st'. cbn. apply lookup_delete_eq. }
  exists {| saver_scheme := scheme |}, {| saver_scheme := scheme |}.
  rewrite (registerTextModelSaver_fresh _ A) by done. cbn [fst snd].
  rewrite (registerTextModelSaver_fresh _ B) by (cbn; apply lookup_delete_eq).
  cbn. rewrite lookup_insert_eq. repeat split. apply lookup_delete_eq.
Qed.

(** C3, as the code has it. With a model for the resource and a saver
    for its scheme, [save] fires [saving] and calls the saver. When the
    saver's promise is fulfilled, [save] fires [saved] and is fulfilled:
    the call fired [saving] then [saved] and no other state event. When the
    saver's promise is rejected, [save] is rejected with the same error and
    fires nothing after [saving]; when the saver throws instead of returning
    a promise, [save] throws the same and has fired nothing after [saving]
    either. The registries are as they were. *)
Theorem save_saving_then_saved (resource : URI)
    (options : option ITextModelSaveOptions) st (model : IModel)
    (saver : ITextModelSaver) :
  getModel resource (world st) = Some model ->
  _modelSaver st !! scheme resource = Some saver ->
  let outcome := saveTextContent saver resource model options (world st) in
  let started :=
    [FireState {| type := saving; resource := resource |};
     SaveTextContent saver resource model options] in
  same_service st (save resource options st).2
  ∧ world (save resource options st).2 = outcome.2
  ∧ match outcome.1 with
    | Return (TPromise_as _) =>
        (save resource options st).1 = Return (TPromise_as tt) ∧
        log (save resource options st).2
          = log st ++ started
                   ++ [FireState {| type := saved; resource := resource |}]
    | Return (TPromise_wrapError err) =>
        (save resource options st).1 = Return (TPromise_wrapError err) ∧
        log (save resource options st).2 = log st ++ started
    | Throw message =>
        (save resource options st).1 = Throw message ∧
        log (save resource options st).2 = log st ++ started
    end.
Proof.
  intros Hmodel Hsaver outcome started. subst outcome started.
  unfold save. rewrite Hmodel, Hsaver. cbn [world record set_log].
  destruct (saveTextContent saver resource model options (world st))
    as [[[[]|err]|message] w]; cbn.
  - repeat split. by rewrite <- !app_assoc.
  - repeat split. by rewrite <- !app_assoc.
  - repeat split. by rewrite <- !app_assoc.
Qed.

(** C4, as the code has it. Without a model for the resource, [save] is
    rejected with ['MISSING_MODEL']; with a model and without a saver for
    the scheme of the resource, it is rejected with ['MISSING_SAVER']. In
    both cases the service, the world and the log are as they were. *)
Theorem save_missing (resource : URI) (options : option ITextModelSaveOptions)
    st :
  (getModel resource (world st) = None ->
   save resource options st
   = (Return (TPromise_wrapError "MISSING_MODEL"), st))
  ∧ (∀ model,
       getModel resource (world st) = Some model ->
       _modelSaver st !! scheme resource = None ->
       save resource options st
       = (Return (TPromise_wrapError "MISSING_SAVER"), st)).
Proof.
  unfold save. split.
  - by intros ->.
  - by intros model -> ->.
Qed.

(** *** References *)

(** C8. For a resource of scheme [inmemory], [createModelReference] is
    rejected with ['Cant resolve inmemory resource'] when the model service
    has no model for the resource; when it has one, it is fulfilled with a
    reference whose disposal does nothing. The service is as it was. *)
Theorem createModelReference_inmemory (resource : URI) st :
  scheme resource = "inmemory" ->
  match getModel resource (world st) with
  | None =>
      createModelReference resource st
        = (TPromise_wrapError "Cant resolve inmemory resource", st)
  | Some _ =>
      ∃ reference,
        createModelReference resource st = (TPromise_as reference, st) ∧
        ∀ st', disposeReference reference st' = st'
  end.
Proof.
  intros Hscheme. unfold createModelReference. rewrite Hscheme.
  destruct (decide ("inmemory" = UNTITLED_SCHEMA)) as [Heq|_];
    [discriminate Heq|].
  destruct (decide ("inmemory" = "inmemory")) as [_|Hne]; [|done].
  destruct (getModel resource (world st)) as [cachedModel|]; [|done].
  by exists (ImmortalReference (ResourceEditorModel resource)).
Qed.


Lemma resolveTextModelContent_same_service (key : string) st :
  same_service st (resolveTextModelContent key st).2.
Proof.
  unfold resolveTextModelContent.
  destruct (first_factories (URI_parse key)
              (default [] (providers st !! scheme (URI_parse key))) st)
    as (tried & w1 & _ & Hs & _).
  destruct (first _ st) as [[[model|]|err] st1]; cbn [fst snd] in *;
    [done| |done].
  eapply same_service_trans; [exact Hs|apply same_service_record].
Qed.

Lemma createReferencedObject_same_service (key : string) st :
  same_service st (createReferencedObject key st).2.
Proof.
  unfold createReferencedObject.
  destruct (decide (scheme (URI_parse key) = Schemas_file)) as [_|_].
  - destruct (textFile_loadOrCreate _ _) as [model w]. by repeat split.
  - pose proof (resolveTextModelContent_same_service key st) as Hs.
    by destruct (resolveTextModelContent key st) as [[model|err] st1].
Qed.

Lemma destroyReferencedObject_same_service
    (modelPromise : TPromise ITextEditorModel) st :
  same_service st (destroyReferencedObject modelPromise st).
Proof.
  destruct modelPromise as [[]|]; cbn; by repeat split.
Qed.

(** [acquire] builds the object when the key has no entry, and leaves an
    entry whose count is one more than the key had. *)
Lemma acquire_spec (key : string) st :
  ∃ reference st1,
    same_service st st1 ∧
    match references st !! key with
    | Some r => reference = r ∧ st1 = st
    | None =>
        reference = {| object := (createReferencedObject key st).1; counter := 0 |} ∧
        st1 = (createReferencedObject key st).2
    end ∧
    acquire key st =
      ({| ref_object := object reference; ref_key := key;
          ref_id := nextReference st |},
       set_nextReference (S (nextReference st))
         (set_live ({[nextReference st]} ∪ live st)
            (set_references
               (<[key := {| object := object reference;
                            counter := counter reference + 1 |}]> (references st))
               st1))).
Proof.
  unfold acquire. destruct (references st !! key) as [r|] eqn:Hkey.
  - exists r, st. split; [apply same_service_refl|]. by split.
  - pose proof (createReferencedObject_same_service key st) as Hs.
    destruct (createReferencedObject key st) as [obj st1]. cbn [fst snd] in *.
    exists {| object := obj; counter := 0 |}, st1.
    split; [done|]. split; [done|].
    destruct Hs as (_ & -> & -> & -> & _). done.
Qed.

Lemma refcount_acquire (key : string) st :
  refcount key (acquire key st).2 = (refcount key st + 1)%Z.
Proof.
  destruct (acquire_spec key st) as (reference & st1 & _ & Href & ->).
  unfold refcount. cbn. rewrite lookup_insert_eq. cbn.
  destruct (references st !! key) as [r|]; destruct Href as [-> _]; done.
Qed.

(** Releasing a live handle takes one off the count of its key, whatever
    happened since it was acquired, and leaves the other keys alone. *)
Lemma refcount_release (h : Handle) st (r : ReferenceEntry) :
  ref_id h ∈ live st ->
  references st !! ref_key h = Some r ->
  ∀ key', refcount key' (release h st)
          = if decide (key' = ref_key h) then (counter r - 1)%Z
            else refcount key' st.
Proof.
  intros Hlive Hentry key'. unfold release.
  rewrite decide_True by done. cbn [references set_live]. rewrite Hentry.
  destruct (decide (counter r - 1 = 0)%Z) as [Hzero|Hpos].
  - match goal with |- refcount _ (destroyReferencedObject ?o ?s) = _ =>
      destruct (destroyReferencedObject_same_service o s) as (_ & Hrefs & _)
    end.
    unfold refcount at 1. rewrite Hrefs. cbn.
    destruct (decide (key' = ref_key h)) as [->|Hne].
    + rewrite lookup_delete_eq. lia.
    + by rewrite lookup_delete_ne.
  - unfold refcount. cbn.
    destruct (decide (key' = ref_key h)) as [->|Hne].
    + by rewrite lookup_insert_eq.
    + by rewrite lookup_insert_ne.
Qed.

(** A handle releases once. *)
Lemma release_again (h : Handle) st : release h (release h st) = release h st.
Proof.
  assert (Hgone : ref_id h ∉ live (release h st)).
  { unfold release. destruct (decide (ref_id h ∈ live st)) as [Hin|Hout];
      [|done].
    cbn [references set_live].
    destruct (references st !! ref_key h) as [r|].
    - destruct (decide (counter r - 1 = 0)%Z).
      + match goal with |- _ ∉ live (destroyReferencedObject ?o ?s) =>
          destruct (destroyReferencedObject_same_service o s)
            as (_ & _ & -> & _)
        end.
        cbn. rewrite elem_of_difference, elem_of_singleton. tauto.
      + cbn. rewrite elem_of_difference, elem_of_singleton. tauto.
    - cbn. rewrite elem_of_difference, elem_of_singleton. tauto. }
  unfold release at 1. by rewrite decide_False.
Qed.

(** Releasing the handle just acquired gives every key the count it had
    before the acquisition. *)
Lemma refcount_release_acquire (key : string) st :
  ∀ key', refcount key' (release (acquire key st).1 (acquire key st).2)
          = refcount key' st.
Proof.
  intros key'.
  destruct (acquire_spec key st) as (reference & st1 & _ & Href & ->).
  cbn [fst snd]. unfold release. cbn [ref_id ref_key live set_nextReference
    set_live set_references references].
  destruct (decide (nextReference st ∈ {[nextReference st]} ∪ live st))
    as [_|Hnot]; [|set_solver].
  rewrite lookup_insert_eq. cbn [object counter].
  assert (Hcount : counter reference = refcount key st).
  { unfold refcount. destruct (references st !! key) as [r|];
      destruct Href as [-> _]; done. }
  destruct (decide (counter reference + 1 - 1 = 0)%Z) as [Hzero|Hpos].
  - pose proof (destroyReferencedObject_same_service (object reference)
      (set_references (delete key (<[key := {| object := object reference;
         counter := counter reference + 1 |}]> (references st)))
         (set_live (({[nextReference st]} ∪ live st) ∖ {[nextReference st]})
            (set_nextReference (S (nextReference st))
               (set_live ({[nextReference st]} ∪ live st)
                  (set_references (<[key := {| object := object reference;
                     counter := counter reference + 1 |}]> (references st))
                     st1)))))) as (_ & Hrefs & _).
    unfold refcount at 1. rewrite Hrefs. cbn.
    rewrite delete_insert_eq.
    destruct (decide (key' = key)) as [->|Hne].
    + rewrite lookup_delete_eq. lia.
    + rewrite lookup_delete_ne by done. done.
  - unfold refcount. cbn. rewrite insert_insert_eq.
    destruct (decide (key' = key)) as [->|Hne].
    + rewrite lookup_insert_eq. cbn. fold (refcount key st). lia.
    + rewrite lookup_insert_ne by done. done.
Qed.

Lemma live_release_acquire (key : string) st :
  ref_id (acquire key st).1 ∈ live (acquire key st).2 ∧
  ref_id (acquire key st).1 ∉ live (release (acquire key st).1 (acquire key st).2).
Proof.
  destruct (acquire_spec key st) as (reference & st1 & _ & Href & ->).
  cbn [fst snd ref_id]. split; [cbn; set_solver|].
  unfold release. cbn [ref_id ref_key live set_nextReference
    set_live set_references references].
  destruct (decide (nextReference st ∈ {[nextReference st]} ∪ live st))
    as [_|Hnot]; [|set_solver].
  rewrite lookup_insert_eq.
  destruct (decide _) as [Hzero|Hpos].
  - match goal with |- _ ∉ live (destroyReferencedObject ?o ?s) =>
      destruct (destroyReferencedObject_same_service o s) as (_ & _ & -> & _)
    end.
    cbn. rewrite elem_of_difference, elem_of_singleton. tauto.
  - cbn. rewrite elem_of_difference, elem_of_singleton. tauto.
Qed.

(** The release of a handle whose object is rejected destroys nothing. *)
Lemma release_rejected_log (h : Handle) st (err : string) :
  (∀ r, references st !! ref_key h = Some r -> object r = TPromise_wrapError err) ->
  log (release h st) = log st.
Proof.
  intros Hrejected. unfold release.
  destruct (decide (ref_id h ∈ live st)); [|done].
  cbn [references set_live].
  destruct (references st !! ref_key h) as [r|] eqn:Hentry; [|done].
  destruct (decide (counter r - 1 = 0)%Z); [|done].
  by rewrite (Hrejected r).
Qed.

(** C5. For a resource whose scheme is neither the untitled scheme nor
    [inmemory], when the construction of the model fails (the collection has
    no entry for the key and [createReferencedObject] is rejected, or it
    holds an entry whose object is rejected), [createModelReference] has
    acquired a handle from the collection, which took the count of the key
    up by one, and has released that handle before it passed the error on:
    it is rejected with the error of the construction, every key has the
    count it had before the call, the handle is not live any more, and
    nothing was destroyed. *)
Theorem createModelReference_failure_releases (resource : URI) st (err : string) :
  scheme resource ≠ UNTITLED_SCHEMA ->
  scheme resource ≠ "inmemory" ->
  match references st !! URI_toString resource with
  | Some entry => object entry = TPromise_wrapError err
  | None =>
      (createReferencedObject (URI_toString resource) st).1
      = TPromise_wrapError err
  end ->
  let key := URI_toString resource in
  let acquired := acquire key st in
  ref_object acquired.1 = TPromise_wrapError err
  ∧ refcount key acquired.2 = (refcount key st + 1)%Z
  ∧ ref_id acquired.1 ∈ live acquired.2
  ∧ createModelReference resource st
    = (TPromise_wrapError err, release acquired.1 acquired.2)
  ∧ (∀ key', refcount key' (createModelReference resource st).2
             = refcount key' st)
  ∧ (ref_id acquired.1 ∉ live (createModelReference resource st).2)
  ∧ log (createModelReference resource st).2 = log acquired.2.
Proof.
  intros Huntitled Hinmemory Hfail key acquired.
  pose proof (refcount_release_acquire key st) as Hcount.
  pose proof (live_release_acquire key st) as [Hlive Hreleased].
  pose proof (refcount_acquire key st) as Hup.
  fold acquired in Hcount, Hlive, Hreleased, Hup.
  assert (Hobj : ref_object acquired.1 = TPromise_wrapError err
                 ∧ (∀ r, references acquired.2 !! ref_key acquired.1 = Some r ->
                         object r = TPromise_wrapError err)).
  { subst acquired.
    destruct (acquire_spec key st) as (reference & st1 & _ & Href & ->).
    cbn [fst snd ref_object ref_key references set_nextReference set_live
         set_references].
    fold key in Hfail.
    assert (Hrejected : object reference = TPromise_wrapError err).
    { destruct (references st !! key) as [entry|].
      - by destruct Href as [-> _].
      - by destruct Href as [-> _]. }
    split; [done|]. intros r. rewrite lookup_insert_eq. by intros [= <-]. }
  destruct Hobj as [Hobj Hentry].
  assert (Hcall : createModelReference resource st
                  = (TPromise_wrapError err, release acquired.1 acquired.2)).
  { unfold createModelReference.
    destruct (decide (scheme resource = UNTITLED_SCHEMA)) as [|_]; [done|].
    destruct (decide (scheme resource = "inmemory")) as [|_]; [done|].
    fold key. fold acquired.
    destruct acquired as [ref st1]. cbn [fst snd] in *. by rewrite Hobj. }
  rewrite Hcall. cbn [fst snd].
  split; [done|]. split; [done|]. split; [done|]. split; [done|].
  split; [done|]. split; [done|].
  by apply (release_rejected_log _ _ err).
Qed.


(** *** Dirty state *)

Lemma contentChanged_listening (m : IModel) (e : ModelChangeEventEmitter.t) :
  ModelChangeEventEmitter.listening m e ->
  ModelChangeEventEmitter.contentChanged m e = [m].
Proof.
  intros [Hlive Hone]. unfold ModelChangeEventEmitter.contentChanged.
  rewrite Hlive.
  destruct (ModelChangeEventEmitter.listenersOf m e) as [|sub [|sub' l]];
    by try discriminate.
Qed.

Lemma onDidChangeContent_saver (m : IModel) st :
  is_Some (_modelSaver st !! scheme (uri m)) ->
  onDidChangeContent m st
  = record (FireState {| type := dirty; resource := uri m |}) st.
Proof. intros Hsaver. unfold onDidChangeContent. by rewrite decide_True. Qed.

Lemma onDidChangeContent_no_saver (m : IModel) st :
  _modelSaver st !! scheme (uri m) = None -> onDidChangeContent m st = st.
Proof.
  intros Hnone. unfold onDidChangeContent. rewrite decide_False; [done|].
  rewrite Hnone. by intros [? ?].
Qed.

Lemma foldl_onDidChangeContent_no_saver (m : IModel) st (l : list nat) :
  _modelSaver st !! scheme (uri m) = None ->
  foldl (fun st model => onDidChangeContent model st) st ((fun _ => m) <$> l)
  = st.
Proof.
  intros Hnone. induction l as [|sub l IH]; [done|].
  cbn. by rewrite onDidChangeContent_no_saver.
Qed.

(** C7, as the code has it. The listener of the unified content-change
    event fires [dirty] for the resource of the model when the scheme of
    that resource has a saver, whatever was fired before, and does nothing
    when it has none. The content changes of a model reach that listener
    through the listener the emitter has attached to the model: in a state
    of the model service and the emitter reached from the construction of
    the service, a model added since and still there is listened to once,
    so that two content changes in a row fire two [dirty] events when its
    scheme has a saver; the content changes of any other model, one that
    the model service held before the service was constructed among them,
    fire nothing; and a content change of a model whose scheme has no saver
    leaves the service as it was. *)
Theorem dirty_on_every_content_change (R0 : gset IModel)
    (s : ModelChangeEventEmitter.System) (m : IModel) st :
  ModelChangeEventEmitter.reachable R0 s ->
  _onDidChangeModelContent st = ModelChangeEventEmitter.emitter s ->
  let fired := FireState {| type := dirty; resource := uri m |} in
  let listened :=
    m ∈ ModelChangeEventEmitter.registry s
    ∧ m ∉ ModelChangeEventEmitter.unheard s in
  (is_Some (_modelSaver st !! scheme (uri m)) ->
   onDidChangeContent m st = record fired st
   ∧ onDidChangeContent m (onDidChangeContent m st)
     = record fired (record fired st))
  ∧ (_modelSaver st !! scheme (uri m) = None -> onDidChangeContent m st = st)
  ∧ (listened ->
     is_Some (_modelSaver st !! scheme (uri m)) ->
     modelEvent (ContentChanged m) st = record fired st
     ∧ log (modelEvent (ContentChanged m) (modelEvent (ContentChanged m) st))
       = log st ++ [fired; fired])
  ∧ (¬ listened -> modelEvent (ContentChanged m) st = st)
  ∧ (_modelSaver st !! scheme (uri m) = None ->
     modelEvent (ContentChanged m) st = st).
Proof.
  intros Hreach Hemitter fired listened.
  destruct (invariant_reachable R0 s Hreach)
    as (_ & Hlive & _ & Hdom & Hbij & _).
  rewrite <- Hemitter in Hlive, Hdom, Hbij.
  assert (Honce : is_Some (_modelSaver st !! scheme (uri m)) ->
                  onDidChangeContent m st = record fired st)
    by apply onDidChangeContent_saver.
  assert (Htwice : is_Some (_modelSaver st !! scheme (uri m)) ->
                   onDidChangeContent m (record fired st)
                   = record fired (record fired st)).
  { intros Hsaver. by apply onDidChangeContent_saver. }
  split; [|split; [|split; [|split]]].
  - intros Hsaver. split; [by apply Honce|].
    rewrite Honce by done. by apply Htwice.
  - apply onDidChangeContent_no_saver.
  - intros Hlistened Hsaver.
    assert (Hlisten : ModelChangeEventEmitter.listening m
                        (_onDidChangeModelContent st)).
    { split; [done|]. apply Hdom in Hlistened as [sub Hsub].
      by rewrite (listenersOf_recorded _ m sub). }
    assert (Hchange : modelEvent (ContentChanged m) st = record fired st).
    { cbn. rewrite contentChanged_listening by done. cbn. by apply Honce. }
    split; [done|]. rewrite Hchange. cbn.
    rewrite contentChanged_listening by done. cbn. rewrite Htwice by done.
    cbn. by rewrite <- app_assoc.
  - intros Hnot. cbn.
    assert (Hnone : ModelChangeEventEmitter._modelListener
                      (_onDidChangeModelContent st) !! m = None).
    { destruct (ModelChangeEventEmitter._modelListener
                  (_onDidChangeModelContent st) !! m) as [sub|] eqn:Hm;
        [|done].
      destruct Hnot. apply Hdom. by rewrite Hm. }
    unfold ModelChangeEventEmitter.contentChanged.
    rewrite Hlive, listenersOf_unrecorded by done. done.
  - intros Hnone. cbn. unfold ModelChangeEventEmitter.contentChanged.
    destruct (ModelChangeEventEmitter._onDidChangeContent _); [|done].
    by apply foldl_onDidChangeContent_no_saver.
Qed.

End Properties.

(** ** The properties at work in the small world *)

(** Providers: [P1] registered first answers, [P2] registered second
    answers nothing. Resolution calls [P2], then [P1]. *)
Example resolve_calls_latest_first :
  let P1 := ContentProvider 1 in
  let P2 := ContentProvider 0 in
  let st1 := (registerTextModelContentProvider "demo" P1 (create Demo.empty)).2 in
  let st2 := (registerTextModelContentProvider "demo" P2 st1).2 in
  (resolveTextModelContent "demo:x" st2).1 = TPromise_as Demo.model_x ∧
  log (resolveTextModelContent "demo:x" st2).2
  = [ProvideTextContent P2 Demo.x (TPromise_as None);
     ProvideTextContent P1 Demo.x (TPromise_as (Some Demo.model_x))].
Proof. split; vm_compute; reflexivity. Qed.

(** Two providers that answer nothing: both are called, latest first, and
    the resolution fails. *)
Example resolve_unavailable :
  let st1 :=
    (registerTextModelContentProvider "demo" (ContentProvider 0)
       (create Demo.empty)).2 in
  let st2 := (registerTextModelContentProvider "demo" (ContentProvider 0) st1).2 in
  (resolveTextModelContent "demo:x" st2).1
  = TPromise_wrapError "resource is not available" ∧
  log (resolveTextModelContent "demo:x" st2).2
  = [ProvideTextContent (ContentProvider 0) Demo.x (TPromise_as None);
     ProvideTextContent (ContentProvider 0) Demo.x (TPromise_as None);
     ConsoleError "Unable to open 'demo:x' resource is not available."].
Proof. split; vm_compute; reflexivity. Qed.

(** A provider that fails: [P1] registered first would answer, [P3]
    registered second is rejected. Resolution calls [P3] only and fails with
    its error; the model service holds no model afterwards. *)
Example resolve_stops_at_rejection :
  let P1 := ContentProvider 1 in
  let P3 := ContentProvider 3 in
  let st1 := (registerTextModelContentProvider "demo" P1 (create Demo.empty)).2 in
  let st2 := (registerTextModelContentProvider "demo" P3 st1).2 in
  (resolveTextModelContent "demo:x" st2).1 = TPromise_wrapError "EIO" ∧
  world (resolveTextModelContent "demo:x" st2).2 = Demo.empty ∧
  log (resolveTextModelContent "demo:x" st2).2
  = [ProvideTextContent P3 Demo.x (TPromise_wrapError "EIO")].
Proof. repeat split; vm_compute; reflexivity. Qed.

(** C2 at work: a second saver for [demo]. *)
Lemma registerTextModelSaver_duplicate_demo :
  let st := (registerTextModelSaver "demo" (ModelSaver 1) (create Demo.empty)).2 in
  _modelSaver st !! "demo" = Some (ModelSaver 1) ∧
  (registerTextModelSaver "demo" (ModelSaver 2) st
   = (Throw "there can only be one saver for the scheme 'demo'", st)
   ∧ _modelSaver (registerTextModelSaver "demo" (ModelSaver 2) st).2 !! "demo"
     = Some (ModelSaver 1)).
Proof.
  intros st.
  assert (Hreg : _modelSaver st !! "demo" = Some (ModelSaver 1))
    by (vm_compute; reflexivity).
  split; [exact Hreg|].
  exact (registerTextModelSaver_duplicate "demo" (ModelSaver 1) (ModelSaver 2)
           st Hreg).
Defined.

(** C10 at work: the registration of saver 1, disposed twice, takes the
    registration of saver 2 with it. *)
Lemma saver_registration_disposes_by_scheme_demo :
  let st := create Demo.empty in
  _modelSaver st !! "demo" = None ∧
  ∃ hA hB,
    let st1 := (registerTextModelSaver "demo" (ModelSaver 1) st).2 in
    let st2 := disposeSaverRegistration hA st1 in
    let st3 := (registerTextModelSaver "demo" (ModelSaver 2) st2).2 in
    (registerTextModelSaver "demo" (ModelSaver 1) st).1 = Return hA ∧
    (registerTextModelSaver "demo" (ModelSaver 2) st2).1 = Return hB ∧
    _modelSaver st3 !! "demo" = Some (ModelSaver 2) ∧
    _modelSaver (disposeSaverRegistration hA st3) !! "demo" = None.
Proof.
  intros st.
  assert (Hnone : _modelSaver st !! "demo" = None) by (vm_compute; reflexivity).
  split; [exact Hnone|].
  exact (proj2 (saver_registration_disposes_by_scheme "demo" (ModelSaver 1)
                  (ModelSaver 2) st Hnone)).
Defined.

(** C3 as stated does not hold: with a model for [demo:x] and a saver for
    [demo] whose promise is rejected, [save] fires [saving] and never
    [saved]. *)
Lemma save_rejected_fires_no_saved :
  let st := (registerTextModelSaver "demo" (ModelSaver 0) (create Demo.with_x)).2 in
  getModel Demo.x (world st) = Some Demo.model_x ∧
  _modelSaver st !! scheme Demo.x = Some (ModelSaver 0) ∧
  (save Demo.x None st).1 = Return (TPromise_wrapError "EACCES") ∧
  stateEvents (log (save Demo.x None st).2)
  = [{| type := saving; resource := Demo.x |}].
Proof. repeat split; vm_compute; reflexivity. Qed.

(** C3 at work: a saver that succeeds. *)
Lemma save_saving_then_saved_demo :
  let st := (registerTextModelSaver "demo" (ModelSaver 1) (create Demo.with_x)).2 in
  getModel Demo.x (world st) = Some Demo.model_x ∧
  _modelSaver st !! scheme Demo.x = Some (ModelSaver 1) ∧
  (save Demo.x None st).1 = Return (TPromise_as tt) ∧
  log (save Demo.x None st).2
  = log st
    ++ [FireState {| type := saving; resource := Demo.x |};
        SaveTextContent (ModelSaver 1) Demo.x Demo.model_x None]
    ++ [FireState {| type := saved; resource := Demo.x |}].
Proof.
  intros st.
  assert (Hmodel : getModel Demo.x (world st) = Some Demo.model_x)
    by (vm_compute; reflexivity).
  assert (Hsaver : _modelSaver st !! scheme Demo.x = Some (ModelSaver 1))
    by (vm_compute; reflexivity).
  split; [exact Hmodel|]. split; [exact Hsaver|].
  exact (proj2 (proj2 (save_saving_then_saved Demo.x None st Demo.model_x
                         (ModelSaver 1) Hmodel Hsaver))).
Defined.

(** C4 as stated does not hold: without a model and without a saver,
    [save] is rejected with ['MISSING_MODEL'], not ['MISSING_SAVER']. *)
Lemma save_missing_both :
  let st := create Demo.empty in
  _modelSaver st !! scheme Demo.x = None ∧
  (save Demo.x None st).1 = Return (TPromise_wrapError "MISSING_MODEL") ∧
  (save Demo.x None st).1 ≠ Return (TPromise_wrapError "MISSING_SAVER").
Proof.
  split; [vm_compute; reflexivity|]. split; [vm_compute; reflexivity|].
  vm_compute. discriminate.
Qed.

(** C4 at work: no model; a model and no saver. *)
Lemma save_missing_demo :
  (getModel Demo.x (world (create Demo.empty)) = None ∧
   save Demo.x None (create Demo.empty)
   = (Return (TPromise_wrapError "MISSING_MODEL"), create Demo.empty))
  ∧ (getModel Demo.x (world (create Demo.with_x)) = Some Demo.model_x ∧
     _modelSaver (create Demo.with_x) !! scheme Demo.x = None ∧
     save Demo.x None (create Demo.with_x)
     = (Return (TPromise_wrapError "MISSING_SAVER"), create Demo.with_x)).
Proof.
  assert (Hnone : getModel Demo.x (world (create Demo.empty)) = None)
    by (vm_compute; reflexivity).
  assert (Hmodel : getModel Demo.x (world (create Demo.with_x))
                   = Some Demo.model_x) by (vm_compute; reflexivity).
  assert (Hsaver : _modelSaver (create Demo.with_x) !! scheme Demo.x = None)
    by (vm_compute; reflexivity).
  split.
  - split; [exact Hnone|].
    exact (proj1 (save_missing Demo.x None (create Demo.empty)) Hnone).
  - split; [exact Hmodel|]. split; [exact Hsaver|].
    exact (proj2 (save_missing Demo.x None (create Demo.with_x))
             Demo.model_x Hmodel Hsaver).
Defined.

(** C5 at work. No provider for [demo], so the construction fails: the
    key has no count afterwards, as before. And a file that does not load,
    of which another holder keeps a handle: the count is one before and
    after. *)
Lemma createModelReference_failure_releases_demo :
  let st := create Demo.empty in
  let f := mkURI "file" "" in
  let held := (acquire "file:" st).2 in
  scheme Demo.x ≠ UNTITLED_SCHEMA ∧
  scheme Demo.x ≠ "inmemory" ∧
  references st !! URI_toString Demo.x = None ∧
  (createReferencedObject (URI_toString Demo.x) st).1
  = TPromise_wrapError "resource is not available" ∧
  (createModelReference Demo.x st).1
  = TPromise_wrapError "resource is not available" ∧
  refcount "demo:x" (acquire "demo:x" st).2 = 1%Z ∧
  (∀ key', refcount key' (createModelReference Demo.x st).2 = refcount key' st) ∧
  refcount "file:" held = 1%Z ∧
  (createModelReference f held).1 = TPromise_wrapError "ENOENT" ∧
  refcount "file:" (acquire "file:" held).2 = 2%Z ∧
  refcount "file:" (createModelReference f held).2 = 1%Z.
Proof.
  intros st f held.
  assert (Huntitled : scheme Demo.x ≠ UNTITLED_SCHEMA) by discriminate.
  assert (Hinmemory : scheme Demo.x ≠ "inmemory") by discriminate.
  assert (Hfresh : references st !! URI_toString Demo.x = None)
    by (vm_compute; reflexivity).
  assert (Hfail : (createReferencedObject (URI_toString Demo.x) st).1
                  = TPromise_wrapError "resource is not available")
    by (vm_compute; reflexivity).
  assert (Hbuilt : match references st !! URI_toString Demo.x with
                   | Some entry =>
                       object entry
                       = TPromise_wrapError "resource is not available"
                   | None =>
                       (createReferencedObject (URI_toString Demo.x) st).1
                       = TPromise_wrapError "resource is not available"
                   end) by (vm_compute; reflexivity).
  assert (Hcached : match references held !! URI_toString f with
                    | Some entry => object entry = TPromise_wrapError "ENOENT"
                    | None =>
                        (createReferencedObject (URI_toString f) held).1
                        = TPromise_wrapError "ENOENT"
                    end) by (vm_compute; reflexivity).
  destruct (createModelReference_failure_releases Demo.x st _
              Huntitled Hinmemory Hbuilt) as (_ & Hup & _ & Hcall & Hsame & _).
  destruct (createModelReference_failure_releases f held "ENOENT"
              ltac:(discriminate) ltac:(discriminate) Hcached)
    as (_ & Hup' & _ & Hcall' & Hsame' & _).
  split; [exact Huntitled|]. split; [exact Hinmemory|].
  split; [exact Hfresh|]. split; [exact Hfail|].
  split; [by rewrite Hcall|]. split; [exact Hup|]. split; [exact Hsame|].
  assert (Hone : refcount "file:" held = 1%Z) by (vm_compute; reflexivity).
  split; [exact Hone|]. split; [by rewrite Hcall'|].
  split; [exact (eq_trans Hup' (f_equal (fun z => (z + 1)%Z) Hone))|].
  exact (eq_trans (Hsame' "file:") Hone).
Defined.

(** C6 as stated does not hold: register the same provider twice for
    [demo], dispose the second registration, and dispose it again: the
    second disposal removes the first registration. *)
Lemma registration_disposed_twice :
  let P := ContentProvider 7 in
  let first_time := Registry.registerTextModelContentProvider "demo" P ∅ in
  let registered :=
    Registry.registerTextModelContentProvider "demo" P first_time.1 in
  let disposed := Registry.dispose registered.2 registered.1 in
  Registry.lookup first_time.1 "demo" = [P] ∧
  Registry.lookup disposed "demo" = [P] ∧
  Registry.lookup (Registry.dispose registered.2 disposed) "demo" = [] ∧
  Registry.dispose registered.2 disposed ≠ disposed.
Proof.
  split; [vm_compute; reflexivity|]. split; [vm_compute; reflexivity|].
  split; [vm_compute; reflexivity|].
  intros Heq. apply (f_equal (fun r => Registry.lookup r "demo")) in Heq.
  vm_compute in Heq. discriminate Heq.
Qed.

(** C6 at work: provider 2 registered for [demo], where provider 1 is. *)
Lemma registration_dispose_demo :
  let registry : Registry.t := {["demo" := [ContentProvider 1]]} in
  let registered :=
    Registry.registerTextModelContentProvider "demo" (ContentProvider 2)
      registry in
  let disposed := Registry.dispose registered.2 registered.1 in
  (ContentProvider 2 ∉ Registry.lookup registry "demo") ∧
  Registry.lookup registered.1 "demo" = [ContentProvider 2; ContentProvider 1] ∧
  Registry.lookup disposed "demo" = [ContentProvider 1] ∧
  Registry.dispose registered.2 disposed = disposed.
Proof.
  intros registry registered disposed.
  assert (Hfresh : ContentProvider 2 ∉ Registry.lookup registry "demo").
  { vm_compute. intros Hin. apply list_elem_of_singleton in Hin.
    discriminate Hin. }
  pose proof (registration_dispose "demo" (ContentProvider 2) registry)
    as (Hsame & _ & _ & Hagain).
  split; [exact Hfresh|]. split; [vm_compute; reflexivity|].
  split; [exact (Hsame "demo")|exact (Hagain Hfresh)].
Defined.

(** C7 as stated does not hold: [demo] has a saver, and the model service
    held the model of [demo:x] before the service was constructed. The
    emitter has no listener on that model: two content changes fire
    nothing. *)
Lemma preexisting_model_fires_no_dirty :
  let st := (registerTextModelSaver "demo" (ModelSaver 1) (create Demo.with_x)).2 in
  getModel Demo.x (world st) = Some Demo.model_x ∧
  _modelSaver st !! scheme (uri Demo.model_x) = Some (ModelSaver 1) ∧
  log (modelEvent (ContentChanged Demo.model_x)
         (modelEvent (ContentChanged Demo.model_x) st))
  = [].
Proof. repeat split; vm_compute; reflexivity. Qed.

(** C7 at work: [demo] has a saver and the model of [demo:x] was added
    after the service was constructed; two content changes fire [dirty]
    twice. *)
Lemma dirty_on_every_content_change_demo :
  let s :=
    ModelChangeEventEmitter.added Demo.model_x
      (ModelChangeEventEmitter.initial ∅) in
  let st :=
    modelEvent (ModelAdded Demo.model_x)
      (registerTextModelSaver "demo" (ModelSaver 1) (create Demo.empty)).2 in
  let fired := FireState {| type := dirty; resource := Demo.x |} in
  ModelChangeEventEmitter.reachable ∅ s ∧
  _onDidChangeModelContent st = ModelChangeEventEmitter.emitter s ∧
  (Demo.model_x ∈ ModelChangeEventEmitter.registry s
   ∧ Demo.model_x ∉ ModelChangeEventEmitter.unheard s) ∧
  is_Some (_modelSaver st !! scheme (uri Demo.model_x)) ∧
  log (modelEvent (ContentChanged Demo.model_x)
         (modelEvent (ContentChanged Demo.model_x) st))
  = log st ++ [fired; fired].
Proof.
  intros s st fired.
  assert (Hreach : ModelChangeEventEmitter.reachable ∅ s).
  { unfold ModelChangeEventEmitter.reachable. eapply rtc_l; [|apply rtc_refl].
    apply (ModelChangeEventEmitter.step_added Demo.model_x).
    apply not_elem_of_empty. }
  assert (Hemitter : _onDidChangeModelContent st
                     = ModelChangeEventEmitter.emitter s) by reflexivity.
  assert (Hlistened : Demo.model_x ∈ ModelChangeEventEmitter.registry s
                      ∧ Demo.model_x ∉ ModelChangeEventEmitter.unheard s).
  { split; [|apply not_elem_of_empty].
    refine (bool_decide_unpack _ _). vm_compute. exact I. }
  assert (Hsaver : is_Some (_modelSaver st !! scheme (uri Demo.model_x)))
    by (exists (ModelSaver 1); vm_compute; reflexivity).
  destruct (dirty_on_every_content_change ∅ s Demo.model_x st Hreach Hemitter)
    as (_ & _ & Hchanges & _).
  split; [exact Hreach|]. split; [exact Hemitter|]. split; [exact Hlistened|].
  split; [exact Hsaver|]. exact (proj2 (Hchanges Hlistened Hsaver)).
Defined.

(** C8 at work: an [inmemory] resource without a model, and with one. *)
Lemma createModelReference_inmemory_demo :
  let r := mkURI "inmemory" "m" in
  let w := Demo.mkWorld [mkModel 0 r] [] in
  scheme r = "inmemory" ∧
  createModelReference r (create Demo.empty)
  = (TPromise_wrapError "Cant resolve inmemory resource", create Demo.empty) ∧
  ∃ reference,
    createModelReference r (create w) = (TPromise_as reference, create w) ∧
    ∀ st' : State Demo.World, disposeReference reference st' = st'.
Proof.
  intros r w.
  assert (Hscheme : scheme r = "inmemory") by reflexivity.
  split; [exact Hscheme|]. split.
  - exact (createModelReference_inmemory r (create Demo.empty) Hscheme).
  - exact (createModelReference_inmemory r (create w) Hscheme).
Defined.

(** C9 as stated does not hold: a model that the registry holds when the
    emitter is constructed has no listener. *)
Lemma preexisting_model_has_no_listener :
  let s := ModelChangeEventEmitter.initial {[Demo.model_x]} in
  ModelChangeEventEmitter.reachable {[Demo.model_x]} s ∧
  Demo.model_x ∈ ModelChangeEventEmitter.registry s ∧
  length (ModelChangeEventEmitter.listenersOf Demo.model_x
            (ModelChangeEventEmitter.emitter s)) = 0.
Proof.
  split; [apply rtc_refl|]. split; [|vm_compute; reflexivity].
  cbn. by apply elem_of_singleton.
Qed.

(** C9 at work: two models added, the first one removed. *)
Lemma one_listener_per_announced_model_demo :
  let m0 := Demo.model_x in
  let m1 := mkModel 1 (mkURI "demo" "y") in
  let s :=
    ModelChangeEventEmitter.removed m0
      (ModelChangeEventEmitter.added m1
         (ModelChangeEventEmitter.added m0
            (ModelChangeEventEmitter.initial ∅))) in
  ModelChangeEventEmitter.reachable ∅ s ∧
  length (ModelChangeEventEmitter.listenersOf m1
            (ModelChangeEventEmitter.emitter s)) = 1 ∧
  length (ModelChangeEventEmitter.listenersOf m0
            (ModelChangeEventEmitter.emitter s)) = 0 ∧
  ModelChangeEventEmitter.attached
    (ModelChangeEventEmitter.dispose (ModelChangeEventEmitter.emitter s)) = ∅.
Proof.
  intros m0 m1 s.
  assert (Hreach : ModelChangeEventEmitter.reachable ∅ s).
  { unfold ModelChangeEventEmitter.reachable.
    eapply rtc_l.
    { apply (ModelChangeEventEmitter.step_added m0). apply not_elem_of_empty. }
    eapply rtc_l.
    { apply (ModelChangeEventEmitter.step_added m1).
      refine (bool_decide_unpack _ _). vm_compute. exact I. }
    eapply rtc_l.
    { apply (ModelChangeEventEmitter.step_removed m0).
      refine (bool_decide_unpack _ _). vm_compute. exact I. }
    apply rtc_refl. }
  pose proof (one_listener_per_announced_model ∅ s Hreach)
    as (_ & Hcount & _ & _ & _ & Hdetached & _).
  split; [exact Hreach|].
  split; [exact (Hcount eq_refl m1)|].
  split; [exact (Hcount eq_refl m0)|exact Hdetached].
Defined.

(** ** More properties of the provider registry *)

Lemma indexOf_first_occurrence {A} `{EqDecision A} (x : A) (before after : list A) :
  x ∉ before -> indexOf x (before ++ x :: after) = Z.of_nat (length before).
Proof.
  induction before as [|y before IH]; intros Hnotin.
  - apply indexOf_head.
  - apply not_elem_of_cons in Hnotin as [Hne Hnotin].
    cbn [app indexOf length]. rewrite decide_False by congruence.
    rewrite IH by done. cbv zeta. rewrite decide_False by lia. lia.
Qed.

Lemma splice_first_occurrence {A} (x : A) (before after : list A) :
  splice (length before) 1 (before ++ x :: after) = before ++ after.
Proof.
  unfold splice. rewrite take_app_length.
  rewrite drop_app_ge by lia.
  replace (length before + 1 - length before) with 1 by lia. done.
Qed.

Lemma noEmptyArray_register (scheme : string)
    (provider : ITextModelContentProvider) (registry : Registry.t) :
  noEmptyArray registry ->
  noEmptyArray
    (Registry.registerTextModelContentProvider scheme provider registry).1.
Proof.
  intros Hwf scheme' array. cbn.
  destruct (decide (scheme' = scheme)) as [->|Hne].
  - rewrite lookup_insert_eq. by intros [= <-].
  - rewrite lookup_insert_ne by done. apply Hwf.
Qed.

Lemma noEmptyArray_dispose (h : Registry.Registration) (registry : Registry.t) :
  noEmptyArray registry -> noEmptyArray (Registry.dispose h registry).
Proof.
  intros Hwf. unfold Registry.dispose.
  destruct (registry !! Registry.reg_scheme h) as [array|]; [|done].
  destruct (decide (indexOf (Registry.reg_provider h) array = -1)%Z); [done|].
  destruct (decide (length (splice (Z.to_nat (indexOf (Registry.reg_provider h)
              array)) 1 array) = 0)) as [Hzero|Hpos].
  - intros scheme' array'. rewrite lookup_delete_Some. intros [_ Hin].
    by eapply Hwf.
  - intros scheme' array'.
    destruct (decide (scheme' = Registry.reg_scheme h)) as [->|Hne].
    + rewrite lookup_insert_eq. intros [= <-] Hnil. apply Hpos.
      by rewrite Hnil.
    + rewrite lookup_insert_ne by done. apply Hwf.
Qed.

(** X1. In every registry reached from the empty one by registrations and
    disposals of registrations, in any order and any number of times, no
    scheme holds an empty array: the providers of a scheme are none exactly
    when the scheme has no entry. *)
Theorem registry_never_holds_empty_array (ops : list RegistryOp) :
  let registry := runRegistryOps ops ∅ in
  noEmptyArray registry
  ∧ ∀ scheme, Registry.lookup registry scheme = [] ↔ registry !! scheme = None.
Proof.
  intros registry.
  assert (Hwf : noEmptyArray registry).
  { subst registry. unfold runRegistryOps.
    assert (Hgen : ∀ start, noEmptyArray start ->
                            noEmptyArray (foldl runRegistryOp start ops)).
    { induction ops as [|op ops IH]; intros start Hstart; [done|].
      cbn. apply IH. destruct op as [scheme provider|h]; cbn.
      - by apply noEmptyArray_register.
      - by apply noEmptyArray_dispose. }
    apply Hgen. intros scheme array. by rewrite lookup_empty. }
  split; [exact Hwf|].
  intros scheme. unfold Registry.lookup.
  destruct (registry !! scheme) as [array|] eqn:Hentry; cbn.
  - split; [|done]. intros ->. by apply Hwf in Hentry.
  - done.
Qed.

(** X2. Disposing a registration removes the first occurrence of its
    provider from the array of its scheme and keeps the other providers in
    their order; it changes nothing when the provider is not registered for
    the scheme; it never touches another scheme. *)
Theorem dispose_removes_first_occurrence (h : Registry.Registration)
    (registry : Registry.t) :
  let array := Registry.lookup registry (Registry.reg_scheme h) in
  (Registry.reg_provider h ∉ array -> Registry.dispose h registry = registry)
  ∧ (∀ before after,
       array = before ++ Registry.reg_provider h :: after ->
       Registry.reg_provider h ∉ before ->
       Registry.lookup (Registry.dispose h registry) (Registry.reg_scheme h)
       = before ++ after)
  ∧ (∀ scheme', scheme' ≠ Registry.reg_scheme h ->
       Registry.dispose h registry !! scheme' = registry !! scheme').
Proof.
  intros array. subst array. unfold Registry.lookup, Registry.dispose.
  destruct (registry !! Registry.reg_scheme h) as [array|] eqn:Hentry.
  - change (default [] (Some array)) with array. split; [|split].
    + intros Hnotin. by rewrite indexOf_absent.
    + intros before after -> Hnotin.
      rewrite indexOf_first_occurrence by done.
      rewrite decide_False by lia. rewrite Nat2Z.id, splice_first_occurrence.
      destruct (decide (length (before ++ after) = 0)) as [Hzero|Hpos].
      * rewrite lookup_delete_eq. cbn.
        by destruct (before ++ after).
      * by rewrite lookup_insert_eq.
    + intros scheme' Hne.
      destruct (decide (indexOf (Registry.reg_provider h) array = -1)%Z);
        [done|].
      destruct (decide _); [by rewrite lookup_delete_ne|
                            by rewrite lookup_insert_ne].
  - split; [done|]. split; [|done].
    intros before after Heq. by destruct before.
Qed.

(** X2 at work: the scheme [demo] holds providers 1, 2, 1; disposing a
    registration of provider 1 removes the one in front. *)
Lemma dispose_removes_first_occurrence_demo :
  let P1 := ContentProvider 1 in
  let P2 := ContentProvider 2 in
  let registry : Registry.t := {["demo" := [P2; P1; P2]]} in
  let h := {| Registry.reg_scheme := "demo"; Registry.reg_provider := P1 |} in
  Registry.lookup registry "demo" = [P2] ++ P1 :: [P2] ∧
  (P1 ∉ [P2]) ∧
  Registry.lookup (Registry.dispose h registry) "demo" = [P2] ++ [P2].
Proof.
  intros P1 P2 registry h.
  assert (Harray : Registry.lookup registry (Registry.reg_scheme h)
                   = [P2] ++ P1 :: [P2]) by (vm_compute; reflexivity).
  assert (Hnotin : P1 ∉ [P2]).
  { intros Hin. apply list_elem_of_singleton in Hin. discriminate Hin. }
  split; [exact Harray|]. split; [exact Hnotin|].
  exact (proj1 (proj2 (dispose_removes_first_occurrence h registry))
           [P2] [P2] Harray Hnotin).
Defined.

(** ** More properties of the service *)

Section MoreProperties.

Context {World : Type} `{!Collaborators World}.

Implicit Types st : State World.

Lemma same_service_registrations st st1 :
  same_service st st1 -> same_registrations st st1.
Proof. intros (? & _ & _ & _ & _ & ?). by split. Qed.

Lemma release_same_registrations (h : Handle) st :
  same_registrations st (release h st).
Proof.
  unfold release. destruct (decide (ref_id h ∈ live st)); [|by split].
  cbn [references set_live]. destruct (references st !! ref_key h) as [r|];
    [|by split].
  destruct (decide (counter r - 1 = 0)%Z); [|by split].
  match goal with |- same_registrations _ (destroyReferencedObject ?o ?s) =>
    destruct (destroyReferencedObject_same_service o s) as (Hp & _ & _ & _ & _ & Hs)
  end.
  split; [by rewrite Hp|by rewrite Hs].
Qed.

Lemma acquire_same_registrations (key : string) st :
  same_registrations st (acquire key st).2.
Proof.
  destruct (acquire_spec key st) as (reference & st1 & Hs & _ & ->).
  destruct Hs as (Hp & _ & _ & _ & _ & Hm). by split.
Qed.

Lemma createModelReference_same_registrations (resource : URI) st :
  same_registrations st (createModelReference resource st).2.
Proof.
  unfold createModelReference.
  destruct (decide (scheme resource = UNTITLED_SCHEMA)).
  { destruct (untitled_loadOrCreate _ _) as [[model|err] w]; by split. }
  destruct (decide (scheme resource = "inmemory")).
  { destruct (getModel resource (world st)); by split. }
  pose proof (acquire_same_registrations (URI_toString resource) st) as [Hp Hs].
  destruct (acquire (URI_toString resource) st) as [ref st1]. cbn [snd] in *.
  destruct (ref_object ref) as [model|err]; cbn [snd]; [by split|].
  destruct (release_same_registrations ref st1) as [Hp' Hs'].
  split; congruence.
Qed.

Lemma save_same_registrations (resource : URI)
    (options : option ITextModelSaveOptions) st :
  same_registrations st (save resource options st).2.
Proof.
  unfold save. destruct (getModel resource (world st)) as [model|]; [|by split].
  destruct (_modelSaver st !! scheme resource) as [saver|]; [|by split].
  cbn [world record set_log].
  destruct (saveTextContent saver resource model options (world st))
    as [[[]|err] w]; by split.
Qed.

Lemma foldl_onDidChangeContent_frame (models : list IModel) : ∀ st,
  same_service st
    (foldl (fun st model => onDidChangeContent model st) st models).
Proof.
  induction models as [|m models IH]; intros st; [apply same_service_refl|].
  cbn. eapply same_service_trans; [|apply IH].
  unfold onDidChangeContent. destruct (decide _); [|apply same_service_refl].
  apply same_service_record.
Qed.

(** X3. Resolving a model reference, saving, disposing a reference and
    the notifications of the model service never change which providers and
    savers are registered: only the registration calls and the disposal of
    what they return do. *)
Theorem registrations_untouched (resource : URI)
    (options : option ITextModelSaveOptions) (reference : IReference)
    (ev : ModelEvent) (key : string) st :
  same_registrations st (createModelReference resource st).2
  ∧ same_registrations st (resolveTextModelContent key st).2
  ∧ same_registrations st (save resource options st).2
  ∧ same_registrations st (disposeReference reference st)
  ∧ same_registrations st (modelEvent ev st)
  ∧ same_registrations st (dispose st).
Proof.
  split; [apply createModelReference_same_registrations|].
  split; [apply same_service_registrations,
            resolveTextModelContent_same_service|].
  split; [apply save_same_registrations|].
  split.
  { destruct reference as [model|model ref]; [by split|].
    apply release_same_registrations. }
  split; [|by split].
  destruct ev as [m|m|m]; [by split|by split|].
  apply same_service_registrations. cbn. apply foldl_onDidChangeContent_frame.
Qed.

Lemma providerCalls_app (l1 l2 : list Action) :
  providerCalls (l1 ++ l2) = providerCalls l1 ++ providerCalls l2.
Proof. apply omap_app. Qed.

(** X4. For a resource of the untitled scheme, of the scheme [inmemory],
    or whose key is of the file scheme, [createModelReference] calls no
    content provider, whatever providers are registered; for the first two
    it does not touch the reference collection either. *)
Theorem special_schemes_call_no_provider (resource : URI) st :
  (scheme resource = UNTITLED_SCHEMA ∨ scheme resource = "inmemory" ->
   references (createModelReference resource st).2 = references st
   ∧ live (createModelReference resource st).2 = live st
   ∧ providerCalls (log (createModelReference resource st).2)
     = providerCalls (log st))
  ∧ (scheme (URI_parse (URI_toString resource)) = Schemas_file ->
     providerCalls (log (createModelReference resource st).2)
     = providerCalls (log st)).
Proof.
  split.
  - intros Hspecial. unfold createModelReference.
    destruct (decide (scheme resource = UNTITLED_SCHEMA)) as [_|Hnot].
    { destruct (untitled_loadOrCreate _ _) as [[model|err] w]; cbn;
        by rewrite providerCalls_app, app_nil_r. }
    destruct Hspecial as [?|Hin]; [done|].
    rewrite decide_True by done.
    by destruct (getModel resource (world st)).
  - intros Hfile. unfold createModelReference.
    destruct (decide (scheme resource = UNTITLED_SCHEMA)) as [_|_].
    { destruct (untitled_loadOrCreate _ _) as [[model|err] w]; cbn;
        by rewrite providerCalls_app, app_nil_r. }
    destruct (decide (scheme resource = "inmemory")) as [_|_].
    { by destruct (getModel resource (world st)). }
    destruct (acquire_spec (URI_toString resource) st)
      as (reference & st1 & _ & Href & Hacq).
    assert (Hlog : providerCalls (log st1) = providerCalls (log st)).
    { destruct (references st !! URI_toString resource) as [r|].
      - by destruct Href as [_ ->].
      - destruct Href as [_ ->]. unfold createReferencedObject.
        rewrite decide_True by done.
        destruct (textFile_loadOrCreate _ _) as [model w]. cbn.
        by rewrite providerCalls_app, app_nil_r. }
    rewrite Hacq. cbn [fst snd ref_object].
    destruct (object reference) as [model|err] eqn:Hobj; cbn [snd]; [done|].
    erewrite release_rejected_log; [done|].
    intros r. cbn. rewrite lookup_insert_eq. by intros [= <-].
Qed.

End MoreProperties.

(** X4 at work: a provider is registered for [inmemory] and for [file];
    neither is called. *)
Lemma special_schemes_call_no_provider_demo :
  let r := mkURI "inmemory" "m" in
  let f := mkURI "file" "a.txt" in
  let st :=
    (registerTextModelContentProvider "file" (ContentProvider 1)
       (registerTextModelContentProvider "inmemory" (ContentProvider 1)
          (create Demo.empty)).2).2 in
  (scheme r = UNTITLED_SCHEMA ∨ scheme r = "inmemory") ∧
  scheme (URI_parse (URI_toString f)) = Schemas_file ∧
  providerCalls (log (createModelReference r st).2) = providerCalls (log st) ∧
  providerCalls (log (createModelReference f st).2) = providerCalls (log st).
Proof.
  intros r f st.
  assert (Hspecial : scheme r = UNTITLED_SCHEMA ∨ scheme r = "inmemory")
    by (right; reflexivity).
  assert (Hfile : scheme (URI_parse (URI_toString f)) = Schemas_file)
    by (vm_compute; reflexivity).
  split; [exact Hspecial|]. split; [exact Hfile|]. split.
  - exact (proj2 (proj2 (proj1 (special_schemes_call_no_provider r st)
                           Hspecial))).
  - exact (proj2 (special_schemes_call_no_provider f st) Hfile).
Defined.

Section MoreReferences.

Context {World : Type} `{!Collaborators World}.

Implicit Types st : State World.

Lemma release_not_last (h : Handle) st (r : ReferenceEntry) :
  ref_id h ∈ live st ->
  references st !! ref_key h = Some r ->
  (counter r - 1)%Z ≠ 0%Z ->
  release h st
  = set_references
      (<[ref_key h := {| object := object r; counter := counter r - 1 |}]>
         (references st))
      (set_live (live st ∖ {[ref_id h]}) st).
Proof.
  intros Hlive Hentry Hcount. unfold release.
  rewrite decide_True by done. cbn [references set_live]. rewrite Hentry.
  by rewrite decide_False.
Qed.

Lemma release_last (h : Handle) st (r : ReferenceEntry) :
  ref_id h ∈ live st ->
  references st !! ref_key h = Some r ->
  (counter r - 1)%Z = 0%Z ->
  release h st
  = destroyReferencedObject (object r)
      (set_references (delete (ref_key h) (references st))
         (set_live (live st ∖ {[ref_id h]}) st)).
Proof.
  intros Hlive Hentry Hcount. unfold release.
  rewrite decide_True by done. cbn [references set_live]. rewrite Hentry.
  by rewrite decide_True.
Qed.

Lemma destroyReferencedObject_fulfilled (model : ITextEditorModel) st :
  destroyReferencedObject (TPromise_as model) st = record (destroyed model) st.
Proof. by destruct model. Qed.

(** X5. A resource whose key has no entry in the reference collection is
    resolved twice, the first resolution being fulfilled. The second one is
    fulfilled with the same model and builds nothing: the world and the log
    are as the first left them, and the key counts two handles. Disposing
    the first reference destroys nothing and leaves one handle; disposing
    the second one then destroys the model, through the file model manager
    when it is file-backed and directly otherwise, and removes the entry;
    disposing it once more changes nothing. *)
Theorem shared_model_destroyed_with_last_reference (resource : URI) st
    (ref1 : IReference) :
  scheme resource ≠ UNTITLED_SCHEMA ->
  scheme resource ≠ "inmemory" ->
  references st !! URI_toString resource = None ->
  (createModelReference resource st).1 = TPromise_as ref1 ->
  let key := URI_toString resource in
  let st1 := (createModelReference resource st).2 in
  let st2 := (createModelReference resource st1).2 in
  ∃ ref2,
    (createModelReference resource st1).1 = TPromise_as ref2
    ∧ reference_object ref2 = reference_object ref1
    ∧ world st2 = world st1 ∧ log st2 = log st1
    ∧ refcount key st1 = 1%Z ∧ refcount key st2 = 2%Z
    ∧ log (disposeReference ref1 st2) = log st2
    ∧ refcount key (disposeReference ref1 st2) = 1%Z
    ∧ log (disposeReference ref2 (disposeReference ref1 st2))
      = log st2 ++ [destroyed (reference_object ref1)]
    ∧ references (disposeReference ref2 (disposeReference ref1 st2))
      = references st
    ∧ disposeReference ref2 (disposeReference ref2 (disposeReference ref1 st2))
      = disposeReference ref2 (disposeReference ref1 st2).
Proof.
  intros Huntitled Hinmemory Hfresh Hok key st1 st2.
  assert (Hcall : ∀ st', createModelReference resource st'
    = match ref_object (acquire key st').1 with
      | TPromise_as model =>
          (TPromise_as (CollectionReference model (acquire key st').1),
           (acquire key st').2)
      | TPromise_wrapError err =>
          (TPromise_wrapError err,
           release (acquire key st').1 (acquire key st').2)
      end).
  { intros st'. unfold createModelReference.
    rewrite decide_False by done. rewrite decide_False by done.
    fold key. by destruct (acquire key st') as [ref st'']. }
  destruct (acquire_spec key st) as (e1 & stc & Hs & He1 & Hacq1).
  fold key in Hfresh. rewrite Hfresh in He1. destruct He1 as [He1 Hstc].
  assert (Hcount : counter e1 = 0%Z) by (by rewrite He1).
  unfold st2, st1. rewrite (Hcall st) in Hok |- *. rewrite Hacq1 in Hok |- *.
  cbn [fst snd ref_object] in Hok |- *.
  destruct (object e1) as [model|err] eqn:Hobj; [|discriminate Hok].
  cbn [fst snd] in Hok |- *. injection Hok as <-.
  set (stA := set_nextReference _ _).
  assert (HentryA : references stA !! key
                    = Some {| object := TPromise_as model; counter := counter e1 + 1 |}).
  { subst stA. cbn. by rewrite lookup_insert_eq. }
  destruct (acquire_spec key stA) as (e2 & stA' & _ & He2 & Hacq2).
  rewrite HentryA in He2. destruct He2 as [-> ->].
  rewrite (Hcall stA), Hacq2. cbn [fst snd ref_object object counter].
  set (h1 := {| ref_object := TPromise_as model; ref_key := key;
                ref_id := nextReference st |}).
  set (h2 := {| ref_object := TPromise_as model; ref_key := key;
                ref_id := nextReference stA |}).
  set (stB := set_nextReference (S (nextReference stA)) _).
  exists (CollectionReference model h2).
  split; [done|]. split; [done|]. split; [done|]. split; [done|].
  split. { unfold refcount. rewrite HentryA. cbn. lia. }
  assert (HentryB : references stB !! key
                    = Some {| object := TPromise_as model;
                              counter := counter e1 + 1 + 1 |}).
  { subst stB. cbn. by rewrite lookup_insert_eq. }
  split. { unfold refcount. rewrite HentryB. cbn. lia. }
  assert (Hnext : nextReference stA = S (nextReference st)) by done.
  assert (Hh1 : ref_id h1 ∈ live stB).
  { subst stB stA h1. cbn. rewrite !elem_of_union, !elem_of_singleton. tauto. }
  cbn [disposeReference].
  rewrite (release_not_last h1 stB _ Hh1 HentryB) by (cbn; lia).
  cbn [object counter ref_key ref_id h1].
  set (stC := set_references _ _).
  split; [done|].
  assert (HentryC : references stC !! key
                    = Some {| object := TPromise_as model;
                              counter := counter e1 + 1 + 1 - 1 |}).
  { subst stC. cbn. by rewrite lookup_insert_eq. }
  split. { unfold refcount. rewrite HentryC. cbn. lia. }
  assert (Hh2 : ref_id h2 ∈ live stC).
  { subst stC stB stA h2. cbn. rewrite elem_of_difference, !elem_of_union,
      !elem_of_singleton. split; [tauto|lia]. }
  rewrite (release_last h2 stC _ Hh2 HentryC) by (cbn; lia).
  cbn [object]. rewrite destroyReferencedObject_fulfilled.
  split; [done|]. split.
  { subst stC stB stA. cbn. rewrite !delete_insert_eq.
    by apply delete_id. }
  unfold release at 1. rewrite decide_False; [done|].
  subst stC stB stA h2. cbn. rewrite elem_of_difference, elem_of_singleton.
  tauto.
Qed.

End MoreReferences.

Section MoreSavers.

Context {World : Type} `{!Collaborators World}.

Implicit Types st : State World.

(** X6. Registering a saver for a scheme that has none returns a
    registration; from then on every resource of that scheme supports
    saving and no other resource changes; disposing the registration gives
    back the service exactly as it was before. *)
Theorem saver_registration_round_trip (s : string) (saver : ITextModelSaver) st :
  _modelSaver st !! s = None ->
  let st1 := (registerTextModelSaver s saver st).2 in
  ∃ h,
    (registerTextModelSaver s saver st).1 = Return h
    ∧ (∀ r, scheme r = s -> supportsSave r st1 = true)
    ∧ (∀ r, scheme r ≠ s -> supportsSave r st1 = supportsSave r st)
    ∧ (∀ r, supportsSave r (disposeSaverRegistration h st1) = supportsSave r st)
    ∧ disposeSaverRegistration h st1 = st.
Proof.
  intros Hfree st1. subst st1.
  rewrite registerTextModelSaver_fresh by done. cbn [fst snd].
  exists {| saver_scheme := s |}.
  assert (Hback : disposeSaverRegistration {| saver_scheme := s |}
                    (set_modelSaver (<[s := saver]> (_modelSaver st)) st) = st).
  { destruct st as [ps refs lv nx em savers w lg]. cbn in *.
    unfold disposeSaverRegistration, set_modelSaver. cbn.
    rewrite delete_insert_eq. by rewrite delete_id. }
  split; [done|]. split; [|split; [|split]].
  - intros r <-. unfold supportsSave. cbn. rewrite lookup_insert_eq.
    by apply bool_decide_eq_true_2.
  - intros r Hne. unfold supportsSave. cbn. by rewrite lookup_insert_ne.
  - intros r. by rewrite Hback.
  - exact Hback.
Qed.

Lemma save_reaches_saver (resource : URI)
    (options : option ITextModelSaveOptions) st (model : IModel)
    (saver : ITextModelSaver) :
  getModel resource (world st) = Some model ->
  _modelSaver st !! scheme resource = Some saver ->
  ∃ later,
    log (save resource options st).2
    = log st ++ [FireState {| type := saving; resource := resource |};
                 SaveTextContent saver resource model options] ++ later.
Proof.
  intros Hmodel Hsaver. unfold save. rewrite Hmodel, Hsaver.
  cbn [world record set_log].
  destruct (saveTextContent saver resource model options (world st))
    as [[[[]|err]|message] w]; cbn.
  - exists [FireState {| type := saved; resource := resource |}].
    by rewrite <- !app_assoc.
  - exists []. by rewrite <- !app_assoc.
  - exists []. by rewrite <- !app_assoc.
Qed.

(** X7. For a resource that has a model, [supportsSave] tells what
    [save] does: it is false exactly when [save] is rejected with
    ['MISSING_SAVER'] and leaves everything as it was, and true exactly
    when [save] fires [saving] and calls the saver registered for the scheme
    of the resource. *)
Theorem supportsSave_decides_save (resource : URI)
    (options : option ITextModelSaveOptions) st (model : IModel) :
  getModel resource (world st) = Some model ->
  (supportsSave resource st = false
   ↔ save resource options st
     = (Return (TPromise_wrapError "MISSING_SAVER"), st))
  ∧ (supportsSave resource st = true
     ↔ ∃ saver later,
         _modelSaver st !! scheme resource = Some saver ∧
         log (save resource options st).2
         = log st ++ [FireState {| type := saving; resource := resource |};
                      SaveTextContent saver resource model options] ++ later).
Proof.
  intros Hmodel. unfold supportsSave.
  destruct (_modelSaver st !! scheme resource) as [saver|] eqn:Hsaver.
  - destruct (save_reaches_saver resource options st model saver Hmodel Hsaver)
      as [later Hlater].
    split.
    + split.
      * intros Hfalse. apply bool_decide_eq_false in Hfalse.
        exfalso. apply Hfalse. by eauto.
      * intros Heq. exfalso. rewrite Heq in Hlater. cbn in Hlater.
        apply (f_equal length) in Hlater. rewrite length_app in Hlater.
        cbn in Hlater. lia.
    + split.
      * intros _. by exists saver, later.
      * intros _. apply bool_decide_eq_true_2. by eauto.
  - split.
    + split.
      * intros _. unfold save. by rewrite Hmodel, Hsaver.
      * intros _. apply bool_decide_eq_false. by intros [? ?].
    + split.
      * intros Htrue. apply bool_decide_eq_true in Htrue.
        by destruct Htrue as [? ?].
      * by intros (saver & later & ? & _).
Qed.

Lemma foldr_delete_twice {A} (m : gmap nat A) (js : list nat) :
  foldr delete (foldr delete m js) js = foldr delete m js.
Proof.
  apply map_eq. intros j. destruct (decide (j ∈ js)) as [Hin|Hout].
  - by rewrite !lookup_foldr_delete.
  - by rewrite !lookup_foldr_delete_not_elem_of.
Qed.

Lemma modelEvent_disposed (ev : ModelEvent) st :
  modelEvent ev (dispose st) = dispose st.
Proof.
  destruct st as [ps refs lv nx em savers w lg].
  destruct ev as [m|m|m]; reflexivity.
Qed.

(** X8. Once the service is disposed, no notification of the model
    service changes it: models added are not listened to and content
    changes fire no [dirty] event. Disposing it again changes nothing.
    [save] is not affected: it has the result and fires the events it had
    before the disposal. *)
Theorem disposed_service_hears_nothing (evs : list ModelEvent) (resource : URI)
    (options : option ITextModelSaveOptions) st :
  foldl (fun st ev => modelEvent ev st) (dispose st) evs = dispose st
  ∧ dispose (dispose st) = dispose st
  ∧ (save resource options (dispose st)).1 = (save resource options st).1
  ∧ log (save resource options (dispose st)).2
    = log (save resource options st).2.
Proof.
  split; [|split].
  - induction evs as [|ev evs IH]; [done|].
    cbn. by rewrite modelEvent_disposed.
  - destruct st as [ps refs lv nx em savers w lg].
    unfold dispose, set_onDidChangeModelContent. cbn. f_equal.
    unfold ModelChangeEventEmitter.dispose. cbn. f_equal.
    apply foldr_delete_twice.
  - change (world (dispose st)) with (world st).
    change (_modelSaver (dispose st)) with (_modelSaver st).
    unfold save.
    change (world (dispose st)) with (world st).
    change (_modelSaver (dispose st)) with (_modelSaver st).
    destruct (getModel resource (world st)) as [model|]; [|done].
    destruct (_modelSaver st !! scheme resource) as [saver|]; [|done].
    cbn [world record set_log log].
    change (world (dispose st)) with (world st).
    destruct (saveTextContent saver resource model options (world st))
      as [[[]|err] w]; by split.
Qed.

End MoreSavers.

(** X9. Notifications the model service does not normally send. A model
    announced twice to a subscribed emitter gets two listeners, of which the
    emitter records the second only; when the model is then removed, the
    first listener stays attached although the emitter has forgotten the
    model, and a content change of the model still fires the unified event.
    The removal of a model that has no recorded listener changes nothing. *)
Theorem model_added_twice_leaves_a_listener (m : IModel)
    (e : ModelChangeEventEmitter.t) :
  ModelChangeEventEmitter._toDispose e = true ->
  ModelChangeEventEmitter._onDidChangeContent e = true ->
  let twice :=
    ModelChangeEventEmitter.onModelAdded m
      (ModelChangeEventEmitter.onModelAdded m e) in
  let after := ModelChangeEventEmitter.onModelRemoved m twice in
  ModelChangeEventEmitter.attached twice
    !! ModelChangeEventEmitter.next e = Some m
  ∧ ModelChangeEventEmitter.attached twice
      !! S (ModelChangeEventEmitter.next e) = Some m
  ∧ ModelChangeEventEmitter._modelListener after !! m = None
  ∧ ModelChangeEventEmitter.attached after
      !! ModelChangeEventEmitter.next e = Some m
  ∧ m ∈ ModelChangeEventEmitter.contentChanged m after
  ∧ ∀ m', ModelChangeEventEmitter._modelListener e !! m' = None ->
          ModelChangeEventEmitter.onModelRemoved m' e = e.
Proof.
  intros Hsub Hlive twice after.
  assert (Htwice : twice = ModelChangeEventEmitter._onModelAdded m
                             (ModelChangeEventEmitter._onModelAdded m e)).
  { subst twice. unfold ModelChangeEventEmitter.onModelAdded.
    rewrite Hsub. cbn. by rewrite Hsub. }
  assert (Hafter : after = ModelChangeEventEmitter._onModelRemoved m twice).
  { subst after. unfold ModelChangeEventEmitter.onModelRemoved.
    rewrite Htwice. cbn. by rewrite Hsub. }
  assert (Hatt : ModelChangeEventEmitter.attached after
                   !! ModelChangeEventEmitter.next e = Some m).
  { rewrite Hafter, Htwice. cbn. rewrite lookup_insert_eq.
    rewrite lookup_delete_ne by lia. rewrite lookup_insert_ne by lia.
    by rewrite lookup_insert_eq. }
  split; [|split; [|split; [|split; [|split]]]].
  - rewrite Htwice. cbn. rewrite lookup_insert_ne by lia.
    by rewrite lookup_insert_eq.
  - rewrite Htwice. cbn. by rewrite lookup_insert_eq.
  - rewrite Hafter. cbn. apply lookup_delete_eq.
  - exact Hatt.
  - unfold ModelChangeEventEmitter.contentChanged.
    replace (ModelChangeEventEmitter._onDidChangeContent after) with true
      by (by rewrite Hafter, Htwice).
    apply list_elem_of_fmap. exists (ModelChangeEventEmitter.next e).
    split; [done|]. unfold ModelChangeEventEmitter.listenersOf.
    apply list_elem_of_fmap. exists (ModelChangeEventEmitter.next e, m).
    split; [done|]. apply list_elem_of_filter. split; [done|].
    by apply elem_of_map_to_list.
  - intros m' Hnone. unfold ModelChangeEventEmitter.onModelRemoved.
    rewrite Hsub. unfold ModelChangeEventEmitter._onModelRemoved.
    rewrite Hnone, delete_id by done. by destruct e.
Qed.

(** X5 at work: [demo:x] resolved twice with provider 1 registered. *)
Lemma shared_model_destroyed_with_last_reference_demo :
  let st :=
    (registerTextModelContentProvider "demo" (ContentProvider 1)
       (create Demo.empty)).2 in
  let model := ResourceEditorModel Demo.x in
  let ref1 :=
    CollectionReference model
      {| ref_object := TPromise_as model; ref_key := "demo:x"; ref_id := 0 |} in
  let st2 := (createModelReference Demo.x (createModelReference Demo.x st).2).2 in
  scheme Demo.x ≠ UNTITLED_SCHEMA ∧
  scheme Demo.x ≠ "inmemory" ∧
  references st !! URI_toString Demo.x = None ∧
  (createModelReference Demo.x st).1 = TPromise_as ref1 ∧
  providerCalls (log st2) = [(ContentProvider 1, Demo.x)] ∧
  refcount "demo:x" st2 = 2%Z ∧
  ∃ ref2,
    log (disposeReference ref2 (disposeReference ref1 st2))
    = log st2 ++ [DisposeModel model].
Proof.
  intros st model ref1 st2.
  assert (Huntitled : scheme Demo.x ≠ UNTITLED_SCHEMA) by discriminate.
  assert (Hinmemory : scheme Demo.x ≠ "inmemory") by discriminate.
  assert (Hfresh : references st !! URI_toString Demo.x = None)
    by (vm_compute; reflexivity).
  assert (Hok : (createModelReference Demo.x st).1 = TPromise_as ref1)
    by (vm_compute; reflexivity).
  destruct (shared_model_destroyed_with_last_reference Demo.x st ref1
              Huntitled Hinmemory Hfresh Hok)
    as (ref2 & _ & _ & _ & _ & _ & Htwo & _ & _ & Hlog & _).
  split; [exact Huntitled|]. split; [exact Hinmemory|].
  split; [exact Hfresh|]. split; [exact Hok|].
  split; [vm_compute; reflexivity|]. split; [exact Htwo|].
  exists ref2. exact Hlog.
Defined.

(** X6 at work: a saver for [demo]. *)
Lemma saver_registration_round_trip_demo :
  let st := create Demo.with_x in
  let st1 := (registerTextModelSaver "demo" (ModelSaver 1) st).2 in
  _modelSaver st !! "demo" = None ∧
  supportsSave Demo.x st = false ∧
  supportsSave Demo.x st1 = true ∧
  ∃ h, (registerTextModelSaver "demo" (ModelSaver 1) st).1 = Return h ∧
       disposeSaverRegistration h st1 = st.
Proof.
  intros st st1.
  assert (Hfree : _modelSaver st !! "demo" = None) by (vm_compute; reflexivity).
  destruct (saver_registration_round_trip "demo" (ModelSaver 1) st Hfree)
    as (h & Hh & Hyes & _ & _ & Hback).
  split; [exact Hfree|]. split; [vm_compute; reflexivity|].
  split; [exact (Hyes Demo.x eq_refl)|].
  exists h. split; [exact Hh|exact Hback].
Defined.

(** X7 at work: [demo:x] has a model; without a saver [save] is refused,
    with one the saver is called. *)
Lemma supportsSave_decides_save_demo :
  let st := create Demo.with_x in
  let st1 := (registerTextModelSaver "demo" (ModelSaver 1) st).2 in
  getModel Demo.x (world st) = Some Demo.model_x ∧
  getModel Demo.x (world st1) = Some Demo.model_x ∧
  supportsSave Demo.x st = false ∧
  save Demo.x None st = (Return (TPromise_wrapError "MISSING_SAVER"), st) ∧
  supportsSave Demo.x st1 = true ∧
  ∃ saver later,
    _modelSaver st1 !! scheme Demo.x = Some saver ∧
    log (save Demo.x None st1).2
    = log st1 ++ [FireState {| type := saving; resource := Demo.x |};
                  SaveTextContent saver Demo.x Demo.model_x None] ++ later.
Proof.
  intros st st1.
  assert (Hmodel : getModel Demo.x (world st) = Some Demo.model_x)
    by (vm_compute; reflexivity).
  assert (Hmodel1 : getModel Demo.x (world st1) = Some Demo.model_x)
    by (vm_compute; reflexivity).
  assert (Hno : supportsSave Demo.x st = false) by (vm_compute; reflexivity).
  assert (Hyes : supportsSave Demo.x st1 = true) by (vm_compute; reflexivity).
  split; [exact Hmodel|]. split; [exact Hmodel1|]. split; [exact Hno|].
  split.
  { exact (proj1 (proj1 (supportsSave_decides_save Demo.x None st Demo.model_x
                           Hmodel)) Hno). }
  split; [exact Hyes|].
  exact (proj1 (proj2 (supportsSave_decides_save Demo.x None st1 Demo.model_x
                         Hmodel1)) Hyes).
Defined.

(** X9 at work: the model of [demo:x] announced twice to a new emitter,
    then removed. *)
Lemma model_added_twice_leaves_a_listener_demo :
  let e := ModelChangeEventEmitter.create in
  let after :=
    ModelChangeEventEmitter.onModelRemoved Demo.model_x
      (ModelChangeEventEmitter.onModelAdded Demo.model_x
         (ModelChangeEventEmitter.onModelAdded Demo.model_x e)) in
  ModelChangeEventEmitter._toDispose e = true ∧
  ModelChangeEventEmitter._onDidChangeContent e = true ∧
  ModelChangeEventEmitter._modelListener after !! Demo.model_x = None ∧
  ModelChangeEventEmitter.attached after !! 0 = Some Demo.model_x ∧
  Demo.model_x ∈ ModelChangeEventEmitter.contentChanged Demo.model_x after.
Proof.
  intros e after.
  destruct (model_added_twice_leaves_a_listener Demo.model_x e eq_refl eq_refl)
    as (_ & _ & Hforgotten & Hattached & Hfires & _).
  split; [reflexivity|]. split; [reflexivity|].
  split; [exact Hforgotten|]. split; [exact Hattached|exact Hfires].
Defined.

(** ** Properties of [ResourceEditorInput] *)

Section InputProperties.

Context {World : Type} `{!Collaborators World}.

Implicit Types st : State World.
Implicit Types i : ResourceEditorInput.t.

(** Whether a state event is about the resource of the input. *)
Lemma onDirtyStateChange_other (e : ITextModelStateChangeEvent) i :
  URI_toString (resource e) ≠ URI_toString (ResourceEditorInput.resource i) ->
  ResourceEditorInput.onDirtyStateChange e i = i.
Proof.
  intros Hne. unfold ResourceEditorInput.onDirtyStateChange.
  by rewrite decide_False.
Qed.

Lemma onDirtyStateChange_dirty (e : ITextModelStateChangeEvent) i :
  URI_toString (resource e) = URI_toString (ResourceEditorInput.resource i) ->
  ResourceEditorInput.dirty (ResourceEditorInput.onDirtyStateChange e i)
  = Some (ResourceEditorInput.isDirtyType (type e)).
Proof.
  intros Heq. unfold ResourceEditorInput.onDirtyStateChange.
  by rewrite decide_True.
Qed.

Lemma onDirtyStateChange_resource (e : ITextModelStateChangeEvent) i :
  ResourceEditorInput.resource (ResourceEditorInput.onDirtyStateChange e i)
  = ResourceEditorInput.resource i
  ∧ ResourceEditorInput.toUnbind (ResourceEditorInput.onDirtyStateChange e i)
    = ResourceEditorInput.toUnbind i.
Proof.
  unfold ResourceEditorInput.onDirtyStateChange.
  destruct (decide _); [|done]. cbn. by destruct (decide _).
Qed.

(** X10. While its listener is registered, the dirty flag of an input after
    any sequence of state events of the service is decided by the last event
    whose resource prints as the input's own: it is [true] when that event is
    ['dirty'] and [false] for any other type; without such an event the flag
    is what it was. *)
Theorem input_dirty_follows_last_event (evs : list ITextModelStateChangeEvent)
    i :
  ResourceEditorInput.toUnbind i = true ->
  let about e :=
    URI_toString (resource e) = URI_toString (ResourceEditorInput.resource i) in
  ResourceEditorInput.isDirty
    (foldl (fun i e => ResourceEditorInput.onDidChangeState e i) i evs)
  = match last (filter about evs) with
    | Some e => Some (ResourceEditorInput.isDirtyType (type e))
    | None => ResourceEditorInput.isDirty i
    end.
Proof.
  intros Hlisten about. revert i Hlisten about.
  induction evs as [|e evs IH]; intros i Hlisten about; [done|].
  cbn [foldl].
  destruct (onDirtyStateChange_resource e i) as [Hres Hun].
  assert (Hstep : ResourceEditorInput.onDidChangeState e i
                  = ResourceEditorInput.onDirtyStateChange e i).
  { unfold ResourceEditorInput.onDidChangeState. by rewrite Hlisten. }
  rewrite Hstep. rewrite IH by congruence. rewrite Hres.
  fold about. destruct (decide (about e)) as [Habout|Hother].
  - rewrite (filter_cons_True about) by done.
    rewrite last_cons. destruct (last (filter about evs)) as [e'|]; [done|].
    unfold ResourceEditorInput.isDirty. by apply onDirtyStateChange_dirty.
  - rewrite (filter_cons_False about) by done.
    by rewrite onDirtyStateChange_other.
Qed.

(** X11. A state event about the input's resource fires the dirty-change
    event exactly when it changes the flag: delivered a second time it
    changes nothing, it fires on an input whose flag was never set, and it
    leaves the fired events alone exactly when the flag already had the
    event's value. *)
Theorem input_dirty_change_fires_once (e : ITextModelStateChangeEvent) i :
  URI_toString (resource e) = URI_toString (ResourceEditorInput.resource i) ->
  let i1 := ResourceEditorInput.onDirtyStateChange e i in
  ResourceEditorInput.onDirtyStateChange e i1 = i1
  ∧ (ResourceEditorInput.dirty i = None ->
     ResourceEditorInput.fired i1
     = ResourceEditorInput.fired i ++ [ResourceEditorInput.DidChangeDirty])
  ∧ (ResourceEditorInput.fired i1 = ResourceEditorInput.fired i
     ↔ ResourceEditorInput.dirty i
       = Some (ResourceEditorInput.isDirtyType (type e))).
Proof.
  intros Habout i1. subst i1.
  destruct i as [mr r n d tu dy f]. cbn in Habout |- *.
  unfold ResourceEditorInput.onDirtyStateChange,
    ResourceEditorInput.eventResource. cbn.
  rewrite !(decide_True (P := URI_toString (resource e) = URI_toString r))
    by done.
  generalize (ResourceEditorInput.isDirtyType (type e)). intros b.
  split; [|split].
  - destruct (decide (Some b ≠ dy)) as [Hne|Heq]; cbn;
      rewrite (decide_False (P := Some b ≠ Some b))
        by (intros Hx; by apply Hx);
      by rewrite (decide_True (P := URI_toString (resource e) = URI_toString r)).
  - intros ->. by rewrite decide_True.
  - destruct (decide (Some b ≠ dy)) as [Hne|Heq]; cbn.
    + split.
      * intros Hfired. apply (f_equal length) in Hfired.
        rewrite length_app in Hfired. cbn in Hfired. lia.
      * intros Hsame. by rewrite Hsame in Hne.
    + split; [|done]. intros _. by apply dec_stable in Heq.
Qed.

Lemma listen_appended (l : list Action) (i : ResourceEditorInput.t) st :
  ResourceEditorInput.listen (log st) (set_log (log st ++ l) st) i
  = foldl (fun i e => ResourceEditorInput.onDidChangeState e i) i
          (stateEvents l).
Proof.
  unfold ResourceEditorInput.listen. cbn [log set_log].
  by rewrite drop_app_length.
Qed.

(** X12. An input that listens to the service and saves a resource whose
    saver returns a promise that is rejected is fulfilled with [false], hears
    ['saving'] as the only state event of the call, and so ends up not dirty:
    an input that was dirty fires its dirty-change event although nothing
    was saved. *)
Theorem failed_save_leaves_input_clean i st (model : IModel)
    (saver : ITextModelSaver) (err : string) (w : World) :
  ResourceEditorInput.toUnbind i = true ->
  getModel (ResourceEditorInput.resource i) (world st) = Some model ->
  _modelSaver st !! scheme (ResourceEditorInput.resource i) = Some saver ->
  saveTextContent saver (ResourceEditorInput.resource i) model None (world st)
  = (Return (TPromise_wrapError err), w) ->
  let heard :=
    ResourceEditorInput.listen (log st) (ResourceEditorInput.save i st).2 i in
  (ResourceEditorInput.save i st).1 = Return (TPromise_as false)
  ∧ stateEvents (drop (length (log st))
                   (log (ResourceEditorInput.save i st).2))
    = [{| type := saving; resource := ResourceEditorInput.resource i |}]
  ∧ ResourceEditorInput.isDirty heard = Some false
  ∧ (ResourceEditorInput.dirty i = Some true ->
     ResourceEditorInput.fired heard
     = ResourceEditorInput.fired i ++ [ResourceEditorInput.DidChangeDirty]).
Proof.
  intros Hlisten Hmodel Hsaver Hfail heard. subst heard.
  unfold ResourceEditorInput.listen, ResourceEditorInput.save, save.
  rewrite Hmodel, Hsaver. cbn [world record set_log]. rewrite Hfail.
  unfold record. cbn [fst snd log set_world set_log]. rewrite <- app_assoc.
  rewrite drop_app_length. cbn.
  unfold ResourceEditorInput.onDidChangeState. rewrite Hlisten.
  unfold ResourceEditorInput.onDirtyStateChange,
    ResourceEditorInput.eventResource. cbn [resource type].
  rewrite decide_True by done. cbn.
  split; [done|]. split; [done|]. split; [done|].
  intros ->. by rewrite decide_True.
Qed.

(** X13. [save()] of an input changes the service as the service's [save]
    of the input's resource without options does, and never returns a
    rejected promise. It is fulfilled with [true] exactly when the model
    service holds a model for the resource, a saver is registered for its
    scheme, and that saver returns a promise that is fulfilled. It throws
    exactly when such a saver throws instead of returning a promise, and
    throws what the saver throws. In every other case it is fulfilled with
    [false]. *)
Theorem input_save_reports_success i st :
  let called := ResourceEditorInput.save i st in
  let saverGives outcome :=
    ∃ model saver w,
      getModel (ResourceEditorInput.resource i) (world st) = Some model ∧
      _modelSaver st !! scheme (ResourceEditorInput.resource i) = Some saver ∧
      saveTextContent saver (ResourceEditorInput.resource i) model None
        (world st) = (outcome, w) in
  called.2 = (save (ResourceEditorInput.resource i) None st).2
  ∧ (called.1 = Return (TPromise_as true)
     ↔ ∃ u, saverGives (Return (TPromise_as u)))
  ∧ (∀ message, called.1 = Throw message ↔ saverGives (Throw message))
  ∧ (called.1 = Return (TPromise_as false)
     ↔ (¬ ∃ u, saverGives (Return (TPromise_as u)))
       ∧ ¬ ∃ message, saverGives (Throw message))
  ∧ (∀ err, called.1 ≠ Return (TPromise_wrapError err)).
Proof.
  intros called saverGives. subst called.
  unfold ResourceEditorInput.save, save.
  destruct (getModel (ResourceEditorInput.resource i) (world st))
    as [model|] eqn:Hmodel.
  2: { cbn [fst snd]. split; [done|]. split; [|split; [|split]].
       - split; [done|]. by intros (u & ? & ? & ? & ? & _).
       - intros message. split; [done|]. by intros (? & ? & ? & ? & _).
       - split; [|done]. intros _. split.
         + by intros (u & ? & ? & ? & ? & _).
         + by intros (message & ? & ? & ? & ? & _).
       - done. }
  destruct (_modelSaver st !! scheme (ResourceEditorInput.resource i))
    as [saver|] eqn:Hsaver.
  2: { cbn [fst snd]. split; [done|]. split; [|split; [|split]].
       - split; [done|]. by intros (u & ? & ? & ? & _ & ? & _).
       - intros message. split; [done|]. by intros (? & ? & ? & _ & ? & _).
       - split; [|done]. intros _. split.
         + by intros (u & ? & ? & ? & _ & ? & _).
         + by intros (message & ? & ? & ? & _ & ? & _).
       - done. }
  cbn [world record set_log].
  assert (Hgives : ∀ outcome,
    saverGives outcome
    ↔ (saveTextContent saver (ResourceEditorInput.resource i) model None
         (world st)).1 = outcome).
  { intros outcome. subst saverGives. cbn beta. split.
    - intros (model' & saver' & w' & [= <-] & [= <-] & ->). done.
    - intros <-.
      exists model, saver,
        (saveTextContent saver (ResourceEditorInput.resource i) model None
           (world st)).2.
      split; [done|]. split; [done|].
      by destruct (saveTextContent _ _ _ _ _). }
  destruct (saveTextContent saver (ResourceEditorInput.resource i) model None
              (world st)) as [[[u|err]|message] w] eqn:Hsave;
    cbn [fst snd] in *.
  - split; [done|]. split; [|split; [|split]].
    + split; [|done]. intros _. exists u. by apply Hgives.
    + intros message. split; [done|]. intros Hthrow.
      by apply Hgives in Hthrow.
    + split; [done|]. intros [Hnot _]. destruct Hnot. exists u.
      by apply Hgives.
    + done.
  - split; [done|]. split; [|split; [|split]].
    + split; [done|]. intros [u Hu]. by apply Hgives in Hu.
    + intros message. split; [done|]. intros Hthrow.
      by apply Hgives in Hthrow.
    + split; [|done]. intros _. split.
      * intros [u Hu]. by apply Hgives in Hu.
      * intros [message Hthrow]. by apply Hgives in Hthrow.
    + done.
  - split; [done|]. split; [|split; [|split]].
    + split; [done|]. intros [u Hu]. by apply Hgives in Hu.
    + intros message'. rewrite Hgives. split; congruence.
    + split; [done|]. intros [_ Hnot]. destruct Hnot. exists message.
      by apply Hgives.
    + done.
Qed.

(** Disposing right away the reference that [createModelReference] was
    fulfilled with gives every key the count it had. *)
Lemma createModelReference_dispose_refcount (resource : URI) st
    (ref : IReference) :
  (createModelReference resource st).1 = TPromise_as ref ->
  ∀ key, refcount key (disposeReference ref (createModelReference resource st).2)
         = refcount key st.
Proof.
  unfold createModelReference.
  destruct (decide (scheme resource = UNTITLED_SCHEMA)).
  { destruct (untitled_loadOrCreate _ _) as [[model|err] w]; cbn [fst snd];
      [|discriminate]. by intros [= <-] key. }
  destruct (decide (scheme resource = "inmemory")).
  { destruct (getModel resource (world st)); cbn [fst snd]; [|discriminate].
    by intros [= <-] key. }
  pose proof (refcount_release_acquire (URI_toString resource) st) as Hcount.
  destruct (acquire (URI_toString resource) st) as [h st1].
  cbn [fst snd] in *.
  destruct (ref_object h) as [model|err]; cbn [fst snd]; [|discriminate].
  intros [= <-] key. cbn [disposeReference]. apply Hcount.
Qed.

(** X14. When the reference an input resolves to holds a model that is no
    [ResourceEditorModel], [resolve] is rejected with
    ['Unexpected model for ResourceInput: <resource>'], the reference is
    disposed and forgotten by the input, and every key of the service has the
    reference count it had before. *)
Theorem resolve_unexpected_model_releases i st (ref : IReference) :
  ResourceEditorInput.modelReference i = None ->
  (createModelReference (ResourceEditorInput.resource i) st).1
  = TPromise_as ref ->
  (∀ r, reference_object ref ≠ ResourceEditorModel r) ->
  ResourceEditorInput.resolve i st
  = (TPromise_wrapError
       ("Unexpected model for ResourceInput: "
        +:+ URI_toString (ResourceEditorInput.resource i)),
     i,
     disposeReference ref
       (createModelReference (ResourceEditorInput.resource i) st).2)
  ∧ ∀ key, refcount key (ResourceEditorInput.resolve i st).2 = refcount key st.
Proof.
  intros Hnone Hok Hkind.
  assert (Hresolve : ResourceEditorInput.resolve i st
    = (TPromise_wrapError
         ("Unexpected model for ResourceInput: "
          +:+ URI_toString (ResourceEditorInput.resource i)),
       i,
       disposeReference ref
         (createModelReference (ResourceEditorInput.resource i) st).2)).
  { unfold ResourceEditorInput.resolve. rewrite Hnone.
    destruct (createModelReference (ResourceEditorInput.resource i) st)
      as [p st1]. cbn [fst snd] in *. subst p.
    destruct (reference_object ref) as [r|r|r] eqn:Hmodel.
    - destruct i. cbn in Hnone. by subst.
    - by destruct (Hkind r).
    - destruct i. cbn in Hnone. by subst. }
  split; [exact Hresolve|].
  intros key. rewrite Hresolve. cbn [snd].
  by apply createModelReference_dispose_refcount.
Qed.

(** X15. [resolve] asks the service for a reference once: after a first
    [resolve] that was fulfilled with a model, and after one whose
    [createModelReference] was rejected, every later [resolve] gives the same
    outcome and leaves the service, whatever its state, and the input
    unchanged. *)
Theorem resolve_caches_outcome i st :
  ResourceEditorInput.modelReference i = None ->
  let first_time := ResourceEditorInput.resolve i st in
  (∀ model,
     first_time.1.1 = TPromise_as model ->
     ∀ st', ResourceEditorInput.resolve first_time.1.2 st'
            = (TPromise_as model, first_time.1.2, st'))
  ∧ (∀ err,
       (createModelReference (ResourceEditorInput.resource i) st).1
       = TPromise_wrapError err ->
       first_time.1.1 = TPromise_wrapError err ∧
       ∀ st', ResourceEditorInput.resolve first_time.1.2 st'
              = (TPromise_wrapError err, first_time.1.2, st')).
Proof.
  intros Hnone first_time.
  assert (Hfirst : first_time
    = match createModelReference (ResourceEditorInput.resource i) st with
      | (TPromise_as ref, st1) =>
          match reference_object ref with
          | ResourceEditorModel r =>
              (TPromise_as (ResourceEditorModel r),
               ResourceEditorInput.set_modelReference
                 (Some (TPromise_as ref)) i, st1)
          | _ =>
              (TPromise_wrapError
                 ("Unexpected model for ResourceInput: "
                  +:+ URI_toString (ResourceEditorInput.resource i)),
               i, disposeReference ref st1)
          end
      | (TPromise_wrapError err, st1) =>
          (TPromise_wrapError err,
           ResourceEditorInput.set_modelReference
             (Some (TPromise_wrapError err)) i, st1)
      end).
  { subst first_time. unfold ResourceEditorInput.resolve. rewrite Hnone.
    destruct (createModelReference (ResourceEditorInput.resource i) st)
      as [[ref|err] st1]; [|done].
    destruct (reference_object ref) as [r|r|r]; [|done|];
      destruct i; cbn in Hnone; by subst. }
  rewrite Hfirst. clear Hfirst first_time.
  destruct (createModelReference (ResourceEditorInput.resource i) st)
    as [[ref|err] st1]; cbn [fst snd].
  - split; [|by intros err].
    intros model.
    destruct (reference_object ref) as [r|r|r] eqn:Hmodel; cbn [fst snd];
      try discriminate.
    intros [= <-] st'. unfold ResourceEditorInput.resolve. cbn.
    by rewrite Hmodel.
  - split; [by intros model|].
    intros err' [= <-]. split; [done|]. intros st'.
    unfold ResourceEditorInput.resolve. by cbn.
Qed.

(** X16. Disposing an input that was resolved gives every key of the
    service the reference count it had before the input was resolved, forgets
    the reference, and stops the input from reacting to state events; a
    second [dispose] changes nothing. *)
Theorem input_dispose_releases i st (model : ITextEditorModel) :
  ResourceEditorInput.modelReference i = None ->
  (ResourceEditorInput.resolve i st).1.1 = TPromise_as model ->
  let disposed :=
    ResourceEditorInput.dispose (ResourceEditorInput.resolve i st).1.2
      (ResourceEditorInput.resolve i st).2 in
  (∀ key, refcount key disposed.2 = refcount key st)
  ∧ ResourceEditorInput.modelReference disposed.1 = None
  ∧ (∀ e, ResourceEditorInput.onDidChangeState e disposed.1 = disposed.1)
  ∧ ResourceEditorInput.dispose disposed.1 disposed.2 = disposed.
Proof.
  intros Hnone. unfold ResourceEditorInput.resolve. rewrite Hnone.
  pose proof (createModelReference_dispose_refcount
                (ResourceEditorInput.resource i) st) as Hcount.
  destruct (createModelReference (ResourceEditorInput.resource i) st)
    as [[ref|err] st1]; cbn [fst snd] in *; [|discriminate].
  destruct (reference_object ref) as [r|r|r] eqn:Hmodel; cbn [fst snd];
    try discriminate.
  intros _. unfold ResourceEditorInput.dispose.
  cbn. split; [by apply Hcount|]. done.
Qed.

End InputProperties.

(** X10 at work: four events, three about [demo:x], the last of them
    ['saved']. *)
Lemma input_dirty_follows_last_event_demo :
  let i := ResourceEditorInput.create "x" "demo" Demo.x in
  let other := mkURI "demo" "y" in
  let evs :=
    [ {| type := dirty; resource := Demo.x |};
      {| type := dirty; resource := Demo.x |};
      {| type := saved; resource := Demo.x |};
      {| type := dirty; resource := other |} ] in
  ResourceEditorInput.toUnbind i = true ∧
  ResourceEditorInput.isDirty
    (foldl (fun i e => ResourceEditorInput.onDidChangeState e i) i evs)
  = Some false.
Proof.
  intros i other evs. split; [reflexivity|].
  pose proof (input_dirty_follows_last_event evs i eq_refl) as Hlast.
  exact Hlast.
Defined.

(** X11 at work: ['dirty'] about [demo:x] delivered to a new input. *)
Lemma input_dirty_change_fires_once_demo :
  let i := ResourceEditorInput.create "x" "demo" Demo.x in
  let e := {| type := dirty; resource := Demo.x |} in
  let i1 := ResourceEditorInput.onDirtyStateChange e i in
  URI_toString (resource e) = URI_toString (ResourceEditorInput.resource i) ∧
  ResourceEditorInput.onDirtyStateChange e i1 = i1 ∧
  ResourceEditorInput.fired i1 = [ResourceEditorInput.DidChangeDirty].
Proof.
  intros i e i1.
  assert (Habout : URI_toString (resource e)
                   = URI_toString (ResourceEditorInput.resource i))
    by reflexivity.
  destruct (input_dirty_change_fires_once e i Habout) as (Hagain & Hfirst & _).
  split; [exact Habout|]. split; [exact Hagain|exact (Hfirst eq_refl)].
Defined.

(** X12 at work: a dirty input of [demo:x] saved with saver 0, whose
    promise is rejected. *)
Lemma failed_save_leaves_input_clean_demo :
  let st :=
    (registerTextModelSaver "demo" (ModelSaver 0) (create Demo.with_x)).2 in
  let i :=
    ResourceEditorInput.onDirtyStateChange
      {| type := dirty; resource := Demo.x |}
      (ResourceEditorInput.create "x" "demo" Demo.x) in
  let heard :=
    ResourceEditorInput.listen (log st) (ResourceEditorInput.save i st).2 i in
  ResourceEditorInput.toUnbind i = true ∧
  getModel (ResourceEditorInput.resource i) (world st) = Some Demo.model_x ∧
  _modelSaver st !! scheme (ResourceEditorInput.resource i)
  = Some (ModelSaver 0) ∧
  saveTextContent (ModelSaver 0) (ResourceEditorInput.resource i) Demo.model_x
    None (world st) = (Return (TPromise_wrapError "EACCES"), Demo.with_x) ∧
  ResourceEditorInput.isDirty i = Some true ∧
  (ResourceEditorInput.save i st).1 = Return (TPromise_as false) ∧
  ResourceEditorInput.isDirty heard = Some false ∧
  ResourceEditorInput.fired heard
  = [ResourceEditorInput.DidChangeDirty; ResourceEditorInput.DidChangeDirty].
Proof.
  intros st i heard.
  assert (Hlisten : ResourceEditorInput.toUnbind i = true) by reflexivity.
  assert (Hmodel : getModel (ResourceEditorInput.resource i) (world st)
                   = Some Demo.model_x) by (vm_compute; reflexivity).
  assert (Hsaver : _modelSaver st !! scheme (ResourceEditorInput.resource i)
                   = Some (ModelSaver 0)) by (vm_compute; reflexivity).
  assert (Hfail : saveTextContent (ModelSaver 0)
                    (ResourceEditorInput.resource i) Demo.model_x None
                    (world st)
                  = (Return (TPromise_wrapError "EACCES"), Demo.with_x))
    by (vm_compute; reflexivity).
  destruct (failed_save_leaves_input_clean i st Demo.model_x (ModelSaver 0)
              "EACCES" Demo.with_x Hlisten Hmodel Hsaver Hfail)
    as (Hfalse & _ & Hclean & Hfired).
  split; [exact Hlisten|]. split; [exact Hmodel|]. split; [exact Hsaver|].
  split; [exact Hfail|]. split; [reflexivity|]. split; [exact Hfalse|].
  split; [exact Hclean|]. exact (Hfired eq_refl).
Defined.

(** A saver that throws: saver 2 takes the resource for the model. The
    service's [save] throws after it fired ['saving'], and so does the
    [save] of the input. *)
Example input_save_throws_what_saver_throws :
  let st :=
    (registerTextModelSaver "demo" (ModelSaver 2) (create Demo.with_x)).2 in
  let i := ResourceEditorInput.create "x" "demo" Demo.x in
  (save Demo.x None st).1 = Throw "model.getValue is not a function" ∧
  stateEvents (log (save Demo.x None st).2)
  = [{| type := saving; resource := Demo.x |}] ∧
  (ResourceEditorInput.save i st).1 = Throw "model.getValue is not a function".
Proof. repeat split; vm_compute; reflexivity. Qed.

(** X14 at work: an input of the file [file:/a], which loads as a
    [TextFileEditorModel]. *)
Lemma resolve_unexpected_model_releases_demo :
  let f := mkURI "file" "/a" in
  let st := create Demo.empty in
  let i := ResourceEditorInput.create "a" "file" f in
  let model := TextFileEditorModel f in
  let ref :=
    CollectionReference model
      {| ref_object := TPromise_as model; ref_key := "file:/a"; ref_id := 0 |} in
  ResourceEditorInput.modelReference i = None ∧
  (createModelReference (ResourceEditorInput.resource i) st).1
  = TPromise_as ref ∧
  (∀ r, reference_object ref ≠ ResourceEditorModel r) ∧
  (ResourceEditorInput.resolve i st).1.1
  = TPromise_wrapError "Unexpected model for ResourceInput: file:/a" ∧
  (ResourceEditorInput.resolve i st).1.2 = i ∧
  refcount "file:/a" (createModelReference f st).2 = 1%Z ∧
  refcount "file:/a" (ResourceEditorInput.resolve i st).2 = 0%Z.
Proof.
  intros f st i model ref.
  assert (Hnone : ResourceEditorInput.modelReference i = None) by reflexivity.
  assert (Hok : (createModelReference (ResourceEditorInput.resource i) st).1
                = TPromise_as ref) by (vm_compute; reflexivity).
  assert (Hkind : ∀ r, reference_object ref ≠ ResourceEditorModel r)
    by (intros r; discriminate).
  destruct (resolve_unexpected_model_releases i st ref Hnone Hok Hkind)
    as [Hresolve Hcount].
  split; [exact Hnone|]. split; [exact Hok|]. split; [exact Hkind|].
  split; [by rewrite Hresolve|]. split; [by rewrite Hresolve|].
  split; [vm_compute; reflexivity|].
  rewrite (Hcount "file:/a"). vm_compute; reflexivity.
Defined.

(** X15 at work: [demo:x] resolved with provider 1 registered, then again
    after the service was disposed. *)
Lemma resolve_caches_outcome_demo :
  let st :=
    (registerTextModelContentProvider "demo" (ContentProvider 1)
       (create Demo.empty)).2 in
  let i := ResourceEditorInput.create "x" "demo" Demo.x in
  let first_time := ResourceEditorInput.resolve i st in
  ResourceEditorInput.modelReference i = None ∧
  first_time.1.1 = TPromise_as (ResourceEditorModel Demo.x) ∧
  ResourceEditorInput.resolve first_time.1.2 (dispose first_time.2)
  = (TPromise_as (ResourceEditorModel Demo.x), first_time.1.2,
     dispose first_time.2).
Proof.
  intros st i first_time.
  assert (Hnone : ResourceEditorInput.modelReference i = None) by reflexivity.
  assert (Hok : first_time.1.1 = TPromise_as (ResourceEditorModel Demo.x))
    by (vm_compute; reflexivity).
  destruct (resolve_caches_outcome i st Hnone) as [Hcached _].
  split; [exact Hnone|]. split; [exact Hok|].
  exact (Hcached (ResourceEditorModel Demo.x) Hok (dispose first_time.2)).
Defined.

(** X16 at work: the input of [demo:x] resolved, then disposed. *)
Lemma input_dispose_releases_demo :
  let st :=
    (registerTextModelContentProvider "demo" (ContentProvider 1)
       (create Demo.empty)).2 in
  let i := ResourceEditorInput.create "x" "demo" Demo.x in
  let resolved := ResourceEditorInput.resolve i st in
  let disposed := ResourceEditorInput.dispose resolved.1.2 resolved.2 in
  ResourceEditorInput.modelReference i = None ∧
  resolved.1.1 = TPromise_as (ResourceEditorModel Demo.x) ∧
  refcount "demo:x" resolved.2 = 1%Z ∧
  refcount "demo:x" disposed.2 = 0%Z ∧
  ResourceEditorInput.modelReference disposed.1 = None.
Proof.
  intros st i resolved disposed.
  assert (Hnone : ResourceEditorInput.modelReference i = None) by reflexivity.
  assert (Hok : resolved.1.1 = TPromise_as (ResourceEditorModel Demo.x))
    by (vm_compute; reflexivity).
  destruct (input_dispose_releases i st (ResourceEditorModel Demo.x) Hnone Hok)
    as (Hcount & Hforgotten & _).
  split; [exact Hnone|]. split; [exact Hok|].
  split; [vm_compute; reflexivity|].
  split; [|exact Hforgotten].
  refine (eq_trans (Hcount "demo:x") _). vm_compute; reflexivity.
Defined.

(** ** Properties of the files configuration service *)

Section FilesConfigurationProperties.

Import FilesConfigurationService.

Context {Associations : Type} `{!Platform Associations}.

Implicit Types s : t Associations.
Implicit Types c : option (IFilesConfiguration Associations).

Lemma onFilesConfigurationChange_autoSave c s :
  let s' := onFilesConfigurationChange c s in
  configuredAutoSaveDelay s' = (configured c).1.1
  ∧ configuredAutoSaveOnFocusChange s' = Some (configured c).1.2
  ∧ configuredAutoSaveOnWindowChange s' = Some (configured c).2
  ∧ isExtensionDevelopment s' = isExtensionDevelopment s.
Proof.
  unfold onFilesConfigurationChange, configured.
  generalize (or_string (read files_autoSave c) AutoSaveConfiguration_OFF).
  intros m.
  destruct (read files_hotExit c) as [mode|];
    [destruct (decide (mode = HotExitConfiguration_OFF ∨ _))|];
    destruct (decide (m = AutoSaveConfiguration_AFTER_DELAY));
    try destruct (decide (m = AutoSaveConfiguration_ON_FOCUS_CHANGE));
    try destruct (decide (m = AutoSaveConfiguration_ON_WINDOW_CHANGE));
    cbn; destruct (negb _); done.
Qed.

Lemma getAutoSaveMode_fields s s' :
  configuredAutoSaveDelay s = configuredAutoSaveDelay s' ->
  configuredAutoSaveOnFocusChange s = configuredAutoSaveOnFocusChange s' ->
  configuredAutoSaveOnWindowChange s = configuredAutoSaveOnWindowChange s' ->
  getAutoSaveMode s = getAutoSaveMode s'
  ∧ getAutoSaveConfiguration s = getAutoSaveConfiguration s'.
Proof.
  unfold getAutoSaveMode, getAutoSaveConfiguration. by intros -> -> ->.
Qed.

Lemma onFilesConfigurationChange_independent c s s' :
  getAutoSaveMode (onFilesConfigurationChange c s)
  = getAutoSaveMode (onFilesConfigurationChange c s')
  ∧ getAutoSaveConfiguration (onFilesConfigurationChange c s)
    = getAutoSaveConfiguration (onFilesConfigurationChange c s').
Proof.
  destruct (onFilesConfigurationChange_autoSave c s) as (Hd & Hf & Hw & _).
  destruct (onFilesConfigurationChange_autoSave c s') as (Hd' & Hf' & Hw' & _).
  apply getAutoSaveMode_fields; congruence.
Qed.

Lemma autoSaveEvents_app (l1 l2 : list Fired) :
  autoSaveEvents (l1 ++ l2) = autoSaveEvents l1 ++ autoSaveEvents l2.
Proof. unfold autoSaveEvents. apply omap_app. Qed.

Lemma onFilesConfigurationChange_fired c s :
  autoSaveEvents (fired (onFilesConfigurationChange c s))
  = autoSaveEvents (fired s)
    ++ [getAutoSaveConfiguration (onFilesConfigurationChange c s)].
Proof.
  destruct (onFilesConfigurationChange_autoSave c s) as (Hd & Hf & Hw & _).
  cbn zeta in *.
  assert (Hcfg : getAutoSaveConfiguration (onFilesConfigurationChange c s)
    = {| autoSaveDelay :=
           if positive_delay (configured c).1.1 then (configured c).1.1
           else None;
         autoSaveFocusChange := (configured c).1.2;
         autoSaveApplicationChange := (configured c).2 |}).
  { unfold getAutoSaveConfiguration. by rewrite Hd, Hf, Hw. }
  rewrite Hcfg. clear Hd Hf Hw Hcfg.
  unfold onFilesConfigurationChange, configured.
  generalize (or_string (read files_autoSave c) AutoSaveConfiguration_OFF).
  intros m.
  destruct (read files_hotExit c) as [mode|];
    [destruct (decide (mode = HotExitConfiguration_OFF ∨ _))|];
    destruct (decide (m = AutoSaveConfiguration_AFTER_DELAY));
    try destruct (decide (m = AutoSaveConfiguration_ON_FOCUS_CHANGE));
    try destruct (decide (m = AutoSaveConfiguration_ON_WINDOW_CHANGE));
    cbn; destruct (negb _); cbn;
    rewrite ?autoSaveEvents_app; cbn; by rewrite ?app_nil_r.
Qed.

(** X17. After any configuration change the two getters of auto save
    agree: the mode is [OFF] exactly for the configuration without delay and
    flags, a focus or window mode has its one flag and no delay, and a delay
    mode has a positive delay (at most 1000 for the short one, above it for
    the long one) and no flag. Both answers depend on the configuration
    alone, not on the state the service was in. *)
Theorem auto_save_mode_matches_configuration c s :
  let s' := onFilesConfigurationChange c s in
  let cfg := getAutoSaveConfiguration s' in
  match getAutoSaveMode s' with
  | OFF => cfg = mkAutoSave None false false
  | ON_FOCUS_CHANGE => cfg = mkAutoSave None true false
  | ON_WINDOW_CHANGE => cfg = mkAutoSave None false true
  | AFTER_SHORT_DELAY =>
      ∃ d, cfg = mkAutoSave (Some d) false false
           ∧ (0 < d)%Qc ∧ (d ≤ Qc_of_Z 1000)%Qc
  | AFTER_LONG_DELAY =>
      ∃ d, cfg = mkAutoSave (Some d) false false ∧ (Qc_of_Z 1000 < d)%Qc
  end
  ∧ ∀ s0, getAutoSaveMode (onFilesConfigurationChange c s0) = getAutoSaveMode s'
          ∧ getAutoSaveConfiguration (onFilesConfigurationChange c s0) = cfg.
Proof.
  intros s' cfg. split; [|intros s0; apply onFilesConfigurationChange_independent].
  subst cfg s'.
  destruct (onFilesConfigurationChange_autoSave c s) as (Hd & Hf & Hw & _).
  cbn zeta in *.
  unfold getAutoSaveMode, getAutoSaveConfiguration. rewrite Hd, Hf, Hw.
  clear Hd Hf Hw. unfold configured.
  generalize (or_string (read files_autoSave c) AutoSaveConfiguration_OFF).
  intros m.
  destruct (decide (m = AutoSaveConfiguration_AFTER_DELAY)); cbn.
  - destruct (read files_autoSaveDelay c) as [d|]; cbn; [|done].
    destruct (bool_decide (d ≠ 0%Qc)) eqn:Hnz; cbn; [|done].
    destruct (bool_decide (0 < d)%Qc) eqn:Hpos; cbn; [|done].
    apply bool_decide_eq_true in Hpos.
    destruct (bool_decide (d ≤ Qc_of_Z 1000)%Qc) eqn:Hshort.
    + apply bool_decide_eq_true in Hshort. by exists d.
    + apply bool_decide_eq_false in Hshort. exists d. split; [done|].
      by apply Qcnot_le_lt.
  - destruct (decide (m = AutoSaveConfiguration_ON_FOCUS_CHANGE)); cbn; [done|].
    by destruct (decide (m = AutoSaveConfiguration_ON_WINDOW_CHANGE)).
Qed.

(** X18. With the four constants of [AutoSaveConfiguration] distinct and
    not empty, the [files.autoSave] setting decides the mode: the focus and
    window settings give their modes whatever the delay; ['afterDelay'] is
    [OFF] without a delay or with one that is not positive, short up to 1000
    and long above; every other setting, a missing or empty one too, is
    [OFF]. *)
Theorem auto_save_setting_decides_mode c s :
  NoDup [EmptyString; AutoSaveConfiguration_OFF;
         AutoSaveConfiguration_AFTER_DELAY;
         AutoSaveConfiguration_ON_FOCUS_CHANGE;
         AutoSaveConfiguration_ON_WINDOW_CHANGE] ->
  let mode := getAutoSaveMode (onFilesConfigurationChange c s) in
  let setting := read files_autoSave c in
  (setting = Some AutoSaveConfiguration_ON_FOCUS_CHANGE -> mode = ON_FOCUS_CHANGE)
  ∧ (setting = Some AutoSaveConfiguration_ON_WINDOW_CHANGE ->
     mode = ON_WINDOW_CHANGE)
  ∧ (setting = Some AutoSaveConfiguration_AFTER_DELAY ->
     match read files_autoSaveDelay c with
     | Some d =>
         ((d ≤ 0)%Qc -> mode = OFF)
         ∧ ((0 < d)%Qc -> (d ≤ Qc_of_Z 1000)%Qc -> mode = AFTER_SHORT_DELAY)
         ∧ ((Qc_of_Z 1000 < d)%Qc -> mode = AFTER_LONG_DELAY)
     | None => mode = OFF
     end)
  ∧ (setting ≠ Some AutoSaveConfiguration_ON_FOCUS_CHANGE ->
     setting ≠ Some AutoSaveConfiguration_ON_WINDOW_CHANGE ->
     setting ≠ Some AutoSaveConfiguration_AFTER_DELAY ->
     mode = OFF).
Proof.
  intros Hdistinct mode setting. subst mode setting.
  destruct (onFilesConfigurationChange_autoSave c s) as (Hd & Hf & Hw & _).
  cbn zeta in *.
  unfold getAutoSaveMode. rewrite Hd, Hf, Hw. clear Hd Hf Hw.
  unfold configured.
  repeat match goal with
         | H : NoDup (_ :: _) |- _ => apply NoDup_cons in H as [? ?]
         end.
  repeat match goal with
         | H : _ ∉ _ :: _ |- _ => apply not_elem_of_cons in H as [? ?]
         end.
  assert (Hor : ∀ k d, k ≠ EmptyString -> or_string (Some k) d = k).
  { intros k d Hk. unfold or_string. by rewrite decide_False. }
  split; [|split; [|split]].
  - intros ->. rewrite Hor by congruence.
    rewrite decide_False by congruence. by rewrite decide_True.
  - intros ->. rewrite Hor by congruence.
    rewrite decide_False by congruence. rewrite decide_False by congruence.
    by rewrite decide_True.
  - intros ->. rewrite Hor by congruence. rewrite decide_True by done.
    cbn. destruct (read files_autoSaveDelay c) as [d|]; cbn; [|done].
    split; [|split].
    + intros Hle. destruct (bool_decide (d ≠ 0%Qc)); cbn; [|done].
      rewrite bool_decide_eq_false_2; [done|]. by apply Qcle_not_lt.
    + intros Hpos Hshort.
      rewrite bool_decide_eq_true_2
        by (intros ->; by apply (Qclt_not_eq _ _ Hpos)).
      rewrite bool_decide_eq_true_2 by done. cbn.
      by rewrite bool_decide_eq_true_2.
    + intros Hlong.
      assert (Hpos : (0 < d)%Qc) by (by apply (Qclt_trans _ (Qc_of_Z 1000))).
      rewrite bool_decide_eq_true_2
        by (intros ->; by apply (Qclt_not_eq _ _ Hpos)).
      rewrite bool_decide_eq_true_2 by done. cbn.
      rewrite bool_decide_eq_false_2; [done|]. by apply Qclt_not_le.
  - intros Hn1 Hn2 Hn3.
    assert (Hm : ∀ k, k ≠ AutoSaveConfiguration_OFF -> k ≠ EmptyString ->
                      read files_autoSave c ≠ Some k ->
                      or_string (read files_autoSave c) AutoSaveConfiguration_OFF
                      ≠ k).
    { intros k Hk1 Hk2 Hk3. unfold or_string.
      destruct (read files_autoSave c) as [m|]; [|congruence].
      destruct (decide (m = EmptyString)); congruence. }
    rewrite decide_False by (apply Hm; congruence).
    rewrite decide_False by (apply Hm; congruence).
    rewrite decide_False by (apply Hm; congruence). done.
Qed.

(** X19. After any configuration change the hot exit configuration is the
    [files.hotExit] setting when that is [OFF] or [ON_EXIT_AND_WINDOW_CLOSE],
    and [ON_EXIT] for every other setting or none. With [OFF] different from
    [ON_EXIT], hot exit is disabled exactly in extension development or when
    the setting is [OFF]. *)
Theorem hot_exit_is_normalised c s :
  HotExitConfiguration_OFF ≠ HotExitConfiguration_ON_EXIT ->
  let s' := onFilesConfigurationChange c s in
  let setting := read files_hotExit c in
  (hotExitConfiguration s'
   = if decide (setting = Some HotExitConfiguration_OFF
                ∨ setting = Some HotExitConfiguration_ON_EXIT_AND_WINDOW_CLOSE)
     then default HotExitConfiguration_ON_EXIT setting
     else HotExitConfiguration_ON_EXIT)
  ∧ (isHotExitEnabled s' = false
     ↔ isExtensionDevelopment s = true
       ∨ setting = Some HotExitConfiguration_OFF).
Proof.
  intros Hoff s' setting. subst s' setting.
  destruct (onFilesConfigurationChange_autoSave c s) as (_ & _ & _ & Hdev).
  cbn zeta in Hdev. unfold isHotExitEnabled, hotExitConfiguration.
  rewrite Hdev. clear Hdev.
  assert (Hhot : currentHotExitConfig (onFilesConfigurationChange c s)
    = if decide (read files_hotExit c = Some HotExitConfiguration_OFF
                 ∨ read files_hotExit c
                   = Some HotExitConfiguration_ON_EXIT_AND_WINDOW_CLOSE)
      then default HotExitConfiguration_ON_EXIT (read files_hotExit c)
      else HotExitConfiguration_ON_EXIT).
  { unfold onFilesConfigurationChange.
    destruct (read files_hotExit c) as [mode|].
    - destruct (decide (mode = HotExitConfiguration_OFF ∨ _)) as [Hm|Hm];
        destruct (decide (Some mode = Some HotExitConfiguration_OFF ∨ _))
          as [Hm'|Hm']; try done.
      + exfalso. apply Hm'. destruct Hm; [left|right]; congruence.
      + exfalso. apply Hm. destruct Hm' as [[=]|[=]]; [by left|by right].
    - destruct (decide (None = Some HotExitConfiguration_OFF ∨ _))
        as [[|]|]; done. }
  split; [exact Hhot|]. rewrite Hhot. clear Hhot.
  rewrite andb_false_iff, negb_false_iff, bool_decide_eq_false.
  split.
  - intros [Hdev|Hcur]; [by left|right].
    apply dec_stable in Hcur.
    destruct (decide _) as [[Hm|Hm]|Hm]; [done| |by destruct Hoff].
    rewrite Hm in Hcur |- *. cbn in Hcur. by rewrite Hcur.
  - intros [Hdev|Hset]; [by left|right].
    rewrite decide_True by by left. rewrite Hset. cbn. by intros Hne.
Qed.

(** X20. With [OFF] different from the three enabling constants,
    [toggleAutoSave] never writes the value in effect (the user value, or the
    default without one), and on what it wrote it alternates: after [OFF] it
    writes [AFTER_DELAY], after [AFTER_DELAY] it writes [OFF], so a third
    toggle writes what the first did. *)
Theorem toggle_alternates (setting : Inspect) :
  AutoSaveConfiguration_OFF ≠ AutoSaveConfiguration_AFTER_DELAY ->
  AutoSaveConfiguration_OFF ≠ AutoSaveConfiguration_ON_FOCUS_CHANGE ->
  AutoSaveConfiguration_OFF ≠ AutoSaveConfiguration_ON_WINDOW_CHANGE ->
  let effective :=
    match user setting with None => default_ setting | Some v => Some v end in
  let written := toggleAutoSave setting in
  let again := toggleAutoSave (mkInspect (Some written) (default_ setting)) in
  Some written ≠ effective
  ∧ (written = AutoSaveConfiguration_OFF
     -> again = AutoSaveConfiguration_AFTER_DELAY)
  ∧ (written = AutoSaveConfiguration_AFTER_DELAY
     -> again = AutoSaveConfiguration_OFF)
  ∧ toggleAutoSave (mkInspect (Some again) (default_ setting)) = written.
Proof.
  intros H1 H2 H3 effective written again.
  assert (Hoff : ∀ d, toggleAutoSave (mkInspect (Some AutoSaveConfiguration_OFF) d)
                      = AutoSaveConfiguration_AFTER_DELAY).
  { intros d. unfold toggleAutoSave. cbn.
    rewrite !bool_decide_eq_false_2 by congruence. done. }
  assert (Hon : ∀ d, toggleAutoSave
                       (mkInspect (Some AutoSaveConfiguration_AFTER_DELAY) d)
                     = AutoSaveConfiguration_OFF).
  { intros d. unfold toggleAutoSave. cbn.
    by rewrite bool_decide_eq_true_2. }
  assert (Hcase :
    written = AutoSaveConfiguration_OFF
    ∧ (effective = Some AutoSaveConfiguration_AFTER_DELAY
       ∨ effective = Some AutoSaveConfiguration_ON_FOCUS_CHANGE
       ∨ effective = Some AutoSaveConfiguration_ON_WINDOW_CHANGE)
    ∨ written = AutoSaveConfiguration_AFTER_DELAY
      ∧ effective ≠ Some AutoSaveConfiguration_AFTER_DELAY).
  { subst written. unfold toggleAutoSave. fold effective. cbn.
    destruct (bool_decide_reflect
                (Some AutoSaveConfiguration_AFTER_DELAY = effective));
      [left; by auto|].
    destruct (bool_decide_reflect
                (Some AutoSaveConfiguration_ON_FOCUS_CHANGE = effective));
      [left; by auto|].
    destruct (bool_decide_reflect
                (Some AutoSaveConfiguration_ON_WINDOW_CHANGE = effective));
      [left; by auto|].
    right. cbn. split; [done|]. congruence. }
  subst again.
  destruct Hcase as [[Hw Heff]|[Hw Heff]]; rewrite Hw in *.
  - rewrite Hoff, Hon. split; [|done].
    intros <-. destruct Heff as [[=]|[[=]|[=]]]; done.
  - rewrite Hon, Hoff. split; [|done]. congruence.
Qed.

(** X21. Over any sequence of configuration changes, the auto save events
    fired are one per change that affects [files], in order, each the auto
    save configuration of its own configuration: a change that leaves auto
    save as it was fires again, and a change that does not affect [files]
    fires nothing. *)
Theorem auto_save_event_on_every_change
    (changes : list (bool * option (IFilesConfiguration Associations))) s :
  autoSaveEvents
    (fired (foldl (fun s ch => onDidChangeConfiguration ch.1 ch.2 s) s changes))
  = autoSaveEvents (fired s)
    ++ map (fun ch =>
              getAutoSaveConfiguration (onFilesConfigurationChange ch.2 s))
         (filter (fun ch => ch.1 = true) changes).
Proof.
  revert s. induction changes as [|[affects c] changes IH]; intros s.
  { cbn. by rewrite app_nil_r. }
  cbn [foldl]. rewrite IH. unfold onDidChangeConfiguration. cbn [fst snd].
  destruct affects.
  - rewrite filter_cons_True by done. cbn [map fst snd].
    rewrite onFilesConfigurationChange_fired, <- app_assoc. cbn [app].
    f_equal. f_equal.
    apply map_ext. intros [a c']. cbn.
    apply onFilesConfigurationChange_independent.
  - by rewrite filter_cons_False by done.
Qed.

End FilesConfigurationProperties.

Section FilesConfigurationScenarios.

Import FilesConfigurationService.

(** X18 at work: auto save after a delay of 1500 ms, then of 0 ms. *)
Lemma auto_save_setting_decides_mode_demo :
  let s := create false None in
  let long := FilesDemo.configuration (Some "afterDelay") (Some (Qc_of_Z 1500)) None in
  let zero := FilesDemo.configuration (Some "afterDelay") (Some (Qc_of_Z 0)) None in
  NoDup [EmptyString; AutoSaveConfiguration_OFF;
         AutoSaveConfiguration_AFTER_DELAY;
         AutoSaveConfiguration_ON_FOCUS_CHANGE;
         AutoSaveConfiguration_ON_WINDOW_CHANGE] ∧
  getAutoSaveMode (onFilesConfigurationChange long s) = AFTER_LONG_DELAY ∧
  getAutoSaveMode (onFilesConfigurationChange zero s) = OFF.
Proof.
  intros s long zero.
  assert (Hdistinct : NoDup [EmptyString; AutoSaveConfiguration_OFF;
                             AutoSaveConfiguration_AFTER_DELAY;
                             AutoSaveConfiguration_ON_FOCUS_CHANGE;
                             AutoSaveConfiguration_ON_WINDOW_CHANGE])
    by (refine (bool_decide_unpack _ _); vm_compute; exact I).
  destruct (auto_save_setting_decides_mode long s Hdistinct)
    as (_ & _ & Hlong & _).
  destruct (auto_save_setting_decides_mode zero s Hdistinct)
    as (_ & _ & Hzero & _).
  split; [exact Hdistinct|]. split.
  - destruct (Hlong eq_refl) as (_ & _ & Hmode). apply Hmode. reflexivity.
  - destruct (Hzero eq_refl) as (Hmode & _). apply Hmode. discriminate.
Defined.

(** X19 at work: an unknown value of [files.hotExit] enables hot exit. *)
Lemma hot_exit_is_normalised_demo :
  let s := create false None in
  let c := FilesDemo.configuration None None (Some "sometimes") in
  HotExitConfiguration_OFF ≠ HotExitConfiguration_ON_EXIT ∧
  hotExitConfiguration (onFilesConfigurationChange c s) = "onExit" ∧
  isHotExitEnabled (onFilesConfigurationChange c s) ≠ false.
Proof.
  intros s c.
  assert (Hoff : HotExitConfiguration_OFF ≠ HotExitConfiguration_ON_EXIT)
    by discriminate.
  destruct (hot_exit_is_normalised c s Hoff) as [Hhot Henabled].
  split; [exact Hoff|]. split; [exact Hhot|].
  intros Hdisabled. apply Henabled in Hdisabled as [Hdev|Hset]; discriminate.
Defined.

(** X20 at work: no user value, and a default of ['onFocusChange']. *)
Lemma toggle_alternates_demo :
  let setting := mkInspect None (Some "onFocusChange") in
  AutoSaveConfiguration_OFF ≠ AutoSaveConfiguration_AFTER_DELAY ∧
  AutoSaveConfiguration_OFF ≠ AutoSaveConfiguration_ON_FOCUS_CHANGE ∧
  AutoSaveConfiguration_OFF ≠ AutoSaveConfiguration_ON_WINDOW_CHANGE ∧
  toggleAutoSave setting = "off" ∧
  toggleAutoSave (mkInspect (Some (toggleAutoSave setting)) (default_ setting))
  = "afterDelay".
Proof.
  intros setting.
  assert (H1 : AutoSaveConfiguration_OFF ≠ AutoSaveConfiguration_AFTER_DELAY)
    by discriminate.
  assert (H2 : AutoSaveConfiguration_OFF
               ≠ AutoSaveConfiguration_ON_FOCUS_CHANGE) by discriminate.
  assert (H3 : AutoSaveConfiguration_OFF
               ≠ AutoSaveConfiguration_ON_WINDOW_CHANGE) by discriminate.
  destruct (toggle_alternates setting H1 H2 H3) as (_ & Hagain & _).
  split; [exact H1|]. split; [exact H2|]. split; [exact H3|].
  split; [reflexivity|]. exact (Hagain eq_refl).
Defined.

End FilesConfigurationScenarios.

(** ** Properties of the global mouse move monitor *)

Section MonitorProperties.

Import GlobalMouseMoveMonitor.

Context {Window R Merger Callback OnStop : Type} `{!EqDecision Window}.

Implicit Types s : t Window R Merger Callback OnStop.
Implicit Types ops : list (Op Window R Merger Callback OnStop).

Lemma idle_consistent s : idle s -> consistent s.
Proof.
  intros Hidle. unfold consistent.
  destruct Hidle as (Hh & Hm & Hc & Ho). rewrite Hm. by split.
Qed.

Lemma stopMonitoring_idle (invoke : bool) s :
  consistent s -> idle (stopMonitoring invoke s).
Proof.
  unfold consistent, stopMonitoring, isMonitoring.
  destruct (mouseMoveEventMerger s) eqn:Hmerger; cbn; [|done].
  intros [_ [f Hf]]. rewrite Hf. by destruct invoke.
Qed.

Lemma stopMonitoring_stopped (invoke : bool) s :
  stopped (stopMonitoring invoke s)
  = stopped s
    ++ match onStopCallback s with
       | Some f => if isMonitoring s && invoke then [f] else []
       | None => []
       end
  ∧ moved (stopMonitoring invoke s) = moved s.
Proof.
  unfold stopMonitoring. destruct (isMonitoring s); cbn.
  - destruct (onStopCallback s); [destruct invoke|]; cbn;
      by rewrite ?app_nil_r.
  - by destruct (onStopCallback s); rewrite app_nil_r.
Qed.

Lemma idle_stopMonitoring (invoke : bool) s :
  idle s -> stopMonitoring invoke s = s.
Proof.
  intros (_ & Hmerger & _). unfold stopMonitoring, isMonitoring.
  by rewrite Hmerger.
Qed.

Lemma startMonitoring_idle (merger : Merger) (callback : Callback)
    (onStop : OnStop) (env : Environment Window) s :
  isMonitoring s = false ->
  let s1 := (startMonitoring merger callback onStop env s).2 in
  hooks s1 = hooks s ++ hooked env
  ∧ mouseMoveEventMerger s1 = Some merger
  ∧ mouseMoveCallback s1 = Some callback
  ∧ onStopCallback s1 = Some onStop
  ∧ stopped s1 = stopped s
  ∧ moved s1 = moved s.
Proof.
  intros Hidle. unfold startMonitoring, hooked. rewrite Hidle.
  generalize (if isIOS env && pointerEvents env
              then "pointermove" else "mousemove").
  generalize (if isIOS env && pointerEvents env
              then "pointerup" else "mouseup").
  intros up move.
  set (s1 := mk _ _ _ _ _ _).
  assert (Hfold : ∀ chain s0,
    let s2 := foldl (fun s element =>
                       add (mkListener (Document element) up MouseUp)
                         (add (mkListener (Document element) move MouseMove) s))
                s0 chain in
    hooks s2 = hooks s0
               ++ flat_map (fun w => [mkListener (Document w) move MouseMove;
                                      mkListener (Document w) up MouseUp])
                    chain
    ∧ mouseMoveEventMerger s2 = mouseMoveEventMerger s0
    ∧ mouseMoveCallback s2 = mouseMoveCallback s0
    ∧ onStopCallback s2 = onStopCallback s0
    ∧ stopped s2 = stopped s0 ∧ moved s2 = moved s0).
  { induction chain as [|w chain IH]; intros s0; cbn.
    - by rewrite app_nil_r.
    - destruct (IH (add (mkListener (Document w) up MouseUp)
                      (add (mkListener (Document w) move MouseMove) s0)))
        as (Hh & Hm & Hc & Ho & Hs & Hv).
      cbn zeta in *. rewrite Hh, Hm, Hc, Ho, Hs, Hv. cbn.
      by rewrite <- !app_assoc. }
  destruct (Hfold (windowChain env) s1) as (Hh & Hm & Hc & Ho & Hs & Hv).
  cbn zeta in *.
  destruct (hasDifferentOriginAncestor env);
    destruct (last (windowChain env)) as [w|]; cbn;
    rewrite ?Hh, ?Hm, ?Hc, ?Ho, ?Hs, ?Hv; cbn;
    by rewrite <- ?app_assoc, ?app_nil_r.
Qed.

Lemma startMonitoring_monitoring (merger : Merger) (callback : Callback)
    (onStop : OnStop) (env : Environment Window) s :
  isMonitoring s = true ->
  startMonitoring merger callback onStop env s = (Return tt, s).
Proof. intros Hbusy. unfold startMonitoring. by rewrite Hbusy. Qed.

Lemma handle_consistent (h : Handler) (e : Call R) s :
  consistent s -> consistent (handle h e s).
Proof.
  intros Hs.
  assert (Hstop : consistent (stopMonitoring true s)).
  { by apply idle_consistent, stopMonitoring_idle. }
  destruct h; cbn; try done.
  - destruct (mouseMoveCallback s) as [f|] eqn:Hcb; [|done].
    unfold consistent in *. cbn.
    destruct (mouseMoveEventMerger s); [by rewrite Hcb in Hs|].
    destruct Hs as (_ & _ & Hnone & _). congruence.
  - by destruct (targetIsHtml e).
  - by destruct (targetIsHtml e).
Qed.

Lemma step_consistent s (op : Op Window R Merger Callback OnStop) :
  consistent s -> consistent (step s op).
Proof.
  intros Hs. destruct op as [merger callback onStop env|invoke|l e]; cbn.
  - destruct (isMonitoring s) eqn:Hbusy.
    + rewrite startMonitoring_monitoring by done. exact Hs.
    + destruct (startMonitoring_idle merger callback onStop env s Hbusy)
        as (_ & Hm & Hc & Ho & _).
      unfold consistent. rewrite Hm, Hc, Ho. by split.
  - by apply idle_consistent, stopMonitoring_idle.
  - destruct (bool_decide _); [|done]. by apply handle_consistent.
Qed.

Lemma stopMonitoring_sessions (invoke : bool) s :
  (sessions (stopMonitoring invoke s) ≤ sessions s)%nat.
Proof.
  unfold sessions.
  destruct (stopMonitoring_stopped invoke s) as [-> _].
  unfold stopMonitoring at 1. destruct (isMonitoring s) eqn:Hbusy; cbn.
  - rewrite length_app.
    destruct (onStopCallback s); [destruct invoke|]; cbn; lia.
  - rewrite Hbusy, length_app. destruct (onStopCallback s); cbn; lia.
Qed.

Lemma step_sessions s (op : Op Window R Merger Callback OnStop) :
  (sessions (step s op) ≤ sessions s + (if isStart op then 1 else 0))%nat.
Proof.
  destruct op as [merger callback onStop env|invoke|l e]; cbn.
  - destruct (isMonitoring s) eqn:Hbusy.
    + rewrite startMonitoring_monitoring by done. cbn. lia.
    + destruct (startMonitoring_idle merger callback onStop env s Hbusy)
        as (_ & Hm & _ & _ & Hs & _).
      unfold sessions, isMonitoring. rewrite Hm, Hs. lia.
  - pose proof (stopMonitoring_sessions invoke s). lia.
  - destruct (bool_decide _); [|lia].
    pose proof (stopMonitoring_sessions true s).
    destruct (handler l); cbn; try lia.
    + destruct (mouseMoveCallback s); [|lia]. unfold sessions. cbn.
      unfold sessions in *. unfold isMonitoring. cbn. lia.
    + destruct (targetIsHtml e); lia.
    + destruct (targetIsHtml e); lia.
Qed.

Lemma run_invariant ops s :
  consistent s ->
  consistent (run ops s)
  ∧ (sessions (run ops s) ≤ sessions s + length (filter isStart ops))%nat.
Proof.
  revert s. induction ops as [|op ops IH]; intros s Hs; cbn.
  { split; [done|lia]. }
  destruct (IH (step s op) (step_consistent s op Hs)) as [Hc Hn].
  split; [exact Hc|].
  pose proof (step_sessions s op) as Hstep.
  unfold run in Hn. unfold filter. cbn.
  destruct (isStart op); cbn in *.
  - rewrite decide_True by done. cbn. unfold filter in Hn. lia.
  - rewrite decide_False by (by intros []). unfold filter in Hn. lia.
Qed.

(** X22. In every state a new monitor reaches by calls of
    [startMonitoring] and [stopMonitoring] and of the listeners it has
    hooked, a monitor that is not monitoring holds no listener and no
    callback, one that is monitoring has both callbacks, and the stop
    callbacks called so far, with the session under way, are at most as many
    as the calls of [startMonitoring]. [dispose] leaves no listener and calls
    no stop callback. *)
Theorem idle_monitor_holds_no_listener ops :
  let s := run ops create in
  (isMonitoring s = false ->
   hooks s = [] ∧ mouseMoveCallback s = None ∧ onStopCallback s = None)
  ∧ (isMonitoring s = true ->
     is_Some (mouseMoveCallback s) ∧ is_Some (onStopCallback s))
  ∧ (length (stopped s) + (if isMonitoring s then 1 else 0)
     ≤ length (filter isStart ops))%nat
  ∧ hooks (dispose s) = []
  ∧ stopped (dispose s) = stopped s.
Proof.
  intros s. subst s.
  assert (Hnew : consistent (create (Window := Window) (R := R)
                               (Merger := Merger) (Callback := Callback)
                               (OnStop := OnStop))) by done.
  destruct (run_invariant ops create Hnew) as [Hc Hn].
  set (s := run ops create) in *.
  split; [|split; [|split; [|split]]].
  - unfold consistent, isMonitoring in *.
    destruct (mouseMoveEventMerger s); [done|]. intros _.
    by destruct Hc as (? & _ & ? & ?).
  - unfold consistent, isMonitoring in *.
    by destruct (mouseMoveEventMerger s).
  - exact Hn.
  - by destruct (stopMonitoring_idle false s Hc) as (? & _).
  - destruct (stopMonitoring_stopped false s) as [Hs _]. unfold dispose.
    rewrite Hs, andb_false_r. by destruct (onStopCallback s); rewrite app_nil_r.
Qed.

Lemma stopMonitoring_session (f : OnStop) (callback : Callback) (invoke : bool)
    s0 s :
  session f callback s0 s -> session f callback s0 (stopMonitoring invoke s).
Proof.
  intros [Hmoved Hs]. destruct (stopMonitoring_stopped invoke s) as [Hst Hmv].
  split; [by rewrite Hmv|]. right.
  destruct Hs as [(Hbusy & Hc & Ho & Hsame)|[Hidle Hinv]].
  - split.
    + apply stopMonitoring_idle. unfold consistent.
      unfold isMonitoring in Hbusy.
      destruct (mouseMoveEventMerger s); [|done]. by rewrite Hc, Ho.
    + exists invoke. by rewrite Hst, Ho, Hbusy, Hsame.
  - by rewrite idle_stopMonitoring.
Qed.

Lemma step_session (f : OnStop) (callback : Callback) s0 s
    (op : Op Window R Merger Callback OnStop) :
  isStart op = false ->
  session f callback s0 s -> session f callback s0 (step s op).
Proof.
  intros Hop Hs. destruct op as [| invoke | l e]; [done| |]; cbn.
  - by apply stopMonitoring_session.
  - destruct (bool_decide _); [|done].
    destruct (handler l); cbn;
      try (by apply stopMonitoring_session);
      try (destruct (targetIsHtml e); [by apply stopMonitoring_session|done]).
    destruct Hs as [[datas Hmoved] Hs].
    destruct Hs as [(Hbusy & Hc & Ho & Hsame)|[Hidle Hinv]].
    + rewrite Hc. split.
      * exists (datas ++ [data e]). cbn.
        by rewrite Hmoved, map_app, <- app_assoc.
      * left. by cbn.
    + destruct Hidle as (Hh & Hm & Hcb & Hon). rewrite Hcb.
      split; [by exists datas|]. by right.
Qed.

Lemma run_session (f : OnStop) (callback : Callback) s0 ops s :
  Forall (fun op => isStart op = false) ops ->
  session f callback s0 s -> session f callback s0 (run ops s).
Proof.
  intros Hops. revert s. induction Hops as [|op ops Hop _ IH]; intros s Hs.
  - done.
  - cbn. apply IH. by apply step_session.
Qed.

(** X23. A session started on a monitor at rest ignores every further
    [startMonitoring]. Whatever calls of [stopMonitoring] and of listeners
    follow, the stop callback of the session is called at most once and no
    other one is, and mouse moves go to the callback of the session. A mouse
    up in a window of the chain ends the session: the stop callback is called
    exactly once and no listener is left. *)
Theorem stop_callback_once_per_session (merger : Merger) (callback : Callback)
    (onStop : OnStop) (env : Environment Window) s ops :
  isMonitoring s = false ->
  Forall (fun op => isStart op = false) ops ->
  let s1 := (startMonitoring merger callback onStop env s).2 in
  let mouseUp :=
    if isIOS env && pointerEvents env then "pointerup" else "mouseup" in
  (∀ merger' callback' onStop' env',
     startMonitoring merger' callback' onStop' env' s1 = (Return tt, s1))
  ∧ (∃ invoked : bool,
       stopped (run ops s1) = stopped s ++ (if invoked then [onStop] else []))
  ∧ (∃ datas,
       moved (run ops s1) = moved s ++ map (fun d => (callback, d)) datas)
  ∧ (∀ w e,
       w ∈ windowChain env ->
       let after :=
         run (Listen (mkListener (Document w) mouseUp MouseUp) e :: ops) s1 in
       isMonitoring after = false ∧ hooks after = []
       ∧ stopped after = stopped s ++ [onStop]).
Proof.
  intros Hidle Hops s1 mouseUp.
  destruct (startMonitoring_idle merger callback onStop env s Hidle)
    as (Hh & Hm & Hc & Ho & Hs & Hv).
  fold s1 in Hh, Hm, Hc, Ho, Hs, Hv.
  assert (Hbusy : isMonitoring s1 = true).
  { unfold isMonitoring. by rewrite Hm. }
  assert (Hsession : session onStop callback s s1).
  { split; [exists []; by rewrite Hv, app_nil_r|]. left. by auto. }
  split; [|split; [|split]].
  - intros. by apply startMonitoring_monitoring.
  - destruct (run_session onStop callback s ops s1 Hops Hsession)
      as [_ [(_ & _ & _ & Hsame)|[_ Hinv]]]; [|done].
    exists false. by rewrite Hsame, app_nil_r.
  - by destruct (run_session onStop callback s ops s1 Hops Hsession) as [? _].
  - intros w e Hw after. subst after. cbn [run foldl step].
    rewrite bool_decide_eq_true_2.
    2: { rewrite Hh. apply elem_of_app. right. unfold hooked.
         apply elem_of_app. left. apply list_elem_of_In, in_flat_map.
         exists w. split; [by apply list_elem_of_In|].
         right. left. done. }
    cbn [handler handle].
    assert (Hstopped : idle (stopMonitoring true s1)
                       ∧ stopped (stopMonitoring true s1)
                         = stopped s ++ [onStop]).
    { split.
      - apply stopMonitoring_idle. unfold consistent. by rewrite Hm, Hc, Ho.
      - destruct (stopMonitoring_stopped true s1) as [-> _].
        by rewrite Ho, Hbusy, Hs. }
    destruct Hstopped as [Hrest Hcalled].
    assert (Hafter : ∀ ops' s', Forall (fun op => isStart op = false) ops' ->
                       idle s' -> foldl step s' ops' = s').
    { intros ops' s' Hops'. induction Hops' as [|op ops' Hop _ IH];
        intros Hs'; [done|]. cbn.
      assert (Hstep : step s' op = s').
      { destruct op as [|invoke|l e']; [done| |]; cbn.
        - by apply idle_stopMonitoring.
        - destruct Hs' as (-> & _). rewrite bool_decide_eq_false_2; [done|].
          apply not_elem_of_nil. }
      rewrite Hstep. by apply IH. }
    rewrite (Hafter ops _ Hops Hrest).
    destruct Hrest as (Hhooks & Hmerger & _).
    unfold isMonitoring. by rewrite Hmerger.
Qed.

End MonitorProperties.

Section MonitorScenarios.

Import GlobalMouseMoveMonitor.

(** X23 at work: a monitor of two windows started, a mouse up in the
    second, and two more calls of [stopMonitoring(true)]. *)
Lemma stop_callback_once_per_session_demo :
  let env := mkEnvironment [0; 1] true false false in
  let s : t nat nat nat nat nat := create in
  let ops : list (Op nat nat nat nat nat) := [Stop true; Stop true] in
  let up := Listen (mkListener (Document 1) "mouseup" MouseUp) (mkCall 0 false) in
  isMonitoring s = false ∧
  Forall (fun op => isStart op = false) ops ∧
  length (hooks (startMonitoring 7 8 9 env s).2) = 7 ∧
  stopped (run (up :: ops) (startMonitoring 7 8 9 env s).2) = [9] ∧
  hooks (run (up :: ops) (startMonitoring 7 8 9 env s).2) = [].
Proof.
  intros env s ops up.
  assert (Hidle : isMonitoring s = false) by reflexivity.
  assert (Hops : Forall (fun op => isStart op = false) ops)
    by (repeat constructor).
  destruct (stop_callback_once_per_session 7 8 9 env s ops Hidle Hops)
    as (_ & _ & _ & Hup).
  destruct (Hup 1 (mkCall 0 false)) as (_ & Hhooks & Hstopped).
  { apply list_elem_of_In. right. by left. }
  split; [exact Hidle|]. split; [exact Hops|]. split; [reflexivity|].
  split; [exact Hstopped|exact Hhooks].
Defined.

End MonitorScenarios.

(** ** Properties of the code lens widget *)

Section ViewZoneProperties.

Import CodeLensViewZone.

Lemma onComputedHeight_known (heights : list Qc) (h : Qc) (z : t) :
  _lastHeight z = Some h ->
  let z' := foldl (fun z height => onComputedHeight height z) z heights in
  _onHeight z'
  = (_onHeight z
     + length (filter (fun p => p.1 ≠ p.2) (zip (h :: heights) heights)))%nat
  ∧ _lastHeight z' = Some (default h (last heights))
  ∧ afterLineNumber z' = afterLineNumber z.
Proof.
  revert h z. induction heights as [|height heights IH]; intros h z Hlast.
  { cbn. split; [lia|done]. }
  cbn [foldl zip zip_with]. unfold onComputedHeight at 2 4 6. rewrite Hlast.
  rewrite last_cons.
  destruct (decide (h ≠ height)) as [Hne|Heq].
  - rewrite filter_cons_True by done.
    destruct (IH height (mk (afterLineNumber z) (Some height) (S (_onHeight z)))
                eq_refl) as (Hn & Hl & Ha).
    cbn zeta in *. rewrite Hn, Hl, Ha. cbn.
    split; [lia|]. split; [|done]. by destruct (last heights).
  - apply dec_stable in Heq. subst height.
    rewrite filter_cons_False by (cbn; by intros Hne).
    destruct (IH h z Hlast) as (Hn & Hl & Ha).
    cbn zeta in *. rewrite Hn, Hl, Ha.
    split; [done|]. split; [|done]. by destruct (last heights).
Qed.

(** X24. Over any sequence of computed heights given to a new view zone,
    the height callback is called once for every height that differs from
    the one before it, and never for the first; the zone remembers the last
    height. *)
Theorem onHeight_called_once_per_change (heights : list Qc)
    (afterLineNumber : Z) :
  let z :=
    foldl (fun z height => onComputedHeight height z)
      (create afterLineNumber) heights in
  _onHeight z
  = length (filter (fun p => p.1 ≠ p.2) (zip heights (tail heights)))
  ∧ _lastHeight z = last heights.
Proof.
  destruct heights as [|h heights]; [done|].
  change (foldl _ (create afterLineNumber) (h :: heights))
    with (foldl (fun z height => onComputedHeight height z)
            (mk afterLineNumber (Some h) 0) heights).
  cbn [tail].
  destruct (onComputedHeight_known heights h
              (mk afterLineNumber (Some h) 0) eq_refl) as (Hn & Hl & _).
  cbn zeta in *. rewrite Hn, Hl, last_cons. cbn [_onHeight]. split.
  - done.
  - by destruct (last heights).
Qed.

End ViewZoneProperties.

Section ContentWidgetProperties.

Import CodeLensContentWidget.

Variable renderCodicons : string -> string.

Lemma turn_commands (n i : nat) (lens : option CodeLens) (l : Loop) :
  commands (turn renderCodicons n i lens l)
  = match linked (Some lens) with
    | Some c => <[pretty i := c]> (commands l)
    | None => commands l
    end.
Proof.
  unfold turn, linked. destruct lens as [lens|]; [|done].
  destruct (command lens) as [c|]; [|done].
  destruct (decide (id c ≠ EmptyString)) as [Hid|Hid].
  - rewrite (decide_False (P := id c = EmptyString)) by done.
    by destruct (decide (i + 1 < n)%nat).
  - apply dec_stable in Hid.
    rewrite (decide_True (P := id c = EmptyString)) by done.
    by destruct (decide (i + 1 < n)%nat).
Qed.

Lemma loop_other (n : nat) (lenses : list (option CodeLens)) (i : nat)
    (l : Loop) (key : string) :
  (∀ k, (i ≤ k < i + length lenses)%nat -> key ≠ pretty k) ->
  commands (loop renderCodicons n i lenses l) !! key = commands l !! key.
Proof.
  revert i l. induction lenses as [|lens lenses IH]; intros i l Hkey; [done|].
  cbn [loop]. rewrite IH.
  2: { intros k Hk. apply Hkey. cbn. lia. }
  rewrite turn_commands. destruct (linked (Some lens)); [|done].
  apply lookup_insert_ne. intros Heq. apply (Hkey i); [cbn; lia|done].
Qed.

Lemma loop_commands (n : nat) (lenses : list (option CodeLens)) (i j : nat)
    (l : Loop) :
  commands (loop renderCodicons n i lenses l) !! pretty (i + j)%nat
  = match linked (lenses !! j) with
    | Some c => Some c
    | None => commands l !! pretty (i + j)%nat
    end.
Proof.
  revert i j l. induction lenses as [|lens lenses IH]; intros i j l; [done|].
  cbn [loop]. destruct j as [|j].
  - rewrite loop_other.
    2: { intros k Hk Heq. apply (inj pretty) in Heq. lia. }
    rewrite turn_commands. cbn [lookup list_lookup].
    change ((lens :: lenses) !! 0%nat) with (Some lens).
    destruct (linked (Some lens)); [|done].
    by rewrite Nat.add_0_r, lookup_insert_eq.
  - replace (i + S j)%nat with (S i + j)%nat by lia.
    rewrite IH. change ((lens :: lenses) !! S j) with (lenses !! j).
    destruct (linked (lenses !! j)); [done|].
    rewrite turn_commands. destruct (linked (Some lens)); [|done].
    apply lookup_insert_ne. intros Heq. apply (inj pretty) in Heq. lia.
Qed.

Lemma withCommands_commands (lenses : list (option CodeLens)) (animate : bool)
    (w : t) :
  _commands (withCommands renderCodicons lenses animate w)
  = commands (loop renderCodicons (length lenses) 0 lenses
                (mkLoop ∅ EmptyString false)).
Proof. unfold withCommands. by destruct (negb _). Qed.

(** X25. After [withCommands(lenses, animate)], whatever the widget held
    before, [getCommand] of a link of the widget's node whose id is the
    decimal index [i] answers the command of lens [i] when that lens is
    there and its command has a non-empty id, and nothing otherwise; a link
    with any other id, or of another node, has no command. *)
Theorem getCommand_after_withCommands (lenses : list (option CodeLens))
    (animate : bool) (w : t) :
  let w' := withCommands renderCodicons lenses animate w in
  (∀ i : nat,
     getCommand (mkLink true (pretty i)) w'
     = match lenses !! i with
       | Some (Some lens) =>
           match command lens with
           | Some c => if decide (id c = EmptyString) then None else Some c
           | None => None
           end
       | _ => None
       end)
  ∧ (∀ key,
       (∀ i : nat, (i < length lenses)%nat -> key ≠ pretty i) ->
       getCommand (mkLink true key) w' = None)
  ∧ (∀ key, getCommand (mkLink false key) w' = None).
Proof.
  intros w'. subst w'. unfold getCommand. cbn [parentIsDomNode link_id].
  rewrite withCommands_commands. split; [|split].
  - intros i. pose proof (loop_commands (length lenses) lenses 0 i
                            (mkLoop ∅ EmptyString false)) as Hi.
    cbn [Nat.add] in Hi. rewrite Hi. unfold linked.
    destruct (lenses !! i) as [[lens|]|]; try done.
    destruct (command lens) as [c|]; [|done]. by destruct (decide _).
  - intros key Hkey. rewrite loop_other; [done|].
    intros k Hk. apply Hkey. lia.
  - done.
Qed.

End ContentWidgetProperties.

(** ** Properties of the decorations of the code lens widgets *)

Section WidgetProperties.

Import CodeLensWidget.

Context {Range CodeLensItem : Type}.

Variable symbol_range : CodeLensItem -> Range.

Implicit Types h : CodeLensHelper Range.
Implicit Types store : gmap nat (t CodeLensItem).
Implicit Types ids : list string.

Lemma popAll_spec (array : list (option string)) h :
  popAll array h
  = mkHelper (_removeDecorations h ++ reverse array) (_addDecorations h)
      (_addDecorationsCallbacks h).
Proof.
  unfold popAll. generalize (reverse array). intros l. revert h.
  induction l as [|id l IH]; intros h; cbn.
  - rewrite app_nil_r. by destruct h.
  - rewrite IH. cbn. by rewrite <- app_assoc.
Qed.

Lemma addAll_spec (this : nat) (data : list CodeLensItem) h :
  addAll symbol_range this data h
  = mkHelper (_removeDecorations h)
      (_addDecorations h ++ map symbol_range data)
      (_addDecorationsCallbacks h
       ++ imap (fun i _ => SetDecorationId this i) data).
Proof.
  unfold addAll.
  assert (Hgen : ∀ (f : nat -> nat) h,
    foldl (fun h '(i, codeLensData) =>
             addDecoration (symbol_range codeLensData)
               (SetDecorationId this i) h)
      h (imap (fun i x => (f i, x)) data)
    = mkHelper (_removeDecorations h)
        (_addDecorations h ++ map symbol_range data)
        (_addDecorationsCallbacks h
         ++ imap (fun i _ => SetDecorationId this (f i)) data)).
  { induction data as [|x data IH]; intros f h0; cbn.
    - rewrite !app_nil_r. by destruct h0.
    - rewrite (IH (f ∘ S)). cbn. by rewrite <- !app_assoc. }
  apply (Hgen (fun i => i)).
Qed.

Lemma commitLoop_calls (callbacks : list IDecorationIdCallback) ids store :
  (length ids ≤ length callbacks)%nat ->
  commitLoop callbacks ids store = (Return tt, calls callbacks ids store).
Proof.
  revert callbacks store. induction ids as [|id ids IH];
    intros callbacks store Hlen.
  { by destruct callbacks. }
  destruct callbacks as [|callback callbacks]; cbn in Hlen; [lia|].
  cbn. apply IH. lia.
Qed.

Lemma calls_app (callbacks1 callbacks2 : list IDecorationIdCallback)
    ids store :
  calls (callbacks1 ++ callbacks2) ids store
  = calls callbacks2 (drop (length callbacks1) ids)
      (calls callbacks1 (take (length callbacks1) ids) store).
Proof.
  revert ids store. induction callbacks1 as [|c callbacks1 IH];
    intros ids store; cbn.
  { by rewrite drop_0. }
  destruct ids as [|id ids]; cbn.
  - unfold calls. by destruct callbacks2.
  - apply IH.
Qed.

Lemma calls_other (callbacks : list IDecorationIdCallback) ids store
    (this : nat) :
  Forall (fun callback => this_of callback ≠ this) callbacks ->
  calls callbacks ids store !! this = store !! this.
Proof.
  intros Hother. revert ids store.
  induction Hother as [|callback callbacks Hc _ IH]; intros ids store.
  { done. }
  destruct ids as [|id ids]; [done|].
  unfold calls in *. cbn [zip zip_with foldl]. rewrite IH.
  destruct callback as [that i]. unfold call, this_of in *.
  destruct (store !! that); [|done]. by rewrite lookup_insert_ne.
Qed.

Lemma calls_own (this : nat) (data : list CodeLensItem) ids store
    (k : nat) (d : list CodeLensItem) (array : list (option string)) :
  store !! this = Some (mk d array) ->
  length array = (k + length data)%nat ->
  length ids = length data ->
  calls (imap (fun i _ => SetDecorationId this (k + i)) data) ids store
  = <[this := mk d (take k array ++ map Some ids)]> store.
Proof.
  revert ids store k array.
  induction data as [|x data IH]; intros ids store k array Hthis Hlen Hids.
  { destruct ids; [|done]. cbn. unfold calls. cbn.
    rewrite app_nil_r, take_ge by (cbn in Hlen; lia).
    by rewrite insert_id. }
  destruct ids as [|id ids]; [done|]. cbn in Hlen, Hids.
  cbn [imap]. unfold calls. cbn [zip zip_with foldl call].
  rewrite Nat.add_0_r, Hthis. cbn [_data _decorationIds].
  unfold assign. rewrite decide_True by lia.
  pose proof (IH ids (<[this := mk d (<[k := Some id]> array)]> store) (S k)
                (<[k := Some id]> array)) as Hrest.
  unfold calls in Hrest.
  erewrite (imap_ext _ (fun i _ => SetDecorationId this (S k + i))).
  2: { intros i y _. cbn. f_equal. lia. }
  rewrite Hrest.
  - rewrite insert_insert_eq. f_equal. f_equal.
    rewrite (take_S_r _ _ (Some id))
      by (apply list_lookup_insert_eq; lia).
    rewrite take_insert_ge by lia. by rewrite <- app_assoc.
  - by rewrite lookup_insert_eq.
  - rewrite length_insert. lia.
  - lia.
Qed.

Lemma calls_frame (callbacks : list IDecorationIdCallback) ids store
    (this : nat) (w : t CodeLensItem) :
  Forall (fun callback => this_of callback ≠ this) callbacks ->
  calls callbacks ids (<[this := w]> store)
  = <[this := w]> (calls callbacks ids store).
Proof.
  intros Hother. revert ids store.
  induction Hother as [|callback callbacks Hc _ IH]; intros ids store.
  { done. }
  destruct ids as [|id ids]; [done|].
  unfold calls in *. cbn [zip zip_with foldl].
  destruct callback as [that i]. unfold call, this_of in *.
  rewrite lookup_insert_ne by done.
  destruct (store !! that); [|by rewrite IH].
  rewrite insert_insert_ne by done. by rewrite IH.
Qed.

(** X26. A widget updated through a helper whose earlier callbacks write to
    other widgets hands the helper its old decoration ids for removal, last
    first, and one decoration per item; when [commit] is given as many ids
    as the helper has callbacks, it returns, the widget holds exactly the
    ids of its own decorations, in the order of its items, and every other
    widget holds what a commit of the helper before the update would have
    given it. *)
Theorem commit_gives_widget_its_own_ids (this : nat)
    (data : list CodeLensItem) h store (w : t CodeLensItem) ids :
  store !! this = Some w ->
  Forall (fun callback => this_of callback ≠ this)
    (_addDecorationsCallbacks h) ->
  length ids = (length (_addDecorationsCallbacks h) + length data)%nat ->
  let updated := updateCodeLensSymbols symbol_range this data h store in
  let k := length (_addDecorationsCallbacks h) in
  _removeDecorations updated.1
  = _removeDecorations h ++ reverse (_decorationIds w)
  ∧ _addDecorations updated.1 = _addDecorations h ++ map symbol_range data
  ∧ ∃ store', commit ids updated.1 updated.2 = (Return tt, store')
      ∧ store' !! this = Some (mk data (map Some (drop k ids)))
      ∧ ∀ other, other ≠ this ->
          store' !! other = (commit (take k ids) h store).2 !! other.
Proof.
  intros Hthis Hother Hlen updated k. subst updated k.
  unfold updateCodeLensSymbols. rewrite Hthis. cbn [fst snd].
  rewrite addAll_spec, popAll_spec. cbn.
  split; [done|]. split; [done|].
  unfold commit. cbn [_addDecorationsCallbacks].
  set (callbacks := _addDecorationsCallbacks h) in *.
  set (new := mk data (replicate (length data) None)).
  rewrite commitLoop_calls by (rewrite length_app, length_imap; lia).
  eexists. split; [reflexivity|].
  rewrite calls_app.
  rewrite (calls_frame callbacks _ store this new Hother).
  pose proof (calls_own this data (drop (length callbacks) ids)
                (<[this := new]>
                   (calls callbacks (take (length callbacks) ids) store))
                0 data (replicate (length data) None)) as Hown.
  cbn [Nat.add take app] in Hown.
  rewrite Hown.
  - rewrite insert_insert_eq. split; [by rewrite lookup_insert_eq|].
    intros other Hne. rewrite lookup_insert_ne by done.
    rewrite commitLoop_calls; [done|]. rewrite length_take. lia.
  - by rewrite lookup_insert_eq.
  - by rewrite length_replicate.
  - rewrite length_drop. lia.
Qed.

(** X27. A widget created through a helper whose callbacks write to
    widgets of the store is a new object; after a [commit] with as many ids
    as callbacks it holds the ids of its own decorations, [dispose] hands
    exactly these to the helper for removal, last first, and a second
    [dispose] hands over nothing. *)
Theorem new_widget_hands_its_decorations_back (data : list CodeLensItem)
    h store ids h' :
  Forall (fun callback => this_of callback ∈ dom store)
    (_addDecorationsCallbacks h) ->
  length ids = (length (_addDecorationsCallbacks h) + length data)%nat ->
  let created := create symbol_range data h store in
  let this := created.1.1 in
  let k := length (_addDecorationsCallbacks h) in
  store !! this = None
  ∧ ∃ store',
      commit ids created.1.2 created.2 = (Return tt, store')
      ∧ store' !! this = Some (mk data (map Some (drop k ids)))
      ∧ _removeDecorations (dispose this h' store').1
        = _removeDecorations h' ++ reverse (map Some (drop k ids))
      ∧ ∀ h'', _removeDecorations
                 (dispose this h'' (dispose this h' store').2).1
               = _removeDecorations h''.
Proof.
  intros Hknown Hlen created this k. subst created this k.
  unfold create. cbn [fst snd].
  set (this := fresh (dom store)).
  assert (Hfresh : this ∉ dom store) by apply is_fresh.
  assert (Hother : Forall (fun callback => this_of callback ≠ this)
                     (_addDecorationsCallbacks h)).
  { eapply Forall_impl; [exact Hknown|]. intros callback Hin Heq.
    apply Hfresh. by rewrite <- Heq. }
  split; [by apply not_elem_of_dom|].
  rewrite addAll_spec. unfold commit. cbn [_addDecorationsCallbacks].
  set (callbacks := _addDecorationsCallbacks h) in *.
  set (new := mk data (replicate (length data) None)).
  rewrite commitLoop_calls by (rewrite length_app, length_imap; lia).
  eexists. split; [reflexivity|].
  rewrite calls_app.
  rewrite (calls_frame callbacks _ store this new Hother).
  pose proof (calls_own this data (drop (length callbacks) ids)
                (<[this := new]>
                   (calls callbacks (take (length callbacks) ids) store))
                0 data (replicate (length data) None)) as Hown.
  cbn [Nat.add take app] in Hown.
  rewrite Hown.
  - rewrite insert_insert_eq. unfold dispose.
    rewrite !lookup_insert_eq. cbn [fst snd _decorationIds].
    rewrite popAll_spec. cbn. split; [done|]. split; [done|].
    intros h''. rewrite lookup_insert_eq. cbn [fst _decorationIds].
    rewrite popAll_spec. cbn. by rewrite app_nil_r.
  - by rewrite lookup_insert_eq.
  - by rewrite length_replicate.
  - rewrite length_drop. lia.
Qed.

End WidgetProperties.

Section WidgetScenarios.

Import CodeLensWidget.

(** X26 at work: a widget with one decoration updated to two items. *)
Lemma commit_gives_widget_its_own_ids_demo :
  let store : gmap nat (t nat) := {[ 0%nat := mk [5%nat] [Some "old"] ]} in
  let h : CodeLensHelper nat := newHelper in
  let updated := updateCodeLensSymbols (fun item => item) 0 [7; 8]%nat h store in
  store !! 0%nat = Some (mk [5%nat] [Some "old"]) ∧
  Forall (fun callback => this_of callback ≠ 0%nat)
    (_addDecorationsCallbacks h) ∧
  _removeDecorations updated.1 = [Some "old"] ∧
  _addDecorations updated.1 = [7; 8]%nat ∧
  ∃ store',
    commit ["a"; "b"] updated.1 updated.2 = (Return tt, store') ∧
    store' !! 0%nat = Some (mk [7; 8]%nat [Some "a"; Some "b"]).
Proof.
  intros store h updated.
  assert (Hthis : store !! 0%nat = Some (mk [5%nat] [Some "old"]))
    by (vm_compute; reflexivity).
  assert (Hother : Forall (fun callback => this_of callback ≠ 0%nat)
                     (_addDecorationsCallbacks h)) by constructor.
  destruct (commit_gives_widget_its_own_ids (fun item => item) 0 [7; 8]%nat
              h store _ ["a"; "b"] Hthis Hother eq_refl)
    as (Hremove & Hadd & store' & Hcommit & Hids & _).
  split; [exact Hthis|]. split; [exact Hother|].
  split; [exact Hremove|]. split; [exact Hadd|].
  exists store'. split; [exact Hcommit|exact Hids].
Defined.

(** X27 at work: the first widget of a store, with two items. *)
Lemma new_widget_hands_its_decorations_back_demo :
  let store : gmap nat (t nat) := ∅ in
  let h : CodeLensHelper nat := newHelper in
  let created := create (fun item => item) [7; 8]%nat h store in
  Forall (fun callback => this_of callback ∈ dom store)
    (_addDecorationsCallbacks h) ∧
  ∃ store',
    commit ["a"; "b"] created.1.2 created.2 = (Return tt, store') ∧
    _removeDecorations (dispose created.1.1 h store').1
    = [Some "b"; Some "a"].
Proof.
  intros store h created.
  assert (Hknown : Forall (fun callback => this_of callback ∈ dom store)
                     (_addDecorationsCallbacks h)) by constructor.
  destruct (new_widget_hands_its_decorations_back (fun item => item)
              [7; 8]%nat h store ["a"; "b"] h Hknown eq_refl)
    as (_ & store' & Hcommit & _ & Hback & _).
  split; [exact Hknown|].
  exists store'. split; [exact Hcommit|exact Hback].
Defined.

End WidgetScenarios.

(** ** Properties of the mnemonic of a label *)

Section MnemonicProperties.

Import ResourceEditorInput.

Lemma ampersandsAt_true (s : string) :
  ampersandsAt s = true -> ∃ rest, s = "&&" +:+ rest.
Proof.
  destruct s as [|c0 [|c1 rest]]; cbn; try done.
  intros [H0 H1]%andb_true_iff.
  apply Ascii.eqb_eq in H0, H1. subst. by exists rest.
Qed.

Lemma mnemonicAt_true (s : string) :
  mnemonicAt s = true -> ∃ rest, s = "(" +:+ "&&" +:+ rest.
Proof.
  destruct s as [|c0 [|c1 [|c2 [|c3 [|c4 rest]]]]]; cbn; try done.
  intros [[[[H0 H1]%andb_true_iff H2]%andb_true_iff _]%andb_true_iff _]%andb_true_iff.
  apply Ascii.eqb_eq in H0, H1, H2. subst. by eexists.
Qed.

Lemma replaceFrom_sublist (isWindows : bool) (skip : nat) (s : string) :
  sublist (String.list_ascii_of_string (replaceFrom isWindows skip s))
    (String.list_ascii_of_string s).
Proof.
  revert skip. induction s as [|c rest IH]; intros skip; [done|].
  cbn [replaceFrom]. destruct skip as [|skip].
  2: { cbn. by apply sublist_cons. }
  destruct isWindows.
  - destruct (ampersandsAt (String c rest)) eqn:Hamp.
    + apply ampersandsAt_true in Hamp as [rest' [= -> ->]].
      cbn. by apply sublist_skip.
    + cbn. by apply sublist_skip.
  - destruct (mnemonicAt (String c rest)); [cbn; by apply sublist_cons|].
    destruct (ampersandsAt (String c rest)); [cbn; by apply sublist_cons|].
    cbn. by apply sublist_skip.
Qed.

Lemma replaceFrom_unchanged (isWindows : bool) (s : string) :
  (∀ before after, s ≠ before +:+ "&&" +:+ after) ->
  replaceFrom isWindows 0 s = s.
Proof.
  induction s as [|c rest IH]; intros Hnone; [done|].
  cbn [replaceFrom].
  assert (Hamp : ampersandsAt (String c rest) = false).
  { destruct (ampersandsAt (String c rest)) eqn:Hamp; [|done].
    apply ampersandsAt_true in Hamp as [rest' Heq].
    by destruct (Hnone EmptyString rest'). }
  assert (Hmn : mnemonicAt (String c rest) = false).
  { destruct (mnemonicAt (String c rest)) eqn:Hmn; [|done].
    apply mnemonicAt_true in Hmn as [rest' Heq].
    by destruct (Hnone "(" rest'). }
  rewrite Hamp, Hmn.
  assert (Hrest : replaceFrom isWindows 0 rest = rest).
  { apply IH. intros before after Heq.
    apply (Hnone (String c before) after). by rewrite Heq. }
  rewrite Hrest. by destruct isWindows.
Qed.

(** X28. [mnemonicLabel] only removes characters: on every platform the
    characters of the result are those of the label, in order, with some
    left out; a label in which ['&&'] does not occur is returned as it
    is. *)
Theorem mnemonicLabel_only_removes (isWindows : bool) (label : string) :
  sublist (String.list_ascii_of_string (mnemonicLabel isWindows label))
    (String.list_ascii_of_string label)
  ∧ ((∀ before after, label ≠ before +:+ "&&" +:+ after) ->
     mnemonicLabel isWindows label = label).
Proof.
  split; [apply replaceFrom_sublist|].
  apply replaceFrom_unchanged.
Qed.

Lemma no_ampersand_cons (c : ascii) (s : string) :
  "&"%char ∉ String.list_ascii_of_string (String c s) ->
  c ≠ "&"%char ∧ "&"%char ∉ String.list_ascii_of_string s.
Proof.
  cbn. intros Hnot. split.
  - intros ->. apply Hnot. by left.
  - intros Hin. apply Hnot. by right.
Qed.

Lemma no_ampersand_unchanged (isWindows : bool) (s : string) :
  "&"%char ∉ String.list_ascii_of_string s -> replaceFrom isWindows 0 s = s.
Proof.
  intros Hnot. apply replaceFrom_unchanged. intros before after ->.
  apply Hnot. clear Hnot. induction before as [|c before IH]; cbn.
  - by left.
  - by right.
Qed.

Lemma ampersandsAt_other (c : ascii) (s : string) :
  c ≠ "&"%char -> ampersandsAt (String c s) = false.
Proof.
  intros Hc. destruct s as [|c1 s]; [done|]. cbn.
  destruct (Ascii.eqb_spec c "&"); done.
Qed.

Lemma mnemonicAt_other (c : ascii) (s : string) :
  c ≠ "("%char -> mnemonicAt (String c s) = false.
Proof.
  intros Hc. destruct s as [|c1 [|c2 [|c3 [|c4 s]]]]; try done. cbn.
  destruct (Ascii.eqb_spec c "("); done.
Qed.

Lemma mnemonicAt_paren (c : ascii) (s : string) :
  mnemonicAt (String "(" (String "&" (String "&" (String c (String ")" s)))))
  = isWordChar c.
Proof.
  unfold mnemonicAt. rewrite !Ascii.eqb_refl. cbn [andb].
  by rewrite andb_true_r.
Qed.

Lemma ampersandsAt_ampersands (s : string) :
  ampersandsAt (String "&" (String "&" s)) = true.
Proof. unfold ampersandsAt. by rewrite !Ascii.eqb_refl. Qed.

Lemma replaceFrom_text (isWindows : bool) (a s : string) :
  "&"%char ∉ String.list_ascii_of_string a ->
  (isWindows = false -> ampersandsAt s = true ->
   last (String.list_ascii_of_string a) ≠ Some "("%char) ->
  replaceFrom isWindows 0 (a +:+ s) = a +:+ replaceFrom isWindows 0 s.
Proof.
  induction a as [|c a IH]; intros Hnot Hparen; [done|].
  apply no_ampersand_cons in Hnot as [Hc Hnot].
  change (String c a +:+ s) with (String c (a +:+ s)).
  change (String c a +:+ replaceFrom isWindows 0 s)
    with (String c (a +:+ replaceFrom isWindows 0 s)).
  cbn [replaceFrom].
  rewrite (ampersandsAt_other c (a +:+ s) Hc).
  assert (Hrest : replaceFrom isWindows 0 (a +:+ s)
                  = a +:+ replaceFrom isWindows 0 s).
  { apply IH; [done|]. intros Hw Hamp. specialize (Hparen Hw Hamp).
    destruct a as [|c1 a]; [done|]. exact Hparen. }
  rewrite Hrest. destruct isWindows; [done|].
  destruct (mnemonicAt (String c (a +:+ s))) eqn:Hmn; [|done].
  exfalso. apply mnemonicAt_true in Hmn as [rest Heq].
  injection Heq as -> Heq. destruct a as [|c1 a].
  - change (EmptyString +:+ s) with s in Heq.
    apply (Hparen eq_refl); [|done]. by rewrite Heq.
  - injection Heq as -> _. apply Hnot. by left.
Qed.

(** X29. A label with one mnemonic, in a text without any other ['&'].
    On Windows ['&&'] becomes ['&']. Elsewhere ['&&'] after a text that
    does not end with ['('] is removed, and so is a whole ['(&&c)'] when [c]
    is a letter, a digit or an underscore; with any other [c] only the
    ['&&'] inside the parentheses goes. *)
Theorem mnemonicLabel_one_mnemonic (a b : string) (c : ascii) :
  "&"%char ∉ String.list_ascii_of_string a ->
  "&"%char ∉ String.list_ascii_of_string b ->
  mnemonicLabel true (a +:+ "&&" +:+ b) = a +:+ "&" +:+ b
  ∧ (last (String.list_ascii_of_string a) ≠ Some "("%char ->
     mnemonicLabel false (a +:+ "&&" +:+ b) = a +:+ b)
  ∧ (isWordChar c = true ->
     mnemonicLabel false (a +:+ "(&&" +:+ String c (")" +:+ b)) = a +:+ b)
  ∧ (isWordChar c = false -> c ≠ "&"%char ->
     mnemonicLabel false (a +:+ "(&&" +:+ String c (")" +:+ b))
     = a +:+ "(" +:+ String c (")" +:+ b)).
Proof.
  intros Ha Hb. unfold mnemonicLabel.
  pose proof (no_ampersand_unchanged true b Hb) as Hbw.
  pose proof (no_ampersand_unchanged false b Hb) as Hbo.
  assert (Hparen : replaceFrom false 0 ("(&&" +:+ String c (")" +:+ b))
                   = if isWordChar c then replaceFrom false 0 b
                     else String "(" (replaceFrom false 0
                                        (String c (")" +:+ b)))).
  { change ("(&&" +:+ String c (")" +:+ b))
      with (String "(" (String "&" (String "&" (String c (String ")" b))))).
    change (")" +:+ b) with (String ")" b).
    cbn [replaceFrom]. rewrite mnemonicAt_paren.
    destruct (isWordChar c); [done|].
    rewrite ampersandsAt_other by done.
    rewrite mnemonicAt_other by done.
    by rewrite ampersandsAt_ampersands. }
  split; [|split; [|split]].
  - rewrite (replaceFrom_text _ a _ Ha) by done.
    change (replaceFrom true 0 ("&&" +:+ b))
      with (String "&" (replaceFrom true 0 b)).
    by rewrite Hbw.
  - intros Hlast. rewrite (replaceFrom_text _ a _ Ha) by (intros _ _; exact Hlast).
    change ("&&" +:+ b) with (String "&" (String "&" b)).
    cbn [replaceFrom]. rewrite mnemonicAt_other by done.
    by rewrite ampersandsAt_ampersands, Hbo.
  - intros Hword.
    rewrite (replaceFrom_text _ a _ Ha) by (intros _ Hamp; discriminate Hamp).
    by rewrite Hparen, Hword, Hbo.
  - intros Hword Hc.
    rewrite (replaceFrom_text _ a _ Ha) by (intros _ Hamp; discriminate Hamp).
    rewrite Hparen, Hword.
    assert (Hrest : replaceFrom false 0 (String c (")" +:+ b))
                    = String c (")" +:+ b)).
    { apply no_ampersand_unchanged.
      change (")" +:+ b) with (String ")" b). cbn. intros Hin.
      apply elem_of_cons in Hin as [Heq|Hin]; [by destruct Hc|].
      apply elem_of_cons in Hin as [Heq|Hin]; [done|]. by apply Hb. }
    by rewrite Hrest.
Qed.

End MnemonicProperties.

Section MnemonicScenarios.

Import ResourceEditorInput.

(** X29 at work: the labels of [confirmSave]. *)
Lemma mnemonicLabel_one_mnemonic_demo :
  ("&"%char ∉ String.list_ascii_of_string "Do") ∧
  ("&"%char ∉ String.list_ascii_of_string "n't Save") ∧
  mnemonicLabel true "Do&&n't Save" = "Do&n't Save" ∧
  mnemonicLabel false "Do&&n't Save" = "Don't Save".
Proof.
  assert (Ha : "&"%char ∉ String.list_ascii_of_string "Do")
    by (refine (bool_decide_unpack _ _); vm_compute; exact I).
  assert (Hb : "&"%char ∉ String.list_ascii_of_string "n't Save")
    by (refine (bool_decide_unpack _ _); vm_compute; exact I).
  destruct (mnemonicLabel_one_mnemonic "Do" "n't Save" "S" Ha Hb)
    as (Hwindows & Hother & _).
  split; [exact Ha|]. split; [exact Hb|]. split; [exact Hwindows|].
  apply Hother. discriminate.
Defined.

End MnemonicScenarios.
